(** * YoutubeMCQGenerator: extraction of study items and the quiz sessions

    A shallow embedding of the front-end logic of the repository:
    - [parseMCQOutput] of [frontend/components/MCQQuiz.tsx],
    - [parseFlashcardOutput] of the flashcard component,
    - the React state and the event handlers of both components.

    JavaScript strings are sequences of UTF-16 code units; the regular
    expressions of the source are written as terms of [regex] and run by a
    backtracking matcher that follows the ECMAScript semantics of the
    constructs the source uses. *)

From Stdlib Require Import ZArith String Ascii PrimFloat.
From stdpp Require Import gmap list fin_maps.

Local Open Scope nat_scope.

(** ** JavaScript strings *)

(** One UTF-16 code unit. *)
Abbreviation codeunit := N (only parsing).
Abbreviation jsstring := (list N) (only parsing).

(** The code units of an ASCII literal. *)
Fixpoint codes (s : string) : jsstring :=
  match s with
  | EmptyString => []
  | String a s' => N_of_ascii a :: codes s'
  end.

(** "\n" *)
Definition nl : jsstring := [10%N].

(** Lines joined with "\n", to write multi-line inputs. *)
Fixpoint unlines (ls : list string) : jsstring :=
  match ls with
  | [] => []
  | [l] => codes l
  | l :: ls' => codes l ++ nl ++ unlines ls'
  end.

(** ECMAScript LineTerminator: LF, CR, LS, PS. *)
Definition isLineTerminator (c : N) : bool :=
  ((c =? 10) || (c =? 13) || (c =? 8232) || (c =? 8233))%N.

(** ECMAScript WhiteSpace or LineTerminator: what [\s] matches and what
    [String.prototype.trim] strips. *)
Definition isSpace (c : N) : bool :=
  ((c =? 9) || (c =? 11) || (c =? 12) || (c =? 32) || (c =? 160)
   || (c =? 5760) || ((8192 <=? c) && (c <=? 8202)) || (c =? 8239)
   || (c =? 8287) || (c =? 12288) || (c =? 65279))%N
  || isLineTerminator c.

(** [\d] *)
Definition isDigit (c : N) : bool := ((48 <=? c) && (c <=? 57))%N.

(** [.] without the [s] flag. *)
Definition isDot (c : N) : bool := negb (isLineTerminator c).

(** [.] with the [s] flag, and [[\s\S]]. *)
Definition isAny (c : N) : bool := true.

(** [[ABCD]] *)
Definition isABCD (c : N) : bool := ((65 <=? c) && (c <=? 68))%N.

Definition isChar (a : ascii) (c : N) : bool := (c =? N_of_ascii a)%N.

(** [\w]: a letter, a digit or the underscore. *)
Definition isWord (c : N) : bool :=
  (((65 <=? c) && (c <=? 90)) || ((97 <=? c) && (c <=? 122))
   || ((48 <=? c) && (c <=? 57)) || (c =? 95))%N.

(** [[\w-]] *)
Definition isWordOrHyphen (c : N) : bool := isWord c || (c =? 45)%N.

Fixpoint trimStart (s : jsstring) : jsstring :=
  match s with
  | [] => []
  | c :: s' => if isSpace c then trimStart s' else s
  end.

Definition trimEnd (s : jsstring) : jsstring := rev (trimStart (rev s)).

(** [String.prototype.trim] *)
Definition trim (s : jsstring) : jsstring := trimEnd (trimStart s).

(** [s.substring(i, j)] for [i <= j]. *)
Definition substring (s : jsstring) (i j : nat) : jsstring :=
  take (j - i) (drop i s).

(** ** Regular expressions *)

(** The constructs the source's patterns are written with.  A repetition
    carries its greediness; a group carries its number. *)
Inductive regex : Type :=
| Empty : regex
| Char : (N -> bool) -> regex
| Seq : regex -> regex -> regex
| Alt : regex -> regex -> regex
| Star : bool -> regex -> regex
| Group : nat -> regex -> regex
| Lookahead : regex -> regex
| Bol : regex
| Eol : regex.

(** The pieces of a pattern written one after the other. *)
Definition Cat (rs : list regex) : regex := foldr Seq Empty rs.

(** [r+] and [r+?]: the repeated atoms of the source hold no group. *)
Definition Plus (greedy : bool) (r : regex) : regex := Seq r (Star greedy r).

(** [r?], greedy, for an [r] that consumes something: [r] first, then
    nothing. *)
Definition Opt (r : regex) : regex := Alt r Empty.

(** A literal piece of pattern text. *)
Fixpoint Lit (s : string) : regex :=
  match s with
  | EmptyString => Empty
  | String a s' => Seq (Char (isChar a)) (Lit s')
  end.

(** The state of a match in progress: the end index reached and the
    captures made, group number to (start, end). *)
Record mstate : Type := MState {
  endIndex : nat;
  captures : gmap nat (nat * nat)
}.

Definition orElse {A} (a b : option A) : option A :=
  match a with Some _ => a | None => b end.

Section Matcher.
(** The string matched against, and the [m] flag. *)
Variable input : jsstring.
Variable multiline : bool.

Definition cont : Type := mstate -> option mstate.

(** ECMAScript RepeatMatcher with min 0 and max infinity: an iteration
    that consumes nothing is rejected.  Every iteration consumes a code
    unit, so [S (length input - endIndex x)] iterations are never
    exhausted (lemma [repeatMatcher_fuel]). *)
Fixpoint repeatMatcher (fuel : nat) (greedy : bool) (m : cont -> cont)
    (k : cont) (x : mstate) : option mstate :=
  match fuel with
  | 0 => k x
  | S fuel' =>
      let again :=
        m (fun y => if endIndex y =? endIndex x then None
                    else repeatMatcher fuel' greedy m k y) x in
      if greedy then orElse again (k x) else orElse (k x) again
  end.

Definition atBol (i : nat) : bool :=
  (i =? 0) ||
  (multiline && match input !! (i - 1) with
                | Some c => isLineTerminator c
                | None => false
                end).

Definition atEol (i : nat) : bool :=
  (i =? length input) ||
  (multiline && match input !! i with
                | Some c => isLineTerminator c
                | None => false
                end).

(** The matcher of a pattern, in continuation-passing style as in the
    ECMAScript specification: [rmatch r k x] matches [r] from state [x]
    and hands every way of matching it, in priority order, to [k]. *)
Fixpoint rmatch (r : regex) (k : cont) (x : mstate) {struct r}
    : option mstate :=
  match r with
  | Empty => k x
  | Char p =>
      match input !! endIndex x with
      | Some c => if p c then k (MState (S (endIndex x)) (captures x))
                  else None
      | None => None
      end
  | Seq r1 r2 => rmatch r1 (rmatch r2 k) x
  | Alt r1 r2 => orElse (rmatch r1 k x) (rmatch r2 k x)
  | Star greedy r1 =>
      repeatMatcher (S (length input - endIndex x)) greedy (rmatch r1) k x
  | Group n r1 =>
      rmatch r1
        (fun y => k (MState (endIndex y)
                       (<[n := (endIndex x, endIndex y)]> (captures y)))) x
  | Lookahead r1 =>
      match rmatch r1 Some x with
      | Some y => k (MState (endIndex x) (captures y))
      | None => None
      end
  | Bol => if atBol (endIndex x) then k x else None
  | Eol => if atEol (endIndex x) then k x else None
  end.

(** One attempt at index [i] (a sticky match). *)
Definition matchAt (r : regex) (i : nat) : option mstate :=
  rmatch r Some (MState i ∅).

(** RegExpBuiltinExec: the first index from [i] on, at most [n] steps
    further, where the pattern matches. *)
Fixpoint search (r : regex) (n i : nat) : option (nat * mstate) :=
  match matchAt r i with
  | Some y => Some (i, y)
  | None =>
      match n with
      | 0 => None
      | S n' => search r n' (S i)
      end
  end.
End Matcher.

(** A match result: where it starts, where it ends, the captures. *)
Record MatchResult : Type := MkMatch {
  m_input : jsstring;
  m_index : nat;
  m_end : nat;
  m_captures : gmap nat (nat * nat)
}.

(** [match[n]]: the text of group [n], [None] for [undefined]. *)
Definition group (m : MatchResult) (n : nat) : option jsstring :=
  match m_captures m !! n with
  | Some (i, j) => Some (substring (m_input m) i j)
  | None => None
  end.

(** A RegExp object: its pattern and its [m] flag ([g] shows in how the
    source uses it, [s] in the class written for [.]). *)
Record RegExp : Type := MkRegExp {
  pattern : regex;
  flag_m : bool
}.

(** [re.exec(s)] with [re.lastIndex = lastIndex]. *)
Definition exec (re : RegExp) (s : jsstring) (lastIndex : nat)
    : option MatchResult :=
  if length s <? lastIndex then None
  else
    match search s (flag_m re) (pattern re) (length s - lastIndex) lastIndex with
    | Some (i, y) => Some (MkMatch s i (endIndex y) (captures y))
    | None => None
    end.

(** [s.match(re)] for a pattern without the [g] flag. *)
Definition jsmatch (s : jsstring) (re : RegExp) : option MatchResult :=
  exec re s 0.

(** The loop [while ((match = re.exec(s)) !== null) {...}] of a [g]
    pattern: the successive matches, each searched from the end of the one
    before. *)
Fixpoint execAll (fuel : nat) (re : RegExp) (s : jsstring) (lastIndex : nat)
    : list MatchResult :=
  match fuel with
  | 0 => []
  | S fuel' =>
      match exec re s lastIndex with
      | Some m => m :: execAll fuel' re s (m_end m)
      | None => []
      end
  end.

(** [s.split(re)] for a pattern without groups (RegExp.prototype[@@split]):
    [p] is the start of the piece being cut, [q] the index tried. *)
Fixpoint splitLoop (fuel : nat) (re : RegExp) (s : jsstring) (p q : nat)
    : list jsstring :=
  match fuel with
  | 0 => [substring s p (length s)]
  | S fuel' =>
      if q <? length s then
        match matchAt s (flag_m re) (pattern re) q with
        | None => splitLoop fuel' re s p (S q)
        | Some y =>
            let e := min (endIndex y) (length s) in
            if e =? p then splitLoop fuel' re s p (S q)
            else substring s p q :: splitLoop fuel' re s e e
        end
      else [substring s p (length s)]
  end.

Definition split (s : jsstring) (re : RegExp) : list jsstring :=
  match s with
  | [] =>
      match matchAt s (flag_m re) (pattern re) 0 with
      | Some _ => []
      | None => [s]
      end
  | _ => splitLoop (2 * length s + 2) re s 0 0
  end.

(** ** The matcher and the declarative reading of a pattern *)

(** The least number of code units a pattern consumes. *)
Fixpoint minlen (r : regex) : nat :=
  match r with
  | Empty => 0
  | Char _ => 1
  | Seq r1 r2 => minlen r1 + minlen r2
  | Alt r1 r2 => min (minlen r1) (minlen r2)
  | Star _ _ => 0
  | Group _ r1 => minlen r1
  | Lookahead _ => 0
  | Bol => 0
  | Eol => 0
  end.

(** Whether group [n] occurs in a pattern. *)
Fixpoint hasGroup (n : nat) (r : regex) : bool :=
  match r with
  | Empty | Char _ | Bol | Eol => false
  | Seq r1 r2 | Alt r1 r2 => hasGroup n r1 || hasGroup n r2
  | Star _ r1 | Lookahead r1 => hasGroup n r1
  | Group n' r1 => (n =? n') || hasGroup n r1
  end.

(** Whether a pattern, when it matches, has always set group [n]. *)
Fixpoint setsGroup (n : nat) (r : regex) : bool :=
  match r with
  | Empty | Char _ | Bol | Eol | Star _ _ => false
  | Seq r1 r2 => setsGroup n r1 || setsGroup n r2
  | Alt r1 r2 => setsGroup n r1 && setsGroup n r2
  | Lookahead r1 => setsGroup n r1
  | Group n' r1 => (n =? n') || setsGroup n r1
  end.

(** A pattern without lookahead whose repetitions repeat something that
    consumes at least one code unit. *)
Fixpoint plainPattern (r : regex) : bool :=
  match r with
  | Empty | Char _ | Bol | Eol => true
  | Seq r1 r2 | Alt r1 r2 => plainPattern r1 && plainPattern r2
  | Star _ r1 => plainPattern r1 && (0 <? minlen r1)
  | Group _ r1 => plainPattern r1
  | Lookahead _ => false
  end.

Section Semantics.
Variable input : jsstring.
Variable multiline : bool.

(** [sem r x y]: the pattern [r] can take the match state [x] to [y]. *)
Fixpoint sem (r : regex) (x y : mstate) {struct r} : Prop :=
  match r with
  | Empty => y = x
  | Char p =>
      exists c, input !! endIndex x = Some c /\ p c = true /\
                y = MState (S (endIndex x)) (captures x)
  | Seq r1 r2 => exists m, sem r1 x m /\ sem r2 m y
  | Alt r1 r2 => sem r1 x y \/ sem r2 x y
  | Star _ r1 => rtc (sem r1) x y
  | Group n r1 =>
      exists y', sem r1 x y' /\
        y = MState (endIndex y')
              (<[n := (endIndex x, endIndex y')]> (captures y'))
  | Lookahead r1 =>
      exists y', sem r1 x y' /\ y = MState (endIndex x) (captures y')
  | Bol => atBol input multiline (endIndex x) = true /\ y = x
  | Eol => atEol input multiline (endIndex x) = true /\ y = x
  end.

End Semantics.

(** [pieces.join(sep)] *)
Fixpoint join (sep : jsstring) (pieces : list jsstring) : jsstring :=
  match pieces with
  | [] => []
  | [piece] => piece
  | piece :: pieces' => piece ++ sep ++ join sep pieces'
  end.

(** A match object is truthy, [null] is not. *)
Definition truthy {A} (o : option A) : bool :=
  match o with Some _ => true | None => false end.

(** [array.forEach((item, index) => ...)] whose callback either pushes one
    record on the result array or returns early: [acc] is the array built
    so far, [index] the index of the head of [l]. *)
Fixpoint forEachPush {A B} (f : A -> nat -> option B) (l : list A)
    (index : nat) (acc : list B) : list B :=
  match l with
  | [] => acc
  | item :: l' =>
      forEachPush f l' (S index)
        (match f item index with
         | Some b => acc ++ [b]
         | None => acc
         end)
  end.

(** The items of [l] with their indices, counted from [index], and the
    callback applied to such a pair. *)
Definition indexed {A} (l : list A) (index : nat) : list (nat * A) :=
  zip (seq index (length l)) l.

Definition callAt {A B} (f : A -> nat -> option B) (p : nat * A) : option B :=
  f p.2 p.1.

(** ** Pattern pieces both components use *)

Definition ws : regex := Char isSpace.
Definition digit : regex := Char isDigit.

(** [\d+\.\s\*\*] *)
Definition numbered : regex :=
  Cat [Plus true digit; Lit "."; ws; Lit "**"].

(** A text that starts as a numbered block does: digits, a dot, one
    white space, two asterisks. *)
Definition startsNumbered (s : jsstring) : Prop :=
  exists d ds w rest,
    isDigit d = true /\ Forall (fun c => isDigit c = true) ds /\
    isSpace w = true /\
    s = d :: ds ++ codes "." ++ [w] ++ codes "**" ++ rest.

(** ** JavaScript numbers *)

(** The double of a natural number (exact below 2^53). *)
Fixpoint pos2float (p : positive) : float :=
  match p with
  | xH => 1
  | xO p' => 2 * pos2float p'
  | xI p' => 2 * pos2float p' + 1
  end%float.

Definition nat2float (n : nat) : float :=
  match N.of_nat n with
  | N0 => 0%float
  | Npos p => pos2float p
  end.

(** 2^52: from there on every double is an integer. *)
Definition two52 : float := Eval vm_compute in pos2float (2 ^ 52)%positive.

(** [Math.floor] *)
Definition Math_floor (x : float) : float :=
  if (abs x <? two52)%float then
    let t := if (x <? 0)%float then (x - two52 + two52)%float
             else (x + two52 - two52)%float in
    if (x <? t)%float then (t - 1)%float else t
  else x.

(** [Math.round]: the nearest integer, a tie going up. *)
Definition Math_round (x : float) : float :=
  let f := Math_floor x in
  if (0.5 <=? x - f)%float then (f + 1)%float else f.

(** * The quiz component (frontend/components/MCQQuiz.tsx) *)

Module MCQQuiz.

(** ** The MCQ extractor *)

(** [/\n(?=N)/g], where N is the pattern [numbered] above *)
Definition questionSplitter : RegExp :=
  MkRegExp (Cat [Char (isChar "010"); Lookahead numbered]) false.

(** [/^\d+\.\s\*\*/] *)
Definition blockHead : RegExp :=
  MkRegExp (Cat [Bol; numbered]) false.

(** [/^\d+\.\s\*\*(.+?)\*\*/] *)
Definition questionRegex : RegExp :=
  MkRegExp (Cat [Bol; numbered; Group 1 (Plus false (Char isDot)); Lit "**"])
           false.

(** [/^\s*\(([ABCD])\)\s(.+)$/gm] *)
Definition optionRegex : RegExp :=
  MkRegExp (Cat [Bol; Star true ws; Lit "("; Group 1 (Char isABCD); Lit ")";
                 ws; Group 2 (Plus true (Char isDot)); Eol])
           true.

(** [/\*\*Correct Answer:\s*\(([ABCD])\)\*\*/] *)
Definition correctAnswerRegex : RegExp :=
  MkRegExp (Cat [Lit "**Correct Answer:"; Star true ws; Lit "(";
                 Group 1 (Char isABCD); Lit ")**"])
           false.

(** [/\*\*Correct Answer:\s*\([ABCD]\)\*\*\s*(G)$/], the group G
    being [[\s\S]*] *)
Definition explanationRegex : RegExp :=
  MkRegExp (Cat [Lit "**Correct Answer:"; Star true ws; Lit "(";
                 Char isABCD; Lit ")**"; Star true ws;
                 Group 1 (Star true (Char isAny)); Eol])
           false.

(** [options: {A: string, B: string, C: string, D: string}], a JavaScript
    object written through [options[letter] = text]. *)
Record MCQQuestion : Type := MkMCQQuestion {
  id : nat;
  question : jsstring;
  options : gmap (list N) (list N);
  correctAnswer : jsstring;
  explanation : jsstring
}.

(** [{A: '', B: '', C: '', D: ''}] *)
Definition emptyOptions : gmap (list N) (list N) :=
  <[codes "A" := []]> (<[codes "B" := []]> (<[codes "C" := []]>
    (<[codes "D" := []]> ∅))).

(** The body of the [while] loop over the option matches: one match
    writes [options[letter]] and counts.  [None] is the TypeError of a
    [trim] on [undefined], which the [catch] around the block turns into
    a skipped block. *)
Definition optionStep (st : option (gmap (list N) (list N) * nat))
    (m : MatchResult) : option (gmap (list N) (list N) * nat) :=
  match st with
  | None => None
  | Some (opts, foundOptions) =>
      match group m 1, group m 2 with
      | Some letter, Some text2 =>
          Some (<[letter := trim text2]> opts, S foundOptions)
      | _, _ => None
      end
  end.

Definition optionMatches (block : jsstring) : list MatchResult :=
  execAll (S (length block)) optionRegex block 0.

(** The callback of [questionBlocks.forEach]: the record pushed for a
    block, or [None] when the callback returns (or throws) before the
    push. *)
Definition parseBlock (block : jsstring) (index : nat) : option MCQQuestion :=
  match jsmatch block questionRegex with
  | None => None
  | Some questionMatch =>
      match group questionMatch 1 with
      | None => None
      | Some g1 =>
          let question := trim g1 in
          match fold_left optionStep (optionMatches block)
                  (Some (emptyOptions, 0)) with
          | None => None
          | Some (opts, foundOptions) =>
              if negb (foundOptions =? 4) then None
              else
                match jsmatch block correctAnswerRegex with
                | None => None
                | Some correctAnswerMatch =>
                    match group correctAnswerMatch 1 with
                    | None => None
                    | Some correctAnswer =>
                        let explanation :=
                          match jsmatch block explanationRegex with
                          | Some explanationMatch =>
                              match group explanationMatch 1 with
                              | Some t => Some (trim t)
                              | None => None
                              end
                          | None => Some []
                          end in
                        match explanation with
                        | None => None
                        | Some explanation =>
                            Some (MkMCQQuestion (index + 1) question opts
                                    correctAnswer explanation)
                        end
                    end
                end
          end
      end
  end.

(** [rawOutput.split(...).filter(block => block.trim().match(...))] *)
Definition questionBlocks (rawOutput : jsstring) : list jsstring :=
  List.filter (fun block => truthy (jsmatch (trim block) blockHead))
              (split rawOutput questionSplitter).

Definition parseMCQOutput (rawOutput : jsstring) : list MCQQuestion :=
  forEachPush parseBlock (questionBlocks rawOutput) 0 [].


(** *** Notions the statements about the extractor use *)

(** The four option keys. *)
Definition letters : list (list N) :=
  [codes "A"; codes "B"; codes "C"; codes "D"].

(** The text the option lines [ms] give a letter: the trimmed text of the
    last line that carries the letter, if there is one. *)
Fixpoint lastText (ms : list MatchResult) (letter : jsstring)
    : option jsstring :=
  match ms with
  | [] => None
  | m :: ms' =>
      match lastText ms' letter with
      | Some t => Some t
      | None =>
          if decide (group m 1 = Some letter) then trim <$> group m 2
          else None
      end
  end.

(** What a block gives a letter: the empty text without a line for it. *)
Definition optionText (block letter : jsstring) : jsstring :=
  default [] (lastText (optionMatches block) letter).

(** The letters of the option lines of a block, in order. *)
Definition optionLetters (block : jsstring) : list (option jsstring) :=
  map (fun m => group m 1) (optionMatches block).

(** The three tests the callback of [parseMCQOutput] makes before it
    pushes a record, taken together: [questionMatch] is not null,
    [foundOptions] is 4, [correctAnswerMatch] is not null.  This is the
    test of the code, for any text; what a well-formed block is, apart
    from the code, is said by [BlockGrammar]. *)
Definition passesChecks (block : jsstring) : bool :=
  truthy (jsmatch block questionRegex)
  && (length (optionMatches block) =? 4)
  && truthy (jsmatch block correctAnswerRegex).

(** How the ids of the records of [result] follow the blocks offered to
    the callback [parse]: the record at position [j] was built from the
    block at some position [index], its id is [index + 1], [j] counts
    the blocks before it that gave a record, so the id is at least
    [j + 1], and greater as soon as one earlier block gave none. *)
Definition idsFollowBlocks (blocks : list jsstring)
    (parse : jsstring -> nat -> option MCQQuestion)
    (result : list MCQQuestion) : Prop :=
  forall j q, result !! j = Some q ->
    exists index block,
      blocks !! index = Some block /\
      parse block index = Some q /\
      id q = index + 1 /\
      j = length (forEachPush parse (take index blocks) 0 []) /\
      j + 1 <= id q /\
      (forall i b, i < index -> blocks !! i = Some b ->
                   parse b i = None -> j + 1 < id q).

(** ** The quiz session: the component's state and its handlers *)

(** The [useState] cells of [MCQQuiz]. *)
Record State : Type := MkState {
  mcqData : list MCQQuestion;
  currentQuestion : nat;
  selectedAnswers : gmap nat (list N);
  showExplanation : gmap nat bool;
  quizCompleted : bool;
  loading : bool;
  error : jsstring
}.

(** The state of the first render. *)
Definition initialState : State :=
  MkState [] 0 ∅ ∅ false true [].

Definition noDataMessage : jsstring :=
  codes "No quiz data found. Please generate a quiz first.".

Definition parseErrorMessage : jsstring :=
  codes "Could not parse quiz questions. Please try generating the quiz again.".

(** The [useEffect] that loads the quiz; [stored] is what
    [localStorage.getItem('mcqData')] returns, [None] for [null].  An
    empty string is falsy as well. *)
Definition loadQuiz (stored : option jsstring) (st : State) : State :=
  match stored with
  | None | Some [] =>
      MkState (mcqData st) (currentQuestion st) (selectedAnswers st)
              (showExplanation st) (quizCompleted st) false noDataMessage
  | Some storedMcqData =>
      let parsedData := parseMCQOutput storedMcqData in
      if length parsedData =? 0 then
        MkState (mcqData st) (currentQuestion st) (selectedAnswers st)
                (showExplanation st) (quizCompleted st) false
                parseErrorMessage
      else
        MkState parsedData (currentQuestion st) (selectedAnswers st)
                (showExplanation st) (quizCompleted st) false (error st)
  end.

Definition handleAnswerSelect (answer : jsstring) (st : State) : State :=
  MkState (mcqData st) (currentQuestion st)
          (<[currentQuestion st := answer]> (selectedAnswers st))
          (<[currentQuestion st := true]> (showExplanation st))
          (quizCompleted st) (loading st) (error st).

Definition nextQuestion (st : State) : State :=
  if (Z.of_nat (currentQuestion st) <? Z.of_nat (length (mcqData st)) - 1)%Z
  then MkState (mcqData st) (currentQuestion st + 1) (selectedAnswers st)
               (showExplanation st) (quizCompleted st) (loading st) (error st)
  else MkState (mcqData st) (currentQuestion st) (selectedAnswers st)
               (showExplanation st) true (loading st) (error st).

Definition prevQuestion (st : State) : State :=
  if 0 <? currentQuestion st
  then MkState (mcqData st) (currentQuestion st - 1) (selectedAnswers st)
               (showExplanation st) (quizCompleted st) (loading st) (error st)
  else st.

Definition resetQuiz (st : State) : State :=
  MkState (mcqData st) 0 ∅ ∅ false (loading st) (error st).

(** The loop of [calculateScore]: [idx] is the index of the head of
    [questions], [correct] the counter. *)
Fixpoint scoreLoop (answers : gmap nat (list N)) (questions : list MCQQuestion)
    (idx correct : nat) : nat :=
  match questions with
  | [] => correct
  | q :: questions' =>
      scoreLoop answers questions' (S idx)
        (if decide (answers !! idx = Some (correctAnswer q))
         then S correct else correct)
  end.

Definition calculateScore (st : State) : nat :=
  scoreLoop (selectedAnswers st) (mcqData st) 0 0.

(** [Math.round((score / mcqData.length) * 100)] *)
Definition percentageOf (score total : nat) : float :=
  Math_round (nat2float score / nat2float total * 100)%float.

Definition percentage (st : State) : float :=
  percentageOf (calculateScore st) (length (mcqData st)).

(** Whether the answer recorded for index [i] is the correct one. *)
Definition answeredCorrectly (st : State) (i : nat) : bool :=
  match mcqData st !! i with
  | Some q => bool_decide (selectedAnswers st !! i = Some (correctAnswer q))
  | None => false
  end.

(** The percentage in exact arithmetic: the integer nearest to
    [100 * score / total], a half going away from zero. *)
Definition exactPercentage (score total : nat) : nat :=
  N.to_nat ((200 * N.of_nat score + N.of_nat total) / (2 * N.of_nat total)).

(** The check, by evaluation, that for every quiz of at most [bound]
    questions [percentageOf] is the exactly rounded percentage, 23 of 40
    and 46 of 80 apart. *)
Definition percentageExactUpTo (bound : nat) : bool :=
  forallb (fun total =>
    forallb (fun score =>
      (percentageOf score total
       =? nat2float (exactPercentage score total))%float
      || ((score =? 23) && (total =? 40))
      || ((score =? 46) && (total =? 80)))
      (seq 0 (S total)))
    (seq 1 bound).

(** What the component renders. *)
Inductive Screen : Type :=
| LoadingScreen
| ErrorScreen
| ResultScreen
| QuestionScreen.

Definition render (st : State) : Screen :=
  if loading st then LoadingScreen
  else if negb (length (error st) =? 0) then ErrorScreen
  else if quizCompleted st then ResultScreen
  else QuestionScreen.

(** [showExplanation[currentQuestion]], a boolean or [undefined]. *)
Definition showCurrentExplanation (st : State) : bool :=
  match showExplanation st !! currentQuestion st with
  | Some b => b
  | None => false
  end.

(** [!selectedAnswer]: no answer, or an empty one. *)
Definition noSelectedAnswer (st : State) : bool :=
  match selectedAnswers st !! currentQuestion st with
  | Some (_ :: _) => false
  | _ => true
  end.

(** The [onClick] of an option button,
    [() => !showCurrentExplanation && handleAnswerSelect(letter)]. *)
Definition clickOption (letter : jsstring) (st : State) : State :=
  if negb (showCurrentExplanation st) then handleAnswerSelect letter st
  else st.

(** What the user can do to the component. *)
Inductive Event : Type :=
| Mount (stored : option jsstring)
| ClickOption (letter : jsstring)
| ClickNext
| ClickPrevious
| ClickRetake.

(** The effect of an event: a button acts when it is on the screen and
    not disabled. *)
Definition dispatch (e : Event) (st : State) : State :=
  match e, render st with
  | Mount stored, _ => loadQuiz stored st
  | ClickOption letter, QuestionScreen => clickOption letter st
  | ClickNext, QuestionScreen =>
      if noSelectedAnswer st then st else nextQuestion st
  | ClickPrevious, QuestionScreen =>
      if currentQuestion st =? 0 then st else prevQuestion st
  | ClickRetake, ResultScreen => resetQuiz st
  | _, _ => st
  end.

Definition run (es : list Event) (st : State) : State :=
  fold_left (fun s e => dispatch e s) es st.

(** Every recorded answer has its explanation shown. *)
Definition answered_shown (st : State) : Prop :=
  forall i, is_Some (selectedAnswers st !! i) ->
            showExplanation st !! i = Some true.

(** *** The look of an option button *)

(** [mcqData[currentQuestion]], [None] for [undefined]. *)
Definition currentMCQ (st : State) : option MCQQuestion :=
  mcqData st !! currentQuestion st.

Definition baseClass : jsstring :=
  codes "w-full text-left p-4 rounded-lg border-2 transition-all duration-200 hover:shadow-md ".

Definition greenClass : jsstring :=
  codes "border-green-500 bg-green-50 text-green-800".

Definition redClass : jsstring :=
  codes "border-red-500 bg-red-50 text-red-800".

Definition grayClass : jsstring :=
  codes "border-gray-200 bg-gray-50 text-gray-600".

Definition blueClass : jsstring :=
  codes "border-blue-500 bg-blue-50 text-blue-800".

Definition whiteClass : jsstring :=
  codes "border-gray-200 bg-white text-gray-700 hover:border-blue-300 hover:bg-blue-50".

(** The [buttonClass] computed for the button of [letter] in the map over
    [Object.entries(currentMCQ.options)]; [None] when there is no current
    question (the render throws). *)
Definition buttonClass (st : State) (letter : jsstring) : option jsstring :=
  match currentMCQ st with
  | None => None
  | Some q =>
      let isSelected :=
        bool_decide (selectedAnswers st !! currentQuestion st = Some letter) in
      let isCorrect := bool_decide (letter = correctAnswer q) in
      let showResult := showCurrentExplanation st in
      Some (baseClass ++
            (if showResult then
               if isCorrect then greenClass
               else if isSelected && negb isCorrect then redClass
               else grayClass
             else if isSelected then blueClass
             else whiteClass))
  end.

(** [Object.keys(selectedAnswers).length], the count shown as
    "n of m answered". *)
Definition answeredCount (st : State) : nat := size (selectedAnswers st).

(** The events of a user after the component has mounted. *)
Definition isClick (e : Event) : bool :=
  match e with
  | Mount _ => false
  | _ => true
  end.

(** One answer per question, each followed by Next. *)
Definition answerAll (answers : list (list N)) : list Event :=
  flat_map (fun letter => [ClickOption letter; ClickNext]) answers.

(** Question [i] has a non-empty answer recorded. *)
Definition answered (st : State) (i : nat) : Prop :=
  exists a, selectedAnswers st !! i = Some a /\ a <> [].

(** What holds of a quiz in progress: it is loaded without error, the
    index is that of a question, answers are recorded for questions
    only, every question before the current one is answered, and the
    quiz is completed only on the last question, once it is answered. *)
Definition quizInvariant (st : State) : Prop :=
  loading st = false /\ error st = [] /\
  currentQuestion st < length (mcqData st) /\
  (forall i, is_Some (selectedAnswers st !! i) -> i < length (mcqData st)) /\
  (forall i, i < currentQuestion st -> answered st i) /\
  (quizCompleted st = true ->
   S (currentQuestion st) = length (mcqData st) /\
   answered st (currentQuestion st)).

(** The answers [handleAnswerSelect] records when the questions from
    index [k] on are answered in order with [answers]. *)
Fixpoint recordAll (k : nat) (answers : list (list N))
    (recorded : gmap nat (list N)) : gmap nat (list N) :=
  match answers with
  | [] => recorded
  | a :: answers' => recordAll (S k) answers' (<[k := a]> recorded)
  end.

(** The number of answers that are the correct answer of their
    question. *)
Fixpoint countCorrect (answers : list (list N)) (questions : list MCQQuestion)
    : nat :=
  match answers, questions with
  | a :: answers', q :: questions' =>
      (if decide (a = correctAnswer q) then 1 else 0)
      + countCorrect answers' questions'
  | _, _ => 0
  end.

End MCQQuiz.

(** * The quiz component with the built-in sample (second version of
      MCQQuiz.tsx)

    Its [parseMCQOutput] cuts the blocks and finds the option lines in
    another way; the record, the answer marker and the explanation are
    those of the first version. *)

Module SampleMCQQuiz.
Import MCQQuiz.

(** [s.split('\n')] *)
Fixpoint splitLines (s : jsstring) : list jsstring :=
  match s with
  | [] => [[]]
  | c :: s' =>
      if (c =? 10)%N then [] :: splitLines s'
      else
        match splitLines s' with
        | line :: lines => (c :: line) :: lines
        | [] => [[c]]
        end
  end.

(** [/(?=\d+\.\s)/g] *)
Definition questionSplitter : RegExp :=
  MkRegExp (Lookahead (Cat [Plus true digit; Lit "."; ws])) false.

(** [/^\d+\./] *)
Definition blockHead : RegExp :=
  MkRegExp (Cat [Bol; Plus true digit; Lit "."]) false.

(** [/^\([ABCD]\)/] *)
Definition optionHead : RegExp :=
  MkRegExp (Cat [Bol; Lit "("; Char isABCD; Lit ")"]) false.

(** [/^\(([ABCD])\)\s(.+)$/] *)
Definition optionLine : RegExp :=
  MkRegExp (Cat [Bol; Lit "("; Group 1 (Char isABCD); Lit ")"; ws;
                 Group 2 (Plus true (Char isDot)); Eol])
           false.

(** [block.split('\n').filter(line => line.trim().match(...))] *)
Definition optionLines (block : jsstring) : list jsstring :=
  List.filter (fun line => truthy (jsmatch (trim line) optionHead))
              (splitLines block).

(** The callback of [optionLines.forEach]: a line that matches writes
    [options[letter]]; [None] is the TypeError of a [trim] on
    [undefined]. *)
Definition optionLineStep (st : option (gmap (list N) (list N)))
    (line : jsstring) : option (gmap (list N) (list N)) :=
  match st with
  | None => None
  | Some opts =>
      match jsmatch (trim line) optionLine with
      | Some m =>
          match group m 1, group m 2 with
          | Some letter, Some text2 => Some (<[letter := trim text2]> opts)
          | _, _ => None
          end
      | None => Some opts
      end
  end.

(** The callback of [questionBlocks.forEach]. *)
Definition parseBlock (block : jsstring) (index : nat) : option MCQQuestion :=
  match jsmatch block questionRegex with
  | None => None
  | Some questionMatch =>
      match group questionMatch 1 with
      | None => None
      | Some g1 =>
          let question := trim g1 in
          if negb (length (optionLines block) =? 4) then None
          else
            match fold_left optionLineStep (optionLines block)
                    (Some emptyOptions) with
            | None => None
            | Some opts =>
                match jsmatch block correctAnswerRegex with
                | None => None
                | Some correctAnswerMatch =>
                    match group correctAnswerMatch 1 with
                    | None => None
                    | Some correctAnswer =>
                        let explanation :=
                          match jsmatch block explanationRegex with
                          | Some explanationMatch =>
                              match group explanationMatch 1 with
                              | Some t => Some (trim t)
                              | None => None
                              end
                          | None => Some []
                          end in
                        match explanation with
                        | None => None
                        | Some explanation =>
                            Some (MkMCQQuestion (index + 1) question opts
                                    correctAnswer explanation)
                        end
                    end
                end
            end
      end
  end.

(** [rawOutput.split(...).filter(block => block.trim() &&
    /^\d+\./.test(block.trim()))] *)
Definition questionBlocks (rawOutput : jsstring) : list jsstring :=
  List.filter (fun block =>
                 negb (length (trim block) =? 0)
                 && truthy (jsmatch (trim block) blockHead))
              (split rawOutput questionSplitter).

Definition parseMCQOutput (rawOutput : jsstring) : list MCQQuestion :=
  forEachPush parseBlock (questionBlocks rawOutput) 0 [].

(** *** Notions the statements about this extractor use *)

(** The text the option lines give a letter: the trimmed text of the last
    line that the full option pattern matches with this letter. *)
Fixpoint lastText (lines : list jsstring) (letter : jsstring)
    : option jsstring :=
  match lines with
  | [] => None
  | line :: lines' =>
      match lastText lines' letter with
      | Some t => Some t
      | None =>
          match jsmatch (trim line) optionLine with
          | Some m =>
              if decide (group m 1 = Some letter) then trim <$> group m 2
              else None
          | None => None
          end
      end
  end.

Definition optionText (block letter : jsstring) : jsstring :=
  default [] (lastText (optionLines block) letter).

End SampleMCQQuiz.
(** * What the extractor's patterns match, and the block grammar *)

(** The end of a line: nothing left, or a line terminator next. *)
Definition endsLine (tail : jsstring) : Prop :=
  match tail with
  | [] => True
  | c :: _ => isLineTerminator c = true
  end.

(** The captures of an option match whose parenthesis is at index [u] and
    whose text has [n] code units. *)
Definition optionCaptures (u n : nat) : gmap nat (nat * nat) :=
  <[2 := (u + 4, u + 4 + n)]> (<[1 := (u + 1, u + 2)]> ∅).

(** What the option pattern matches from index [p] of [s]: at the start
    of a line, white space, a parenthesised letter, one white space, and
    the rest of the line the text starts on. *)
Definition matchesOptionAt (s : jsstring) (p : nat) (y : mstate) : Prop :=
  atBol s true p = true /\
  exists sp L w t tail,
    drop p s = sp ++ 40%N :: L :: 41%N :: w :: t ++ tail /\
    Forall (fun c => isSpace c = true) sp /\
    isABCD L = true /\ isSpace w = true /\
    t <> [] /\ Forall (fun c => isDot c = true) t /\
    endsLine tail /\
    y = MState (p + length sp + 4 + length t)
               (optionCaptures (p + length sp) (length t)).

(** * The block grammar of the quiz text

    The text the quiz extractor is written for, as data: a numbered
    question in emphasis, option lines, an answer line.  [writeBlock]
    writes a block out; the statements about the extractor say what
    [parseMCQOutput] makes of such a text. *)

Module BlockGrammar.
Import MCQQuiz.

(** A white space that is not a line break. *)
Definition isBlank (c : N) : bool := isSpace c && negb (isLineTerminator c).

(** A code unit of a one-line text without asterisk. *)
Definition isPlain (c : N) : bool := isDot c && negb (c =? 42)%N.

(** [s.startsWith(pre)] *)
Fixpoint startsWith (pre s : jsstring) : bool :=
  match pre, s with
  | [], _ => true
  | a :: pre', c :: s' => (a =? c)%N && startsWith pre' s'
  | _ :: _, [] => false
  end.

(** An option line: indentation, the letter in parentheses, a space, the
    text. *)
Record OptionLine : Type := MkOptionLine {
  indent : jsstring;
  letter : N;
  text : jsstring
}.

(** The answer line: indentation, the marker with the letter, and what
    follows the marker, the explanation. *)
Record AnswerLine : Type := MkAnswerLine {
  answerIndent : jsstring;
  answerLetter : N;
  answerRest : jsstring
}.

(** A block: the number, the question, the option lines in their order,
    the answer line if there is one, and the white space that ends the
    block. *)
Record Block : Type := MkBlock {
  number : jsstring;
  prompt : jsstring;
  optionLines : list OptionLine;
  answerLine : option AnswerLine;
  trailer : jsstring
}.

Definition writeHead (b : Block) : jsstring :=
  number b ++ codes ". **" ++ prompt b ++ codes "**".

Definition writeOption (o : OptionLine) : jsstring :=
  indent o ++ codes "(" ++ [letter o] ++ codes ") " ++ text o.

Definition writeAnswer (a : AnswerLine) : jsstring :=
  answerIndent a ++ codes "**Correct Answer: (" ++ [answerLetter a]
  ++ codes ")**" ++ answerRest a.

(** The option lines, each on a line of its own. *)
Definition writeOptions (os : list OptionLine) : jsstring :=
  concat (map (fun o => nl ++ writeOption o) os).

Definition writeAnswerLine (a : option AnswerLine) : jsstring :=
  match a with
  | Some a => nl ++ writeAnswer a
  | None => []
  end.

Definition writeBlock (b : Block) : jsstring :=
  writeHead b ++ writeOptions (optionLines b)
  ++ writeAnswerLine (answerLine b) ++ trailer b.

(** A quiz text: the blocks, each starting on a line of its own. *)
Definition writeQuiz (bs : list Block) : jsstring :=
  join nl (map writeBlock bs).

(** What the grammar asks of the pieces: blanks for indentation, a letter
    from A to D, a one-line text without asterisk that is not empty. *)
Definition goodOption (o : OptionLine) : bool :=
  forallb isBlank (indent o) && isABCD (letter o)
  && negb (length (text o) =? 0) && forallb isPlain (text o).

Definition goodAnswer (a : AnswerLine) : bool :=
  forallb isBlank (answerIndent a) && isABCD (answerLetter a)
  && forallb isDot (answerRest a).

(** White space that starts with a line break, or nothing. *)
Definition goodTrailer (t : jsstring) : bool :=
  forallb isSpace t
  && match t with [] => true | c :: _ => isLineTerminator c end.

(** A block of the grammar: digits for the number; a one-line question
    without asterisk, not empty, that does not itself start as the answer
    marker does; good option lines, in any number and with any letters;
    a good answer line or none. *)
Definition goodBlock (b : Block) : bool :=
  negb (length (number b) =? 0) && forallb isDigit (number b)
  && negb (length (prompt b) =? 0) && forallb isPlain (prompt b)
  && negb (startsWith (codes "Correct Answer:") (prompt b))
  && forallb goodOption (optionLines b)
  && match answerLine b with Some a => goodAnswer a | None => true end
  && goodTrailer (trailer b).

(** The options object the option lines write, one after the other. *)
Definition writtenOptions (os : list OptionLine) : gmap (list N) (list N) :=
  fold_left (fun opts o => <[[letter o] := trim (text o)]> opts) os
            emptyOptions.

(** A block the extractor keeps: four option lines and an answer line. *)
Definition kept (b : Block) : bool :=
  (length (optionLines b) =? 4)
  && match answerLine b with Some _ => true | None => false end.

(** The record of a block offered at [index], if it is kept. *)
Definition recordOf (b : Block) (index : nat) : option MCQQuestion :=
  match answerLine b with
  | Some a =>
      if length (optionLines b) =? 4 then
        Some (MkMCQQuestion (index + 1) (trim (prompt b))
                (writtenOptions (optionLines b)) [answerLetter a]
                (trim (answerRest a)))
      else None
  | None => None
  end.

(** Well-formed as the specification words it: an answer marker, and
    option lines whose letters are exactly A, B, C and D, none twice and
    none missing. *)
Definition specWellFormed (b : Block) : Prop :=
  is_Some (answerLine b)
  /\ map letter (optionLines b) ≡ₚ [65; 66; 67; 68]%N.

End BlockGrammar.

(** * The flashcard component *)

Module FlashcardQuiz.

(** ** The flashcard extractor *)

(** [/(?=N)/g], where N is the pattern [numbered] *)
Definition flashcardSplitter : RegExp :=
  MkRegExp (Lookahead numbered) false.

(** [/^\d+\.\s\*\*/] *)
Definition blockHead : RegExp :=
  MkRegExp (Cat [Bol; numbered]) false.

(** [/^\d+\.\s\*\*(.+?)\*\*/] *)
Definition frontRegex : RegExp :=
  MkRegExp (Cat [Bol; numbered; Group 1 (Plus false (Char isDot)); Lit "**"])
           false.

(** [/\*\*Answer:\*\*\s*(.*?)(?=N|$)/s]: with the [s] flag the dot matches
    every code unit; without [m] the dollar is the end of the block. *)
Definition backRegex : RegExp :=
  MkRegExp (Cat [Lit "**Answer:**"; Star true ws;
                 Group 1 (Star false (Char isAny));
                 Lookahead (Alt numbered Eol)])
           false.

(** [/\*\*Category:\s*(.+?)\*\*/] *)
Definition categoryRegex : RegExp :=
  MkRegExp (Cat [Lit "**Category:"; Star true ws;
                 Group 1 (Plus false (Char isDot)); Lit "**"])
           false.

Record Flashcard : Type := MkFlashcard {
  id : nat;
  front : jsstring;
  back : jsstring;
  category : option jsstring
}.

(** An empty string is falsy. *)
Definition falsy (s : jsstring) : bool :=
  match s with [] => true | _ => false end.

(** The callback of [flashcardBlocks.forEach]: the card pushed for a
    block, or [None] when the callback returns (or throws) before the
    push. *)
Definition parseCard (block : jsstring) (index : nat) : option Flashcard :=
  match jsmatch block frontRegex with
  | None => None
  | Some frontMatch =>
      match group frontMatch 1 with
      | None => None
      | Some f1 =>
          let front := trim f1 in
          match jsmatch block backRegex with
          | None => None
          | Some backMatch =>
              match group backMatch 1 with
              | None => None
              | Some b1 =>
                  let back := trim b1 in
                  if falsy front || falsy back then None
                  else
                    let category :=
                      match jsmatch block categoryRegex with
                      | Some categoryMatch =>
                          match group categoryMatch 1 with
                          | Some c => Some (Some (trim c))
                          | None => None
                          end
                      | None => Some None
                      end in
                    match category with
                    | None => None
                    | Some category =>
                        Some (MkFlashcard (index + 1) front back category)
                    end
              end
          end
      end
  end.

(** [rawOutput.split(...).filter(block => block.trim().match(...))] *)
Definition flashcardBlocks (rawOutput : jsstring) : list jsstring :=
  List.filter (fun block => truthy (jsmatch (trim block) blockHead))
              (split rawOutput flashcardSplitter).

Definition parseFlashcardOutput (rawOutput : jsstring) : list Flashcard :=
  forEachPush parseCard (flashcardBlocks rawOutput) 0 [].

(** ** The study session: the component's state and its handlers *)

(** The [useState] cells of [FlashcardQuiz]. *)
Record State : Type := MkState {
  flashcardData : list Flashcard;
  currentCard : nat;
  isFlipped : bool;
  reviewedCards : gset nat;
  studyCompleted : bool;
  loading : bool;
  error : jsstring
}.

Definition initialState : State :=
  MkState [] 0 false ∅ false true [].

Definition noDataMessage : jsstring :=
  codes "No flashcard data found. Please generate flashcards first.".

Definition parseErrorMessage : jsstring :=
  codes "Could not parse flashcard data. Please try generating the flashcards again.".

(** The [useEffect] that loads the cards; [stored] is what
    [localStorage.getItem('flashcardData')] returns. *)
Definition loadCards (stored : option jsstring) (st : State) : State :=
  match stored with
  | None | Some [] =>
      MkState (flashcardData st) (currentCard st) (isFlipped st)
              (reviewedCards st) (studyCompleted st) false noDataMessage
  | Some storedFlashcardData =>
      let parsedData := parseFlashcardOutput storedFlashcardData in
      if length parsedData =? 0 then
        MkState (flashcardData st) (currentCard st) (isFlipped st)
                (reviewedCards st) (studyCompleted st) false parseErrorMessage
      else
        MkState parsedData (currentCard st) (isFlipped st)
                (reviewedCards st) (studyCompleted st) false (error st)
  end.

Definition handleFlip (st : State) : State :=
  MkState (flashcardData st) (currentCard st) (negb (isFlipped st))
          (if negb (isFlipped st) then reviewedCards st ∪ {[currentCard st]}
           else reviewedCards st)
          (studyCompleted st) (loading st) (error st).

Definition nextCard (st : State) : State :=
  if (Z.of_nat (currentCard st) <? Z.of_nat (length (flashcardData st)) - 1)%Z
  then MkState (flashcardData st) (currentCard st + 1) false
               (reviewedCards st) (studyCompleted st) (loading st) (error st)
  else MkState (flashcardData st) (currentCard st) (isFlipped st)
               (reviewedCards st) true (loading st) (error st).

Definition prevCard (st : State) : State :=
  if 0 <? currentCard st
  then MkState (flashcardData st) (currentCard st - 1) false
               (reviewedCards st) (studyCompleted st) (loading st) (error st)
  else st.

Definition resetStudy (st : State) : State :=
  MkState (flashcardData st) 0 false ∅ false (loading st) (error st).

(** The handlers a user can trigger, and a run of them. *)
Inductive Op : Type :=
| Flip
| Next
| Prev
| Reset.

Definition step (o : Op) (st : State) : State :=
  match o with
  | Flip => handleFlip st
  | Next => nextCard st
  | Prev => prevCard st
  | Reset => resetStudy st
  end.

Definition run (os : list Op) (st : State) : State :=
  fold_left (fun s o => step o s) os st.

(** The text on the back of the card,
    [currentFlashcard.back || 'No answer available']. *)
Definition backShown (c : Flashcard) : jsstring :=
  if falsy (back c) then codes "No answer available" else back c.

(** [reviewedCards.size], the count shown as "n of m reviewed". *)
Definition reviewedCount (st : State) : nat := size (reviewedCards st).

End FlashcardQuiz.

(** * The home page (frontend/app/page.tsx) *)

Module HomePage.

(** [/^(https?:\/\/)?(www\.)?(youtube\.com\/watch\?v=|youtu\.be\/)([\w-]+)/] *)
Definition youtubeRegex : RegExp :=
  MkRegExp
    (Cat [Bol;
          Opt (Group 1 (Cat [Lit "http"; Opt (Char (isChar "s")); Lit "://"]));
          Opt (Group 2 (Lit "www."));
          Group 3 (Alt (Lit "youtube.com/watch?v=") (Lit "youtu.be/"));
          Group 4 (Plus true (Char isWordOrHyphen))])
    false.

(** [youtubeRegex.test(url)] *)
Definition isValidYouTubeUrl (url : jsstring) : bool :=
  truthy (exec youtubeRegex url 0).

(** [!url.trim()] *)
Definition blank (url : jsstring) : bool :=
  match trim url with [] => true | _ => false end.

Inductive QuizType : Type :=
| mcq
| flashcard.

(** The [useState] cells of [HomePage]. *)
Record State : Type := MkState {
  url : jsstring;
  quizType : QuizType;
  isProcessing : bool;
  error : jsstring
}.

(** The request [handleSubmit] sends: the address fetched and the [url]
    field of the JSON body. *)
Record Request : Type := MkRequest {
  address : jsstring;
  bodyUrl : jsstring
}.

Definition emptyUrlMessage : jsstring := codes "Please enter a YouTube URL".

Definition invalidUrlMessage : jsstring :=
  codes "Please enter a valid YouTube URL".

(** [quizType === 'mcq' ? '/process-video' : '/process-video-flashcards'] *)
Definition endpoint (t : QuizType) : jsstring :=
  match t with
  | mcq => codes "/process-video"
  | flashcard => codes "/process-video-flashcards"
  end.

(** [handleSubmit] up to its [fetch]: the state it leaves and the request
    it sends, [None] when it returns before. *)
Definition handleSubmit (st : State) : State * option Request :=
  if blank (url st) then
    (MkState (url st) (quizType st) (isProcessing st) emptyUrlMessage, None)
  else if negb (isValidYouTubeUrl (url st)) then
    (MkState (url st) (quizType st) (isProcessing st) invalidUrlMessage, None)
  else
    (MkState (url st) (quizType st) true [],
     Some (MkRequest (codes "http://localhost:8000" ++ endpoint (quizType st))
                     (url st))).

(** The pieces of [youtubeRegex]. *)
Definition schemePart : regex :=
  Opt (Group 1 (Cat [Lit "http"; Opt (Char (isChar "s")); Lit "://"])).
Definition wwwPart : regex := Opt (Group 2 (Lit "www.")).
Definition hostPart : regex :=
  Group 3 (Alt (Lit "youtube.com/watch?v=") (Lit "youtu.be/")).
Definition idPart : regex := Group 4 (Plus true (Char isWordOrHyphen)).

(** The texts the pieces stand for. *)
Definition schemes : list jsstring := [[]; codes "http://"; codes "https://"].
Definition wwws : list jsstring := [[]; codes "www."].
Definition hosts : list jsstring :=
  [codes "youtube.com/watch?v="; codes "youtu.be/"].

(** An optional scheme, an optional [www.], one of the two hosts with its
    path, one code unit of a video id, then anything. *)
Definition validShape (url : jsstring) : Prop :=
  exists scheme www host c rest,
    scheme ∈ schemes /\ www ∈ wwws /\ host ∈ hosts /\
    isWordOrHyphen c = true /\
    url = scheme ++ www ++ host ++ c :: rest.


End HomePage.

(** * Concrete inputs *)

Module Examples.

(** One well-formed block. *)
Definition oneQuestion : jsstring := unlines [
  "1. **Which is right?**";
  "(A) first";
  "(B) second";
  "(C) third";
  "(D) fourth";
  "**Correct Answer: (C)** Because."]%string.

Definition oneQuestionRecord : MCQQuiz.MCQQuestion :=
  MCQQuiz.MkMCQQuestion 1 (codes "Which is right?")
    (<[codes "A" := codes "first"]> (<[codes "B" := codes "second"]>
      (<[codes "C" := codes "third"]> (<[codes "D" := codes "fourth"]> ∅))))
    (codes "C") (codes "Because.").

(** A block with four option lines, two of them for the letter A. *)
Definition duplicateLetter : jsstring := unlines [
  "1. **Pick one**";
  "(A) one";
  "(A) two";
  "(B) three";
  "(C) four";
  "**Correct Answer: (B)** Why."]%string.

(** A block whose option D has a blank text. *)
Definition blankOption : jsstring := unlines [
  "1. **Pick one**";
  "(A) one";
  "(B) two";
  "(C) three";
  "(D)  ";
  "**Correct Answer: (B)** Why."]%string.

(** A block with three option lines, then a well-formed one. *)
Definition tooFewBlock : jsstring := unlines [
  "1. **Too few**";
  "(A) one";
  "(B) two";
  "(C) three";
  "**Correct Answer: (A)** x"]%string.

Definition completeBlock : jsstring := unlines [
  "2. **Complete**";
  "(A) one";
  "(B) two";
  "(C) three";
  "(D) four";
  "**Correct Answer: (D)** y"]%string.

Definition threeThenFour : jsstring :=
  tooFewBlock ++ nl ++ completeBlock.

Definition completeRecord : MCQQuiz.MCQQuestion :=
  MCQQuiz.MkMCQQuestion 2 (codes "Complete")
    (<[codes "A" := codes "one"]> (<[codes "B" := codes "two"]>
      (<[codes "C" := codes "three"]> (<[codes "D" := codes "four"]> ∅))))
    (codes "D") (codes "y").

(** A quiz of forty questions whose correct answer is A, and a user who
    answers A to the first twenty-three and B to the others. *)
Definition fortyBlock : jsstring := unlines [
  "1. **Q**";
  "(A) a";
  "(B) b";
  "(C) c";
  "(D) d";
  "**Correct Answer: (A)**"]%string.

Definition fortyQuestions : jsstring := concat (replicate 40 (fortyBlock ++ nl)).

Definition fortyAnswers : list MCQQuiz.Event :=
  MCQQuiz.Mount (Some fortyQuestions)
  :: flat_map (fun i => [MCQQuiz.ClickOption
                           (if i <? 23 then codes "A" else codes "B");
                         MCQQuiz.ClickNext])
              (seq 0 40).

(** A block whose fourth option line has no white space after the
    letter. *)
Definition looseOption : jsstring := unlines [
  "1. **Q**";
  "(A) a";
  "(B) b";
  "(C) c";
  "(D)d";
  "**Correct Answer: (A)**"]%string.

(** A text without a block. *)
Definition noBlock : jsstring := codes "Sorry, no questions today.".

(** Three questions, the first one answered. *)
Definition threeQuestions : jsstring :=
  concat (replicate 3 (fortyBlock ++ nl)).

Definition threeLoaded : MCQQuiz.State :=
  MCQQuiz.loadQuiz (Some threeQuestions) MCQQuiz.initialState.

(** A card whose answer marker is followed by blanks only. *)
Definition emptyBack : jsstring := unlines [
  "1. **What is it?**";
  "**Answer:**   "]%string.

(** Three cards; the answer of the first one spans lines. *)
Definition threeCards : jsstring := unlines [
  "1. **What is X?** **Category: Basics**";
  "**Answer:** X is";
  "";
  "a thing.";
  "2. **What is Y?**";
  "**Answer:** Another thing.";
  "3. **What is Z?**";
  "**Answer:** The last thing."]%string.

Definition cardsLoaded : FlashcardQuiz.State :=
  FlashcardQuiz.loadCards (Some threeCards) FlashcardQuiz.initialState.

(** The clicks of [fortyAnswers], without the loading effect. *)
Definition fortyClicks : list MCQQuiz.Event :=
  flat_map (fun i => [MCQQuiz.ClickOption
                        (if i <? 23 then codes "A" else codes "B");
                      MCQQuiz.ClickNext])
           (seq 0 40).

End Examples.

Module GrammarExamples.
Import BlockGrammar.

Definition optionsABCD : list OptionLine :=
  [MkOptionLine [] 65 (codes "one"); MkOptionLine [] 66 (codes "two");
   MkOptionLine [] 67 (codes "three"); MkOptionLine [] 68 (codes "four")]%N.

(** The block of [Examples.duplicateLetter]: four option lines, two of
    them for the letter A. *)
Definition repeatedLetter : Block :=
  MkBlock (codes "1") (codes "Pick one")
    [MkOptionLine [] 65 (codes "one"); MkOptionLine [] 65 (codes "two");
     MkOptionLine [] 66 (codes "three"); MkOptionLine [] 67 (codes "four")]%N
    (Some (MkAnswerLine [] 66%N (codes " Why."))) [].

(** The blocks of [Examples.threeThenFour]. *)
Definition tooFew : Block :=
  MkBlock (codes "1") (codes "Too few")
    [MkOptionLine [] 65 (codes "one"); MkOptionLine [] 66 (codes "two");
     MkOptionLine [] 67 (codes "three")]%N
    (Some (MkAnswerLine [] 65%N (codes " x"))) [].

Definition complete : Block :=
  MkBlock (codes "2") (codes "Complete") optionsABCD
    (Some (MkAnswerLine [] 68%N (codes " y"))) [].

(** A block without answer line, and a complete block written with
    indentation and followed by a blank line. *)
Definition unanswered : Block :=
  MkBlock (codes "3") (codes "No answer") optionsABCD None [].

Definition indented : Block :=
  MkBlock (codes "12") (codes "Which one (of four)?")
    [MkOptionLine (codes "    ") 68 (codes "four");
     MkOptionLine (codes "    ") 67 (codes "three");
     MkOptionLine (codes "    ") 66 (codes "two (2)");
     MkOptionLine (codes "    ") 65 (codes "one")]%N
    (Some (MkAnswerLine (codes "    ") 67%N (codes "  Because: 3.  ")))
    nl.

Definition mixedQuiz : list Block :=
  [tooFew; indented; unanswered; repeatedLetter; complete].

End GrammarExamples.
(** * Facts about the matcher *)

Section MatcherFacts.
Variable input : jsstring.
Variable multiline : bool.

Local Abbreviation run := (rmatch input multiline).
Local Abbreviation sem := (sem input multiline).

Lemma orElse_Some {A} (a b : option A) (z : A) :
  orElse a b = Some z -> a = Some z \/ b = Some z.
Proof. destruct a; simpl; auto. Qed.

Lemma repeatMatcher_sound (m : cont -> cont) (R : relation mstate) :
  (forall k x z, m k x = Some z -> exists y, R x y /\ k y = Some z) ->
  forall fuel greedy k x z,
    repeatMatcher fuel greedy m k x = Some z ->
    exists y, rtc R x y /\ k y = Some z.
Proof.
  intros Hm fuel greedy k.
  induction fuel as [|fuel IH]; intros x z H; simpl in H.
  - exists x. split; [constructor | exact H].
  - assert (Hcases :
      m (fun y => if endIndex y =? endIndex x then None
                  else repeatMatcher fuel greedy m k y) x = Some z
      \/ k x = Some z).
    { destruct greedy; apply orElse_Some in H; tauto. }
    destruct Hcases as [Hagain | Hk].
    + apply Hm in Hagain as (y & Hxy & Hy).
      destruct (endIndex y =? endIndex x); [discriminate|].
      apply IH in Hy as (y' & Hyy' & Hk).
      exists y'. split; [|exact Hk].
      eapply rtc_l; eauto.
    + exists x. split; [constructor | exact Hk].
Qed.

(** Whatever the matcher returns, it got from its continuation at a state
    the pattern leads to. *)
Lemma rmatch_sound (r : regex) :
  forall k x z, run r k x = Some z ->
                exists y, sem r x y /\ k y = Some z.
Proof.
  induction r as [|p|r1 IH1 r2 IH2|r1 IH1 r2 IH2|g r1 IH1|n r1 IH1|r1 IH1| |];
    intros k x z H; cbn [rmatch] in H.
  - exists x. split; [reflexivity | exact H].
  - destruct (input !! endIndex x) as [c|] eqn:Hc; [|discriminate].
    destruct (p c) eqn:Hp; [|discriminate].
    eexists. split; [|exact H]. exists c. auto.
  - apply IH1 in H as (m & Hm & H). apply IH2 in H as (y & Hy & H).
    exists y. split; [|exact H]. exists m. auto.
  - apply orElse_Some in H as [H|H].
    + apply IH1 in H as (y & Hy & H). exists y. simpl. auto.
    + apply IH2 in H as (y & Hy & H). exists y. simpl. auto.
  - eapply repeatMatcher_sound in H; [exact H | exact IH1].
  - apply IH1 in H as (y & Hy & H). eexists. split; [|exact H].
    exists y. auto.
  - destruct (run r1 Some x) as [y|] eqn:Hy; [|discriminate].
    apply IH1 in Hy as (y' & Hy' & Heq). injection Heq as ->.
    eexists. split; [|exact H]. exists y. auto.
  - destruct (atBol input multiline (endIndex x)) eqn:Hb; [|discriminate].
    exists x. simpl. auto.
  - destruct (atEol input multiline (endIndex x)) eqn:Hb; [|discriminate].
    exists x. simpl. auto.
Qed.

(** A pattern only moves forward, by at least [minlen], and stays inside
    the input. *)
Lemma sem_bounds (r : regex) :
  forall x y, sem r x y -> endIndex x <= length input ->
              endIndex x + minlen r <= endIndex y <= length input.
Proof.
  induction r as [|p|r1 IH1 r2 IH2|r1 IH1 r2 IH2|g r1 IH1|n r1 IH1|r1 IH1| |];
    simpl; intros x y H Hx.
  - subst. lia.
  - destruct H as (c & Hc & _ & ->). simpl.
    apply lookup_lt_Some in Hc. lia.
  - destruct H as (m & H1 & H2).
    apply IH1 in H1; [|exact Hx]. apply IH2 in H2; lia.
  - destruct H as [H|H]; [apply IH1 in H | apply IH2 in H]; lia.
  - induction H as [x|x m y Hxm _ IH]; [lia|].
    apply IH1 in Hxm; [|exact Hx]. lia.
  - destruct H as (y' & H & ->). simpl. apply IH1 in H; lia.
  - destruct H as (y' & H & ->). simpl. lia.
  - destruct H as [_ ->]. lia.
  - destruct H as [_ ->]. lia.
Qed.

(** A pattern leaves the captures of the groups it does not hold. *)
Lemma sem_frame (n : nat) (r : regex) :
  hasGroup n r = false ->
  forall x y, sem r x y -> captures y !! n = captures x !! n.
Proof.
  induction r as [|p|r1 IH1 r2 IH2|r1 IH1 r2 IH2|g r1 IH1|n' r1 IH1|r1 IH1| |];
    simpl; intros Hn x y H.
  - by subst.
  - by destruct H as (c & _ & _ & ->).
  - apply orb_false_iff in Hn as [Hn1 Hn2].
    destruct H as (m & H1 & H2).
    rewrite (IH2 Hn2 _ _ H2). by apply IH1.
  - apply orb_false_iff in Hn as [Hn1 Hn2].
    destruct H as [H|H]; [by apply IH1 | by apply IH2].
  - induction H as [x|x m y Hxm _ IH]; [done|].
    rewrite IH. by apply IH1.
  - apply orb_false_iff in Hn as [Hn1 Hn2].
    destruct H as (y' & H & ->). simpl.
    apply Nat.eqb_neq in Hn1. rewrite lookup_insert_ne; [|done].
    by apply IH1.
  - destruct H as (y' & H & ->). simpl. by apply IH1.
  - by destruct H as [_ ->].
  - by destruct H as [_ ->].
Qed.

(** The matcher asks its continuation only about states that lie ahead,
    inside the input. *)
Lemma repeatMatcher_ext (m : cont -> cont) :
  (forall k1 k2 x, endIndex x <= length input ->
     (forall y, endIndex x <= endIndex y <= length input -> k1 y = k2 y) ->
     m k1 x = m k2 x) ->
  forall fuel greedy k1 k2 x, endIndex x <= length input ->
    (forall y, endIndex x <= endIndex y <= length input -> k1 y = k2 y) ->
    repeatMatcher fuel greedy m k1 x = repeatMatcher fuel greedy m k2 x.
Proof.
  intros Hm fuel greedy k1 k2.
  induction fuel as [|fuel IH]; intros x Hx Hk; simpl.
  - apply Hk. lia.
  - rewrite (Hk x) by lia.
    rewrite (Hm _ (fun y => if endIndex y =? endIndex x then None
                            else repeatMatcher fuel greedy m k2 y) x Hx);
      [reflexivity|].
    intros y Hy. destruct (endIndex y =? endIndex x); [reflexivity|].
    apply IH; [lia|]. intros y' Hy'. apply Hk. lia.
Qed.

Lemma rmatch_ext (r : regex) :
  forall k1 k2 x, endIndex x <= length input ->
    (forall y, endIndex x <= endIndex y <= length input -> k1 y = k2 y) ->
    run r k1 x = run r k2 x.
Proof.
  induction r as [|p|r1 IH1 r2 IH2|r1 IH1 r2 IH2|g r1 IH1|n r1 IH1|r1 IH1| |];
    intros k1 k2 x Hx Hk; cbn [rmatch].
  - apply Hk. lia.
  - destruct (input !! endIndex x) as [c|] eqn:Hc; [|reflexivity].
    destruct (p c); [|reflexivity].
    apply Hk. simpl. apply lookup_lt_Some in Hc. lia.
  - apply IH1; [exact Hx|]. intros y Hy.
    apply IH2; [lia|]. intros y' Hy'. apply Hk. lia.
  - rewrite (IH1 k1 k2 x Hx Hk), (IH2 k1 k2 x Hx Hk). reflexivity.
  - apply repeatMatcher_ext; assumption.
  - apply IH1; [exact Hx|]. intros y Hy. apply Hk. simpl. lia.
  - destruct (run r1 Some x); [|reflexivity]. apply Hk. simpl. lia.
  - destruct (atBol input multiline (endIndex x)); [|reflexivity].
    apply Hk. lia.
  - destruct (atEol input multiline (endIndex x)); [|reflexivity].
    apply Hk. lia.
Qed.

(** Every iteration consumes a code unit, so any number of iterations
    above the number of code units left gives the same result. *)
Lemma repeatMatcher_fuel (r : regex) (greedy : bool) (k : cont) :
  forall fuel1 fuel2 x,
    endIndex x <= length input ->
    length input - endIndex x < fuel1 ->
    length input - endIndex x < fuel2 ->
    repeatMatcher fuel1 greedy (run r) k x
    = repeatMatcher fuel2 greedy (run r) k x.
Proof.
  induction fuel1 as [|fuel1 IH]; intros fuel2 x Hx H1 H2; [lia|].
  destruct fuel2 as [|fuel2]; [lia|]. simpl.
  rewrite (rmatch_ext r _
             (fun y => if endIndex y =? endIndex x then None
                       else repeatMatcher fuel2 greedy (run r) k y) x Hx);
    [reflexivity|].
  intros y Hy. destruct (endIndex y =? endIndex x) eqn:E; [reflexivity|].
  apply Nat.eqb_neq in E. apply IH; lia.
Qed.

(** The unfolding of a repetition, as RepeatMatcher of ECMAScript has it:
    the bound on the iterations never cuts a match short. *)
Lemma rmatch_Star (greedy : bool) (r : regex) (k : cont) (x : mstate) :
  endIndex x <= length input ->
  run (Star greedy r) k x =
    let again :=
      run r (fun y => if endIndex y =? endIndex x then None
                         else run (Star greedy r) k y) x in
    if greedy then orElse again (k x) else orElse (k x) again.
Proof.
  intros Hx. cbn [rmatch repeatMatcher]. cbv zeta.
  rewrite (rmatch_ext r _
             (fun y => if endIndex y =? endIndex x then None
                       else run (Star greedy r) k y) x Hx);
    [reflexivity|].
  intros y Hy. destruct (endIndex y =? endIndex x) eqn:E; [reflexivity|].
  apply Nat.eqb_neq in E. cbn [rmatch].
  apply repeatMatcher_fuel; lia.
Qed.

Lemma matchAt_bounds (r : regex) (i : nat) (y : mstate) :
  matchAt input multiline r i = Some y -> i <= length input ->
  i + minlen r <= endIndex y <= length input.
Proof.
  unfold matchAt. intros H Hi.
  apply rmatch_sound in H as (y' & Hsem & [= ->]).
  apply sem_bounds in Hsem; simpl in *; lia.
Qed.

Lemma matchAt_sem (r : regex) (i : nat) (y : mstate) :
  matchAt input multiline r i = Some y -> sem r (MState i ∅) y.
Proof.
  unfold matchAt. intros H.
  by apply rmatch_sound in H as (y' & Hsem & [= ->]).
Qed.

(** Captures are never taken back. *)
Lemma sem_keeps (n : nat) (r : regex) :
  forall x y, sem r x y -> is_Some (captures x !! n) ->
              is_Some (captures y !! n).
Proof.
  induction r as [|p|r1 IH1 r2 IH2|r1 IH1 r2 IH2|g r1 IH1|n' r1 IH1|r1 IH1| |];
    simpl; intros x y H Hx.
  - by subst.
  - by destruct H as (c & _ & _ & ->).
  - destruct H as (m & H1 & H2). eauto.
  - destruct H as [H|H]; eauto.
  - induction H as [x|x m y Hxm _ IH]; eauto.
  - destruct H as (y' & H & ->). simpl.
    destruct (decide (n' = n)) as [->|Hne].
    + rewrite lookup_insert_eq. eauto.
    + rewrite lookup_insert_ne by done. eauto.
  - destruct H as (y' & H & ->). simpl. eauto.
  - by destruct H as [_ ->].
  - by destruct H as [_ ->].
Qed.

Lemma sem_sets (n : nat) (r : regex) :
  setsGroup n r = true ->
  forall x y, sem r x y -> is_Some (captures y !! n).
Proof.
  induction r as [|p|r1 IH1 r2 IH2|r1 IH1 r2 IH2|g r1 IH1|n' r1 IH1|r1 IH1| |];
    simpl; intros Hn x y H; try discriminate.
  - destruct H as (m & H1 & H2).
    apply orb_true_iff in Hn as [Hn|Hn]; [|by eapply IH2].
    eapply sem_keeps; [exact H2|]. by eapply IH1.
  - apply andb_true_iff in Hn as [Hn1 Hn2].
    destruct H as [H|H]; [by eapply IH1 | by eapply IH2].
  - destruct H as (y' & H & ->). simpl.
    destruct (decide (n' = n)) as [->|Hne].
    + rewrite lookup_insert_eq. eauto.
    + rewrite lookup_insert_ne by done.
      apply orb_true_iff in Hn as [Hn|Hn]; [|by eapply IH1].
      apply Nat.eqb_eq in Hn. congruence.
  - destruct H as (y' & H & ->). simpl. by eapply IH1.
Qed.

(** A group made of one code unit of a class, once matched, holds that
    code unit as long as the rest of the pattern has no group of the
    same number. *)
Lemma sem_group_char (n : nat) (p : N -> bool) (rest : regex) :
  hasGroup n rest = false ->
  forall x y, sem (Seq (Group n (Char p)) rest) x y ->
    exists c, input !! endIndex x = Some c /\ p c = true /\
              captures y !! n = Some (endIndex x, S (endIndex x)).
Proof.
  intros Hn x y (m & (y' & (c & Hc & Hp & ->) & ->) & Hrest). simpl in Hrest.
  exists c. repeat split; auto.
  rewrite (sem_frame n rest Hn _ _ Hrest). simpl.
  by rewrite lookup_insert_eq.
Qed.

Lemma search_Some (r : regex) :
  forall n i j y, search input multiline r n i = Some (j, y) ->
    i <= j <= i + n /\ matchAt input multiline r j = Some y.
Proof.
  induction n as [|n IH]; intros i j y H; simpl in H.
  - destruct (matchAt input multiline r i) eqn:E; [|discriminate].
    injection H as <- <-. split; [lia | exact E].
  - destruct (matchAt input multiline r i) eqn:E.
    + injection H as <- <-. split; [lia | exact E].
    + apply IH in H as [? ?]. split; [lia | assumption].
Qed.
End MatcherFacts.


(** ** Facts about [exec], [match], the matching loop and [split] *)

Lemma exec_Some (re : RegExp) (s : jsstring) (lastIndex : nat)
    (m : MatchResult) :
  exec re s lastIndex = Some m ->
  m_input m = s /\ lastIndex <= m_index m /\
  m_index m + minlen (pattern re) <= m_end m <= length s /\
  sem s (flag_m re) (pattern re) (MState (m_index m) ∅)
      (MState (m_end m) (m_captures m)).
Proof.
  unfold exec. destruct (length s <? lastIndex) eqn:E; [discriminate|].
  apply Nat.ltb_ge in E.
  destruct (search _ _ _ _ _) as [[i y]|] eqn:Hs; [|discriminate].
  intros [= <-]. simpl.
  apply search_Some in Hs as [Hi Hm].
  pose proof (matchAt_bounds _ _ _ _ _ Hm ltac:(lia)).
  apply matchAt_sem in Hm. destruct y. simpl in *.
  repeat split; auto; lia.
Qed.

Lemma exec_group (re : RegExp) (s : jsstring) (lastIndex n : nat)
    (m : MatchResult) :
  exec re s lastIndex = Some m -> setsGroup n (pattern re) = true ->
  is_Some (group m n).
Proof.
  intros H Hn. apply exec_Some in H as (_ & _ & _ & Hsem).
  apply (sem_sets _ _ n _ Hn) in Hsem as [[i j] Hij]. simpl in Hij.
  unfold group. rewrite Hij. eauto.
Qed.

(** A pattern that consumes at least one code unit matches at most
    [length s] times in a row: the bound of [execAll] is never reached. *)
Lemma execAll_fuel (re : RegExp) (s : jsstring) :
  0 < minlen (pattern re) ->
  forall fuel1 fuel2 lastIndex,
    length s - lastIndex < fuel1 -> length s - lastIndex < fuel2 ->
    execAll fuel1 re s lastIndex = execAll fuel2 re s lastIndex.
Proof.
  intros Hmin. induction fuel1 as [|fuel1 IH]; intros fuel2 i H1 H2; [lia|].
  destruct fuel2 as [|fuel2]; [lia|]. simpl.
  destruct (exec re s i) as [m|] eqn:Hm; [|reflexivity].
  f_equal. apply exec_Some in Hm as (_ & ? & ? & _).
  apply IH; lia.
Qed.

Lemma execAll_elem (re : RegExp) (s : jsstring) (m : MatchResult) :
  forall fuel lastIndex, m ∈ execAll fuel re s lastIndex ->
    exists i, exec re s i = Some m.
Proof.
  induction fuel as [|fuel IH]; intros i H; simpl in H.
  - by apply elem_of_nil in H.
  - destruct (exec re s i) as [m'|] eqn:Hm; [|by apply elem_of_nil in H].
    apply elem_of_cons in H as [->|H]; eauto.
Qed.

(** In the loop of [split] the index tried only grows and the piece start
    follows it: [2 * length s + 2] rounds are never used up. *)
Lemma splitLoop_fuel (re : RegExp) (s : jsstring) :
  forall fuel1 fuel2 p q,
    2 * (length s - q) + (if p =? q then 0 else 1) < fuel1 ->
    2 * (length s - q) + (if p =? q then 0 else 1) < fuel2 ->
    splitLoop fuel1 re s p q = splitLoop fuel2 re s p q.
Proof.
  induction fuel1 as [|fuel1 IH]; intros fuel2 p q H1 H2; [lia|].
  destruct fuel2 as [|fuel2]; [lia|]. simpl.
  destruct (q <? length s) eqn:Hq; [|reflexivity].
  apply Nat.ltb_lt in Hq.
  assert (Hstep : splitLoop fuel1 re s p (S q) = splitLoop fuel2 re s p (S q)).
  { apply IH; destruct (p =? q), (p =? S q); lia. }
  destruct (matchAt s (flag_m re) (pattern re) q) as [y|] eqn:Hm;
    [|exact Hstep].
  apply matchAt_bounds in Hm; [|lia].
  destruct (endIndex y `min` length s =? p) eqn:He; [exact Hstep|].
  apply Nat.eqb_neq in He. f_equal.
  apply IH; rewrite Nat.eqb_refl; destruct (p =? q) eqn:Hpq;
    try apply Nat.eqb_eq in Hpq; lia.
Qed.

(** * More about the helpers: literals, repetitions, [split], [trim] *)

Section PatternShapes.
Variable input : jsstring.
Variable multiline : bool.

Local Abbreviation sem := (sem input multiline).

(** A literal consumes its own code units and nothing else. *)
Lemma sem_Lit (s : string) :
  forall x y, sem (Lit s) x y ->
    drop (endIndex x) input = codes s ++ drop (endIndex y) input /\
    captures y = captures x.
Proof.
  induction s as [|a s IH]; intros x y H; simpl in H.
  - by subst.
  - destruct H as (m & (c & Hc & Hp & ->) & H).
    apply IH in H as [Hd Hcap]. simpl in Hd, Hcap.
    split; [|exact Hcap].
    rewrite (drop_S _ _ _ Hc). simpl. rewrite Hd.
    unfold isChar in Hp. apply N.eqb_eq in Hp. by subst.
Qed.

(** A repetition of a class consumes code units of the class. *)
Lemma sem_Star_Char (greedy : bool) (p : N -> bool) :
  forall x y, sem (Star greedy (Char p)) x y ->
    exists l, Forall (fun c => p c = true) l /\
              drop (endIndex x) input = l ++ drop (endIndex y) input /\
              captures y = captures x.
Proof.
  intros x y H. simpl in H.
  induction H as [x|x m y (c & Hc & Hp & ->) _ IH].
  - exists []. auto.
  - destruct IH as (l & Hl & Hd & Hcap). simpl in Hd, Hcap.
    exists (c :: l). split; [by constructor|]. split; [|exact Hcap].
    rewrite (drop_S _ _ _ Hc). simpl. by rewrite Hd.
Qed.

Lemma sem_Char (p : N -> bool) :
  forall x y, sem (Char p) x y ->
    exists c, p c = true /\
              drop (endIndex x) input = c :: drop (endIndex y) input /\
              captures y = captures x.
Proof.
  intros x y (c & Hc & Hp & ->). exists c. simpl.
  by rewrite (drop_S _ _ _ Hc).
Qed.

(** A pattern that starts with [^], without the [m] flag, matches at
    index 0 only. *)
Lemma sem_Bol_start (r : regex) (i : nat) (y : mstate) :
  multiline = false ->
  sem (Seq Bol r) (MState i ∅) y -> i = 0 /\ sem r (MState 0 ∅) y.
Proof.
  intros -> (m & [Hb ->] & H). unfold atBol in Hb. simpl in Hb.
  rewrite orb_false_r in Hb. apply Nat.eqb_eq in Hb. by subst.
Qed.
End PatternShapes.

Lemma splitLoop_nonempty (re : RegExp) (s : jsstring) :
  forall fuel p q, splitLoop fuel re s p q <> [].
Proof.
  induction fuel as [|fuel IH]; intros p q; simpl; [done|].
  destruct (q <? length s); [|done].
  destruct (matchAt _ _ _ _) as [y|]; [|apply IH].
  destruct (_ =? p); [apply IH | done].
Qed.

Lemma join_cons (sep piece : jsstring) (pieces : list jsstring) :
  pieces <> [] -> join sep (piece :: pieces) = piece ++ sep ++ join sep pieces.
Proof. by destruct pieces. Qed.

Lemma join_nil_concat (pieces : list jsstring) : join [] pieces = concat pieces.
Proof.
  induction pieces as [|p [|p' ps] IH]; [done| |].
  - simpl. by rewrite app_nil_r.
  - rewrite join_cons by done. simpl in *. by rewrite IH.
Qed.

(** When every match of the separator pattern is a copy of [sep], the
    pieces of [split] joined with [sep] are the string split. *)
Lemma splitLoop_join (re : RegExp) (s sep : jsstring) :
  (forall q y, matchAt s (flag_m re) (pattern re) q = Some y ->
               endIndex y = q + length sep /\
               drop q s = sep ++ drop (endIndex y) s) ->
  forall fuel p q, p <= q ->
    join sep (splitLoop fuel re s p q) = drop p s.
Proof.
  intros Hsep. induction fuel as [|fuel IH]; intros p q Hpq; simpl.
  - unfold substring. rewrite take_ge; [done|]. rewrite length_drop. lia.
  - destruct (q <? length s) eqn:Hq.
    + apply Nat.ltb_lt in Hq.
      destruct (matchAt s (flag_m re) (pattern re) q) as [y|] eqn:Hm;
        [|apply IH; lia].
      destruct (endIndex y `min` length s =? p) eqn:He; [apply IH; lia|].
      pose proof (matchAt_bounds _ _ _ _ _ Hm ltac:(lia)) as Hb.
      destruct (Hsep _ _ Hm) as [He' Hd].
      rewrite Nat.min_l by lia.
      rewrite join_cons by apply splitLoop_nonempty.
      rewrite IH by lia. rewrite <- Hd. unfold substring.
      rewrite <- (take_drop (q - p) (drop p s)) at 2.
      rewrite drop_drop. f_equal. f_equal. lia.
    + unfold substring. rewrite take_ge; [done|]. rewrite length_drop. lia.
Qed.

Lemma split_join (re : RegExp) (s sep : jsstring) :
  (forall q y, matchAt s (flag_m re) (pattern re) q = Some y ->
               endIndex y = q + length sep /\
               drop q s = sep ++ drop (endIndex y) s) ->
  join sep (split s re) = s.
Proof.
  intros Hsep. unfold split. destruct s as [|c s].
  - by destruct (matchAt _ _ _ _).
  - by rewrite (splitLoop_join _ _ sep Hsep).
Qed.

(** The pieces of [split] are made of code units of the string. *)
Lemma splitLoop_elem (re : RegExp) (s : jsstring) (c : N) :
  forall fuel p q piece,
    piece ∈ splitLoop fuel re s p q -> c ∈ piece -> c ∈ s.
Proof.
  assert (Hsub : forall i j, c ∈ substring s i j -> c ∈ s).
  { intros i j H. unfold substring in H.
    by apply subseteq_take, subseteq_drop in H. }
  induction fuel as [|fuel IH]; intros p q piece H Hc; simpl in H.
  - apply list_elem_of_singleton in H as ->. eauto.
  - destruct (q <? length s).
    + destruct (matchAt _ _ _ _) as [y|]; [|eauto].
      destruct (_ =? p); [eauto|].
      apply elem_of_cons in H as [->|H]; eauto.
    + apply list_elem_of_singleton in H as ->. eauto.
Qed.

Lemma split_elem (re : RegExp) (s piece : jsstring) (c : N) :
  piece ∈ split s re -> c ∈ piece -> c ∈ s.
Proof.
  unfold split. destruct s as [|c0 s].
  - destruct (matchAt _ _ _ _); [by intros ?%elem_of_nil|].
    by intros ->%list_elem_of_singleton.
  - apply splitLoop_elem.
Qed.

(** *** [trim] *)

Lemma trimStart_suffix (s : jsstring) : exists l, s = l ++ trimStart s.
Proof.
  induction s as [|c s [l IH]]; [by exists []|]. simpl.
  destruct (isSpace c); [|by exists []].
  exists (c :: l). simpl. by rewrite <- IH.
Qed.

Lemma trimStart_head (s : jsstring) :
  match trimStart s with
  | [] => True
  | c :: _ => isSpace c = false
  end.
Proof.
  induction s as [|c s IH]; [done|]. simpl.
  destruct (isSpace c) eqn:E; [exact IH | exact E].
Qed.

Lemma trimStart_id (s : jsstring) :
  match s with [] => True | c :: _ => isSpace c = false end ->
  trimStart s = s.
Proof. destruct s as [|c s]; [done|]. simpl. by intros ->. Qed.

Lemma trimStart_idemp (s : jsstring) : trimStart (trimStart s) = trimStart s.
Proof. apply trimStart_id, trimStart_head. Qed.

Lemma trimEnd_prefix (s : jsstring) : exists l, s = trimEnd s ++ l.
Proof.
  unfold trimEnd. destruct (trimStart_suffix (rev s)) as [l Hl].
  exists (rev l). rewrite <- rev_app_distr, <- Hl. by rewrite rev_involutive.
Qed.

(** Trimming a trimmed text changes nothing. *)
Lemma trim_idemp (s : jsstring) : trim (trim s) = trim s.
Proof.
  unfold trim.
  assert (H : trimStart (trimEnd (trimStart s)) = trimEnd (trimStart s)).
  { apply trimStart_id.
    destruct (trimEnd_prefix (trimStart s)) as [l Hl].
    pose proof (trimStart_head s) as Hh.
    destruct (trimEnd (trimStart s)) as [|c u]; [done|].
    rewrite Hl in Hh. exact Hh. }
  rewrite H. unfold trimEnd. by rewrite rev_involutive, trimStart_idemp.
Qed.

Lemma trim_elem (s : jsstring) (c : N) : c ∈ trim s -> c ∈ s.
Proof.
  unfold trim. intros H.
  destruct (trimEnd_prefix (trimStart s)) as [l Hl].
  destruct (trimStart_suffix s) as [l' Hl'].
  rewrite Hl', Hl. apply elem_of_app. right. apply elem_of_app. by left.
Qed.

(** A text that is not empty after trimming starts with a code unit that
    is no white space. *)
Lemma trim_head (s : jsstring) :
  match trim s with
  | [] => True
  | c :: _ => isSpace c = false
  end.
Proof.
  unfold trim. destruct (trimEnd_prefix (trimStart s)) as [l Hl].
  pose proof (trimStart_head s) as Hh.
  destruct (trimEnd (trimStart s)) as [|c u]; [done|].
  rewrite Hl in Hh. exact Hh.
Qed.

Section MatcherComplete.
Variable input : jsstring.
Variable multiline : bool.

Local Abbreviation run := (rmatch input multiline).
Local Abbreviation sem := (sem input multiline).

Lemma orElse_is_Some_l {A} (a b : option A) : is_Some a -> is_Some (orElse a b).
Proof. by intros [x ->]. Qed.

Lemma orElse_is_Some_r {A} (a b : option A) : is_Some b -> is_Some (orElse a b).
Proof. destruct a; simpl; eauto. Qed.

Lemma repeatMatcher_complete (m : cont -> cont) (R : relation mstate)
    (greedy : bool) (k : cont) :
  (forall k' x y, endIndex x <= length input -> R x y -> is_Some (k' y) ->
                  is_Some (m k' x)) ->
  (forall x y, R x y -> endIndex x <= length input ->
               endIndex x < endIndex y <= length input) ->
  forall x y, rtc R x y -> is_Some (k y) ->
    forall fuel, endIndex x <= length input ->
      length input - endIndex x < fuel ->
      is_Some (repeatMatcher fuel greedy m k x).
Proof.
  intros Hm Hgrow x y Hrtc Hk.
  induction Hrtc as [x|x z y Hxz _ IH]; intros fuel Hx Hfuel.
  - destruct fuel as [|fuel]; [lia|]. simpl.
    destruct greedy; [by apply orElse_is_Some_r | by apply orElse_is_Some_l].
  - destruct fuel as [|fuel]; [lia|]. simpl.
    pose proof (Hgrow _ _ Hxz Hx) as Hz.
    assert (Hagain : is_Some
      (m (fun y0 => if endIndex y0 =? endIndex x then None
                    else repeatMatcher fuel greedy m k y0) x)).
    { apply (Hm _ x z Hx Hxz).
      destruct (Nat.eqb_spec (endIndex z) (endIndex x)); [lia|].
      apply IH; [exact Hk | lia | lia]. }
    destruct greedy; [by apply orElse_is_Some_l | by apply orElse_is_Some_r].
Qed.

(** For a pattern without lookahead the matcher misses no match: when
    the pattern leads to a state its continuation accepts, the matcher
    succeeds. *)
Lemma rmatch_complete (r : regex) :
  plainPattern r = true ->
  forall k x y, endIndex x <= length input -> sem r x y -> is_Some (k y) ->
                is_Some (run r k x).
Proof.
  induction r as [|p|r1 IH1 r2 IH2|r1 IH1 r2 IH2|g r1 IH1|n r1 IH1|r1 IH1| |];
    intros Hplain k x y Hx H Hk; cbn [rmatch]; simpl in Hplain.
  - simpl in H. by subst.
  - destruct H as (c & Hc & Hp & ->). by rewrite Hc, Hp.
  - apply andb_true_iff in Hplain as [Hp1 Hp2].
    destruct H as (m & H1 & H2).
    apply (IH1 Hp1 _ x m Hx H1).
    apply (IH2 Hp2 _ m y); [|exact H2|exact Hk].
    apply sem_bounds in H1; [lia | exact Hx].
  - apply andb_true_iff in Hplain as [Hp1 Hp2].
    destruct H as [H|H].
    + apply orElse_is_Some_l. by apply (IH1 Hp1 _ x y).
    + apply orElse_is_Some_r. by apply (IH2 Hp2 _ x y).
  - apply andb_true_iff in Hplain as [Hp1 Hmin].
    apply Nat.ltb_lt in Hmin. simpl in H.
    apply (repeatMatcher_complete _ (sem r1) g k) with (y := y);
      [| |exact H|exact Hk|exact Hx|lia].
    + intros k' x' y' Hx' H' Hk'. by apply (IH1 Hp1 _ x' y').
    + intros x' y' H' Hx'. apply sem_bounds in H'; [lia | exact Hx'].
  - destruct H as (y' & H & ->). by apply (IH1 Hplain _ x y').
  - discriminate.
  - destruct H as [-> ->]. exact Hk.
  - destruct H as [-> ->]. exact Hk.
Qed.

(** A literal whose code units are there is matched. *)
Lemma sem_Lit_intro (s : string) :
  forall x tl, drop (endIndex x) input = codes s ++ tl ->
    sem (Lit s) x (MState (endIndex x + length (codes s)) (captures x)).
Proof.
  induction s as [|a s IH]; intros x tl H; simpl.
  - rewrite Nat.add_0_r. by destruct x.
  - simpl in H.
    assert (Hc : input !! endIndex x = Some (N_of_ascii a)).
    { rewrite <- (Nat.add_0_r (endIndex x)), <- lookup_drop, H. done. }
    eexists. split.
    + exists (N_of_ascii a). split; [exact Hc|]. split; [|reflexivity].
      unfold isChar. apply N.eqb_refl.
    + replace (endIndex x + S (length (codes s)))
        with (S (endIndex x) + length (codes s)) by lia.
      apply (IH (MState (S (endIndex x)) (captures x)) tl). simpl.
      rewrite (drop_S _ _ _ Hc) in H. by injection H.
Qed.
End MatcherComplete.

Lemma search_first (s : jsstring) (mm : bool) (r : regex) (n i : nat) :
  is_Some (matchAt s mm r i) -> is_Some (search s mm r n i).
Proof. intros [y Hy]. destruct n; simpl; rewrite Hy; eauto. Qed.

Lemma drop_step {A} (l pre tl : list A) (i : nat) :
  drop i l = pre ++ tl -> drop (i + length pre) l = tl.
Proof. intros H. by rewrite <- drop_drop, H, drop_app_length. Qed.

Lemma trimStart_nil (s : jsstring) :
  trimStart s = [] -> forall c, c ∈ s -> isSpace c = true.
Proof.
  induction s as [|a s IH]; intros H c Hc; [by apply elem_of_nil in Hc|].
  simpl in H. destruct (isSpace a) eqn:Ea; [|discriminate].
  apply elem_of_cons in Hc as [->|Hc]; [exact Ea | by apply IH].
Qed.

(** A text that trims to nothing holds white space only. *)
Lemma trim_nil (s : jsstring) :
  trim s = [] -> forall c, c ∈ s -> isSpace c = true.
Proof.
  unfold trim, trimEnd. intros H.
  assert (H' : trimStart (rev (trimStart s)) = []).
  { destruct (trimStart (rev (trimStart s))) as [|a l]; [done|].
    simpl in H. by destruct (rev l). }
  assert (Hs : trimStart s = []).
  { pose proof (trimStart_head s) as Hh.
    destruct (trimStart s) as [|a l] eqn:E; [done|].
    rewrite (trimStart_nil _ H' a) in Hh; [discriminate|].
    apply list_elem_of_In, (proj1 (in_rev _ _)). by left. }
  by apply trimStart_nil.
Qed.

Lemma word_not_space (c : N) : isWordOrHyphen c = true -> isSpace c = false.
Proof.
  unfold isWordOrHyphen, isWord, isSpace, isLineTerminator. intros H.
  repeat (apply orb_true_iff in H as [H|H]);
    repeat (apply andb_true_iff in H as [? ?]);
    repeat match goal with
           | H : (_ <=? _)%N = true |- _ => apply N.leb_le in H
           | H : (_ =? _)%N = true |- _ => apply N.eqb_eq in H
           end;
    repeat (apply orb_false_iff; split);
    repeat (apply andb_false_iff; rewrite ?N.leb_gt);
    rewrite ?N.eqb_neq; lia.
Qed.


(** * Facts about the helpers *)

Lemma substring_one (s : jsstring) (i : nat) (c : N) :
  s !! i = Some c -> substring s i (S i) = [c].
Proof.
  intros H. unfold substring. replace (S i - i) with 1 by lia.
  rewrite (drop_S _ _ _ H). reflexivity.
Qed.

Lemma isABCD_letter (c : N) :
  isABCD c = true ->
  [c] = codes "A" \/ [c] = codes "B" \/ [c] = codes "C" \/ [c] = codes "D".
Proof.
  unfold isABCD. intros H. apply andb_true_iff in H as [H1 H2].
  apply N.leb_le in H1, H2.
  assert (c = 65 \/ c = 66 \/ c = 67 \/ c = 68)%N as [->|[->|[->| ->]]] by lia;
    simpl; auto.
Qed.

Section ForEach.
Context {A B : Type}.
Variable f : A -> nat -> option B.

Lemma indexed_cons (x : A) (l : list A) (index : nat) :
  indexed (x :: l) index = (index, x) :: indexed l (S index).
Proof. reflexivity. Qed.

(** The array a [forEach] with early returns builds holds, in order, one
    record for each item the callback does not give up on. *)
Lemma forEachPush_omap (l : list A) :
  forall index acc,
    forEachPush f l index acc = acc ++ omap (callAt f) (indexed l index).
Proof.
  induction l as [|x l IH]; intros index acc; cbn [forEachPush].
  - by rewrite app_nil_r.
  - rewrite IH, indexed_cons. cbn [omap list_omap]. unfold callAt at 2. simpl.
    destruct (f x index); [by rewrite <- app_assoc | done].
Qed.

Lemma indexed_lookup (l : list A) (index i : nat) (x : A) :
  l !! i = Some x -> indexed l index !! i = Some (index + i, x).
Proof.
  revert index i. induction l as [|y l IH]; intros index [|i] H;
    try discriminate.
  - injection H as ->. rewrite indexed_cons. simpl. f_equal. f_equal. lia.
  - rewrite indexed_cons. simpl. rewrite (IH (S index) i H).
    f_equal. f_equal. lia.
Qed.

Lemma indexed_app (l1 l2 : list A) (index : nat) :
  indexed (l1 ++ l2) index
  = indexed l1 index ++ indexed l2 (index + length l1).
Proof.
  revert index. induction l1 as [|x l1 IH]; intros index.
  - simpl. by rewrite Nat.add_0_r.
  - rewrite <- app_comm_cons, !indexed_cons, IH. simpl.
    by rewrite Nat.add_succ_r.
Qed.

Lemma indexed_length (l : list A) (index : nat) :
  length (indexed l index) = length l.
Proof.
  unfold indexed. rewrite length_zip_with, length_seq. lia.
Qed.

Lemma indexed_lookup_inv (l : list A) (index i j : nat) (x : A) :
  indexed l index !! i = Some (j, x) -> j = index + i /\ l !! i = Some x.
Proof.
  revert index i. induction l as [|y l IH]; intros index [|i] H;
    try discriminate.
  - rewrite indexed_cons in H. injection H as <- <-. auto with lia.
  - rewrite indexed_cons in H. apply IH in H as [-> H]. auto with lia.
Qed.

Lemma indexed_take (l : list A) (index n : nat) :
  take n (indexed l index) = indexed (take n l) index.
Proof.
  revert index n. induction l as [|y l IH]; intros index [|n]; try done.
  rewrite indexed_cons. simpl. rewrite indexed_cons. by rewrite IH.
Qed.

(** The records kept, against the items a test [ok] says the callback
    keeps: as many, in the same order. *)
Lemma omap_indexed_filter (ok : A -> bool) (l : list A) :
  (forall x i, truthy (f x i) = ok x) ->
  forall index,
    Forall2 (fun b x => exists i, f x i = Some b)
            (omap (callAt f) (indexed l index)) (List.filter ok l).
Proof.
  intros Hok. induction l as [|x l IH]; intros index; [constructor|].
  rewrite indexed_cons. cbn [omap list_omap List.filter].
  unfold callAt at 1. simpl. specialize (Hok x index).
  destruct (f x index) as [b|] eqn:Hx; simpl in Hok; rewrite <- Hok.
  - constructor; eauto.
  - apply IH.
Qed.
End ForEach.

(** Where the [j]-th record kept by [omap] comes from. *)
Lemma omap_lookup_inv {A B} (g : A -> option B) (l : list A) :
  forall j b, omap g l !! j = Some b ->
    exists i x, l !! i = Some x /\ g x = Some b /\
                j = length (omap g (take i l)).
Proof.
  induction l as [|x l IH]; intros j b H; [discriminate|].
  cbn [omap list_omap] in H. destruct (g x) as [b'|] eqn:Hx.
  - destruct j as [|j].
    + injection H as ->. exists 0, x. auto.
    + apply IH in H as (i & x' & Hi & Hg & ->).
      exists (S i), x'. repeat split; auto.
      simpl. cbn [omap list_omap]. by rewrite Hx.
  - apply IH in H as (i & x' & Hi & Hg & ->).
    exists (S i), x'. repeat split; auto.
    simpl. cbn [omap list_omap]. by rewrite Hx.
Qed.

Lemma omap_length_le {A B} (g : A -> option B) (l : list A) :
  length (omap g l) <= length l.
Proof.
  induction l as [|x l IH]; [done|].
  cbn [omap list_omap]. destruct (g x); simpl; lia.
Qed.

Lemma omap_length_lt {A B} (g : A -> option B) (l : list A) (x : A) :
  x ∈ l -> g x = None -> length (omap g l) < length l.
Proof.
  induction 1 as [x l|x y l Hin IH]; intros Hx; cbn [omap list_omap].
  - rewrite Hx. pose proof (omap_length_le g l). simpl. lia.
  - specialize (IH Hx). destruct (g y); simpl; lia.
Qed.

(** Where the [j]-th record of a [forEach] with early returns comes
    from. *)
Lemma forEachPush_lookup {A B} (f : A -> nat -> option B) (l : list A)
    (j : nat) (b : B) :
  forEachPush f l 0 [] !! j = Some b ->
  exists index x,
    l !! index = Some x /\ f x index = Some b /\
    j = length (forEachPush f (take index l) 0 []) /\
    j <= index /\
    (forall i y, i < index -> l !! i = Some y -> f y i = None -> j < index).
Proof.
  rewrite forEachPush_omap. intros H.
  apply omap_lookup_inv in H as (i & [index x] & Hi & Hp & Hj).
  apply indexed_lookup_inv in Hi as [-> Hi]. simpl in Hi.
  unfold callAt in Hp. simpl in Hp.
  exists i, x. rewrite forEachPush_omap, <- indexed_take. simpl.
  pose proof (lookup_lt_Some _ _ _ Hi) as Hlt.
  assert (Hlen : length (take i (indexed l 0)) = i).
  { rewrite length_take, indexed_length. lia. }
  pose proof (omap_length_le (callAt f) (take i (indexed l 0))) as Hle.
  repeat split; auto; try lia.
  intros i' y Hi' Hy Hnone.
  pose proof (omap_length_lt (callAt f) (take i (indexed l 0)) (i', y)) as Hlt'.
  rewrite Hlen in Hlt'. rewrite Hj. apply Hlt'; [|exact Hnone].
  apply list_elem_of_lookup. exists i'.
  rewrite lookup_take_lt by lia.
  by rewrite (indexed_lookup _ 0 _ _ Hy).
Qed.

Lemma forEachPush_elem {A B} (f : A -> nat -> option B) (l : list A) (b : B) :
  b ∈ forEachPush f l 0 [] ->
  exists index x, x ∈ l /\ f x index = Some b.
Proof.
  intros H. apply list_elem_of_lookup in H as [j H].
  apply forEachPush_lookup in H as (index & x & Hx & Hf & _).
  exists index, x. split; [|exact Hf]. by eapply list_elem_of_lookup_2.
Qed.

Lemma omap_length_filter {A B} (g : A -> option B) (l : list A) :
  length (omap g l) = length (List.filter (fun x => truthy (g x)) l).
Proof.
  induction l as [|x l IH]; [done|].
  cbn [omap list_omap List.filter]. destruct (g x); simpl; lia.
Qed.

(** * The quiz extractor on texts of the block grammar *)

Section BlockGrammarFacts.
Import MCQQuiz BlockGrammar.

(** ** Searching for a match *)

Lemma exec_at (re : RegExp) (s : jsstring) (i : nat) (y : mstate) :
  matchAt s (flag_m re) (pattern re) i = Some y -> i <= length s ->
  exec re s i = Some (MkMatch s i (endIndex y) (captures y)).
Proof.
  unfold exec. intros H Hi.
  destruct (Nat.ltb_spec (length s) i); [lia|].
  destruct (length s - i); simpl; by rewrite H.
Qed.

Lemma exec_skip (re : RegExp) (s : jsstring) (i : nat) :
  matchAt s (flag_m re) (pattern re) i = None -> i < length s ->
  exec re s i = exec re s (S i).
Proof.
  unfold exec. intros H Hi.
  destruct (Nat.ltb_spec (length s) i); [lia|].
  destruct (Nat.ltb_spec (length s) (S i)); [lia|].
  replace (length s - i) with (S (length s - S i)) by lia.
  simpl. by rewrite H.
Qed.

Lemma exec_end (re : RegExp) (s : jsstring) (i : nat) :
  matchAt s (flag_m re) (pattern re) i = None -> length s <= i ->
  exec re s i = None.
Proof.
  unfold exec. intros H Hi.
  destruct (Nat.ltb_spec (length s) i); [done|].
  replace (length s - i) with 0 by lia. simpl. by rewrite H.
Qed.

(** A search skips the indices where the pattern does not match. *)
Lemma exec_skip_to (re : RegExp) (s : jsstring) (j : nat) :
  j <= length s ->
  forall n i, i + n = j ->
    (forall q, i <= q < j -> matchAt s (flag_m re) (pattern re) q = None) ->
    exec re s i = exec re s j.
Proof.
  intros Hj. induction n as [|n IH]; intros i Hi Hnone.
  - by replace i with j by lia.
  - rewrite exec_skip; [|apply Hnone; lia|lia].
    apply IH; [lia|]. intros q Hq. apply Hnone. lia.
Qed.

Lemma exec_none_from (re : RegExp) (s : jsstring) (i : nat) :
  (forall q, i <= q -> matchAt s (flag_m re) (pattern re) q = None) ->
  exec re s i = None.
Proof.
  intros Hnone. destruct (le_lt_dec (length s) i) as [Hi|Hi].
  - apply exec_end; [apply Hnone; lia | exact Hi].
  - rewrite (exec_skip_to re s (length s) (le_n _) (length s - i) i);
      [|lia|intros q Hq; apply Hnone; lia].
    apply exec_end; [apply Hnone; lia | lia].
Qed.

Lemma execAll_same_exec (re : RegExp) (s : jsstring) (i j : nat) :
  exec re s i = exec re s j ->
  forall fuel, execAll fuel re s i = execAll fuel re s j.
Proof. intros H [|fuel]; simpl; [done|]. by rewrite H. Qed.

Section States.
Variable input : jsstring.
Variable multiline : bool.
Local Abbreviation matches := (sem input multiline).

Lemma sem_Lit_state (lit : string) :
  forall x y, matches (Lit lit) x y ->
    drop (endIndex x) input = codes lit ++ drop (endIndex y) input /\
    endIndex y = endIndex x + length (codes lit) /\
    captures y = captures x.
Proof.
  induction lit as [|a lit IH]; intros x y H; simpl in H.
  - subst. simpl. by rewrite Nat.add_0_r.
  - destruct H as (m & (c & Hc & Hp & ->) & H).
    apply IH in H as (Hd & He & Hcap). simpl in *.
    split; [|split; [lia|exact Hcap]].
    rewrite (drop_S _ _ _ Hc). rewrite Hd.
    unfold isChar in Hp. apply N.eqb_eq in Hp. by subst.
Qed.

Lemma sem_Star_Char_state (greedy : bool) (p : N -> bool) :
  forall x y, matches (Star greedy (Char p)) x y ->
    exists l, Forall (fun c => p c = true) l /\
              drop (endIndex x) input = l ++ drop (endIndex y) input /\
              endIndex y = endIndex x + length l /\
              captures y = captures x.
Proof.
  intros x y H. simpl in H.
  induction H as [x|x m y (c & Hc & Hp & ->) _ IH].
  - exists []. simpl. by rewrite Nat.add_0_r.
  - destruct IH as (l & Hl & Hd & He & Hcap). simpl in *.
    exists (c :: l). split; [by constructor|]. split; [|split; [simpl; lia|done]].
    rewrite (drop_S _ _ _ Hc). by rewrite Hd.
Qed.

Lemma sem_Char_state (p : N -> bool) :
  forall x y, matches (Char p) x y ->
    exists c, p c = true /\
              drop (endIndex x) input = c :: drop (endIndex y) input /\
              endIndex y = S (endIndex x) /\
              captures y = captures x.
Proof.
  intros x y (c & Hc & Hp & ->). exists c. simpl.
  by rewrite (drop_S _ _ _ Hc).
Qed.

Lemma sem_Group_state (n : nat) (r : regex) :
  forall x y, matches (Group n r) x y ->
    exists y', matches r x y' /\ endIndex y = endIndex y' /\
               captures y = <[n := (endIndex x, endIndex y')]> (captures y').
Proof. intros x y (y' & H & ->). by exists y'. Qed.

Lemma sem_Star_Char_intro (greedy : bool) (p : N -> bool) (l : jsstring) :
  forall x tl, Forall (fun c => p c = true) l ->
    drop (endIndex x) input = l ++ tl ->
    matches (Star greedy (Char p)) x
            (MState (endIndex x + length l) (captures x)).
Proof.
  induction l as [|c l IH]; intros x tl Hl Hd; simpl.
  - rewrite Nat.add_0_r. destruct x. apply rtc_refl.
  - apply Forall_cons in Hl as [Hc Hl].
    assert (Hx : input !! endIndex x = Some c).
    { rewrite <- (Nat.add_0_r (endIndex x)), <- lookup_drop. by rewrite Hd. }
    eapply rtc_l.
    + exists c. split; [exact Hx|]. split; [exact Hc|reflexivity].
    + replace (endIndex x + S (length l))
        with (S (endIndex x) + length l) by lia.
      apply (IH (MState (S (endIndex x)) (captures x)) tl Hl). simpl.
      rewrite (drop_S _ _ _ Hx) in Hd. by injection Hd.
Qed.

Lemma sem_Char_intro (p : N -> bool) (c : N) (x : mstate) (tl : jsstring) :
  p c = true -> drop (endIndex x) input = c :: tl ->
  matches (Char p) x (MState (S (endIndex x)) (captures x)).
Proof.
  intros Hp Hd. exists c. split; [|by split].
  rewrite <- (Nat.add_0_r (endIndex x)), <- lookup_drop. by rewrite Hd.
Qed.

Lemma mstate_eq (y : mstate) (e : nat) (c : gmap nat (nat * nat)) :
  endIndex y = e -> captures y = c -> y = MState e c.
Proof. destruct y. simpl. by intros -> ->. Qed.

Lemma sem_Lit_to (lit : string) (x y : mstate) (tl : jsstring) :
  drop (endIndex x) input = codes lit ++ tl ->
  endIndex y = endIndex x + length (codes lit) ->
  captures y = captures x ->
  matches (Lit lit) x y.
Proof.
  intros Hd He Hc. rewrite (mstate_eq y _ _ He Hc).
  by apply (sem_Lit_intro input multiline lit x tl).
Qed.

Lemma sem_Star_Char_to (greedy : bool) (p : N -> bool) (l : jsstring)
    (x y : mstate) (tl : jsstring) :
  Forall (fun c => p c = true) l ->
  drop (endIndex x) input = l ++ tl ->
  endIndex y = endIndex x + length l ->
  captures y = captures x ->
  matches (Star greedy (Char p)) x y.
Proof.
  intros Hl Hd He Hc. rewrite (mstate_eq y _ _ He Hc).
  by apply (sem_Star_Char_intro greedy p l x tl).
Qed.

Lemma sem_Char_to (p : N -> bool) (c : N) (x y : mstate) (tl : jsstring) :
  p c = true -> drop (endIndex x) input = c :: tl ->
  endIndex y = S (endIndex x) ->
  captures y = captures x ->
  matches (Char p) x y.
Proof.
  intros Hp Hd He Hc. rewrite (mstate_eq y _ _ He Hc).
  by apply (sem_Char_intro p c x tl).
Qed.

(** A pattern matches at an index exactly when its reading allows it. *)
Lemma matchAt_is_Some (r : regex) (i : nat) :
  plainPattern r = true -> i <= length input ->
  is_Some (matchAt input multiline r i)
  <-> exists y, matches r (MState i ∅) y.
Proof.
  intros Hp Hi. split.
  - intros [y Hy]. exists y. by apply matchAt_sem.
  - intros [y Hy]. unfold matchAt.
    apply (rmatch_complete input multiline r Hp Some (MState i ∅) y);
      [exact Hi | exact Hy | eauto].
Qed.
End States.

Lemma drop_S_tail {A} (l : list A) (i : nat) (c : A) (tl : list A) :
  drop i l = c :: tl -> drop (S i) l = tl.
Proof.
  intros H. replace (S i) with (i + 1) by lia.
  by rewrite <- drop_drop, H.
Qed.

Lemma drop_length_le {A} (l : list A) (i : nat) (c : A) (tl : list A) :
  drop i l = c :: tl -> i < length l.
Proof.
  intros H. destruct (le_lt_dec (length l) i) as [Hi|Hi]; [|done].
  by rewrite drop_ge in H.
Qed.

(** Two ways of cutting a text into a run of [P] and a rest that does not
    start with [P] are the same. *)
Lemma span_unique {A} (P : A -> bool) (a b c d : list A) :
  Forall (fun x => P x = true) a -> Forall (fun x => P x = true) b ->
  match c with [] => True | x :: _ => P x = false end ->
  match d with [] => True | x :: _ => P x = false end ->
  a ++ c = b ++ d -> a = b /\ c = d.
Proof.
  revert b. induction a as [|x a IH]; intros b Ha Hb Hc Hd H.
  - destruct b as [|x' b]; [done|]. simpl in H. subst c.
    apply Forall_cons in Hb as [Hx _]. congruence.
  - apply Forall_cons in Ha as [Hx Ha].
    destruct b as [|x' b].
    + simpl in H. subst d. congruence.
    + apply Forall_cons in Hb as [_ Hb]. injection H as -> H.
      destruct (IH b Ha Hb Hc Hd H) as [-> ->]. done.
Qed.

Lemma endsLine_isDot (tail : jsstring) :
  endsLine tail -> match tail with [] => True | x :: _ => isDot x = false end.
Proof. destruct tail as [|c tail]; [done|]. unfold isDot. simpl. by intros ->. Qed.

Lemma optionRegex_parts :
  pattern optionRegex
  = Seq Bol (Seq (Star true ws) (Seq (Lit "(") (Seq (Group 1 (Char isABCD))
      (Seq (Lit ")") (Seq ws (Seq (Group 2 (Plus true (Char isDot)))
        (Seq Eol Empty))))))).
Proof. reflexivity. Qed.

Lemma lookup_head_drop {A} (l : list A) (i : nat) :
  l !! i = match drop i l with [] => None | c :: _ => Some c end.
Proof.
  rewrite <- (Nat.add_0_r i) at 1. rewrite <- lookup_drop.
  by destruct (drop i l).
Qed.

Lemma atEol_endsLine (s : jsstring) (e : nat) :
  e <= length s -> atEol s true e = true <-> endsLine (drop e s).
Proof.
  intros He. unfold atEol. rewrite lookup_head_drop. simpl.
  destruct (drop e s) as [|c tl] eqn:Hd; simpl.
  - apply drop_nil_inv in Hd.
    replace (e =? length s) with true; [done|].
    symmetry. apply Nat.eqb_eq. lia.
  - apply drop_length_le in Hd.
    replace (e =? length s) with false; [done|].
    symmetry. apply Nat.eqb_neq. lia.
Qed.

Lemma drop_app_index {A} (l a tl : list A) (i : nat) :
  i <= length l -> drop i l = a ++ tl ->
  drop (i + length a) l = tl /\ i + length a <= length l.
Proof.
  intros Hi H. split; [by apply (drop_step l a tl)|].
  assert (Hl : length (drop i l) = length a + length tl)
    by (by rewrite H, length_app).
  rewrite length_drop in Hl. lia.
Qed.

Lemma drop_middle_lt {A} (l a tl : list A) (c : A) (i : nat) :
  drop i l = a ++ c :: tl -> i < length l.
Proof.
  intros H. destruct (le_lt_dec (length l) i) as [Hi|Hi]; [|done].
  rewrite drop_ge in H by done. by destruct a.
Qed.

Section OptionPattern.
Variable s : jsstring.
Local Abbreviation matches := (sem s true).

Lemma optionRegex_sound (p : nat) (y : mstate) :
  matches (pattern optionRegex) (MState p ∅) y -> matchesOptionAt s p y.
Proof.
  rewrite optionRegex_parts.
  intros (x1 & [Hbol ->] & x2 & Hsp & x3 & Hl1 & x4 & H4 & x5 & Hl2
          & x6 & H6 & x7 & H7 & x8 & [Heol ->] & ->).
  apply sem_Star_Char_state in Hsp as (sp & Hsp & Hd2 & He2 & Hc2).
  apply sem_Lit_state in Hl1 as (Hd3 & He3 & Hc3).
  apply sem_Group_state in H4 as (y4 & H4 & He4 & Hc4).
  apply sem_Char_state in H4 as (L & HLp & Hd4 & He4' & Hc4').
  apply sem_Lit_state in Hl2 as (Hd5 & He5 & Hc5).
  apply sem_Char_state in H6 as (w & Hwp & Hd6 & He6 & Hc6).
  apply sem_Group_state in H7 as (y7 & (m7 & H7 & Hstar) & He7 & Hc7).
  apply sem_Char_state in H7 as (c & Hcp & Hd7 & He7' & Hc7').
  apply sem_Star_Char_state in Hstar as (t & Ht & Hd8 & He8 & Hc8).
  change (codes "(") with [40%N] in *. change (codes ")") with [41%N] in *.
  cbn [endIndex captures length app] in *.
  split; [exact Hbol|].
  exists sp, L, w, (c :: t), (drop (endIndex x7) s).
  split.
  { rewrite Hd2, Hd3, Hd4, <- He4, Hd5, Hd6, Hd7, Hd8, <- He7.
    reflexivity. }
  split; [exact Hsp|]. split; [exact HLp|]. split; [exact Hwp|].
  split; [done|]. split; [by constructor|]. split.
  { apply atEol_endsLine; [|exact Heol].
    assert (Hb : endIndex m7 <= length s).
    { pose proof (drop_length_le _ _ _ _ Hd7). lia. }
    pose proof (f_equal length Hd8) as Hlen.
    rewrite length_app, !length_drop in Hlen. lia. }
  destruct x7 as [e7 c7]. cbn [endIndex captures length] in *. subst c7.
  unfold optionCaptures. f_equal; [lia|].
  rewrite Hc8, Hc7', Hc6, Hc5, Hc4, Hc4', Hc3, Hc2.
  f_equal; [f_equal; lia|]. f_equal. f_equal; lia.
Qed.

Lemma optionRegex_complete (p : nat) (y : mstate) :
  matchesOptionAt s p y -> matches (pattern optionRegex) (MState p ∅) y.
Proof.
  intros (Hbol & sp & L & w & t & tail & Hd & Hsp & HL & Hw & Hne & Ht
          & Hend & ->).
  rewrite optionRegex_parts.
  destruct t as [|c t]; [done|]. apply Forall_cons in Ht as [Hc Ht].
  pose proof (drop_middle_lt _ _ _ _ _ Hd) as Hp.
  pose proof (drop_app_index _ _ _ _ (Nat.lt_le_incl _ _ Hp) Hd) as [Hd1 _].
  pose proof (drop_S_tail _ _ _ _ Hd1) as Hd2.
  pose proof (drop_S_tail _ _ _ _ Hd2) as Hd3.
  pose proof (drop_S_tail _ _ _ _ Hd3) as Hd4.
  pose proof (drop_S_tail _ _ _ _ Hd4) as Hd5.
  pose proof (drop_length_le _ _ _ _ Hd5) as Hb5.
  pose proof (drop_S_tail _ _ _ _ Hd5) as Hd6.
  apply drop_app_index in Hd6 as Hd7; [|lia]. destruct Hd7 as [Hd7 Hb7].
  set (u := p + length sp) in *.
  set (c1 := <[1 := (u + 1, u + 2)]> (∅ : gmap nat (nat * nat))).
  exists (MState p ∅). split; [done|].
  exists (MState u ∅). split.
  { eapply sem_Star_Char_to; [exact Hsp|exact Hd|done|done]. }
  exists (MState (S u) ∅). split.
  { eapply (sem_Lit_to s true "("); [exact Hd1|simpl; lia|done]. }
  exists (MState (S (S u)) c1). split.
  { exists (MState (S (S u)) ∅). split.
    - eapply sem_Char_to; [exact HL|exact Hd2|done|done].
    - simpl. unfold c1. f_equal. f_equal. f_equal; lia. }
  exists (MState (S (S (S u))) c1). split.
  { eapply (sem_Lit_to s true ")"); [exact Hd3|simpl; lia|done]. }
  exists (MState (S (S (S (S u)))) c1). split.
  { eapply sem_Char_to; [exact Hw|exact Hd4|done|done]. }
  exists (MState (S (S (S (S (S u)))) + length t)
                 (optionCaptures u (length (c :: t)))). split.
  { exists (MState (S (S (S (S (S u)))) + length t) c1). split.
    - exists (MState (S (S (S (S (S u))))) c1). split.
      + eapply sem_Char_to; [exact Hc|exact Hd5|done|done].
      + eapply sem_Star_Char_to; [exact Ht|exact Hd6|done|done].
    - simpl. unfold optionCaptures, c1. f_equal. f_equal. f_equal; lia. }
  eexists. split.
  { split; [|reflexivity]. cbn [endIndex]. apply atEol_endsLine; [lia|].
    by rewrite Hd7. }
  simpl. f_equal. lia.
Qed.

Lemma matchesOptionAt_unique (p : nat) (y1 y2 : mstate) :
  matchesOptionAt s p y1 -> matchesOptionAt s p y2 -> y1 = y2.
Proof.
  intros (_ & sp & L & w & t & tail & Hd & Hsp & _ & _ & _ & Ht & Hend & ->)
         (_ & sp' & L' & w' & t' & tail' & Hd' & Hsp' & _ & _ & _ & Ht'
          & Hend' & ->).
  rewrite Hd in Hd'.
  apply (span_unique isSpace) in Hd' as [<- Hd']; [|done..].
  injection Hd' as <- <- Hd'.
  apply (span_unique isDot) in Hd' as [<- _];
    [done|done|done|by apply endsLine_isDot..].
Qed.

(** The option pattern matches at [p] exactly as [matchesOptionAt] says. *)
Lemma matchAt_option (p : nat) (y : mstate) :
  p <= length s ->
  matchAt s true (pattern optionRegex) p = Some y <-> matchesOptionAt s p y.
Proof.
  intros Hp. split.
  - intros H. by apply optionRegex_sound, matchAt_sem.
  - intros H.
    destruct (proj2 (matchAt_is_Some s true (pattern optionRegex) p
                       eq_refl Hp)) as [y' Hy'].
    { exists y. by apply optionRegex_complete. }
    rewrite Hy'. f_equal.
    apply (matchesOptionAt_unique p); [|exact H].
    by apply optionRegex_sound, matchAt_sem.
Qed.

Lemma matchAt_option_None (p : nat) :
  p <= length s ->
  (forall y, ~ matchesOptionAt s p y) ->
  matchAt s true (pattern optionRegex) p = None.
Proof.
  intros Hp Hn. destruct (matchAt _ _ _ _) as [y|] eqn:E; [|done].
  apply matchAt_option in E; [|exact Hp]. by apply Hn in E.
Qed.
End OptionPattern.

(** Facts about the classes of code units, by arithmetic. *)
Ltac charclass :=
  unfold isBlank, isPlain, isDot, isSpace, isLineTerminator, isDigit,
    isABCD, isChar in *;
  repeat (progress
            rewrite ?andb_true_iff, ?orb_true_iff, ?negb_true_iff,
              ?negb_false_iff, ?andb_false_iff, ?orb_false_iff, ?N.eqb_eq,
              ?N.eqb_neq, ?N.leb_le, ?N.leb_gt in *);
  first [lia | repeat split; lia | intuition lia].

Lemma isBlank_isSpace (c : N) : isBlank c = true -> isSpace c = true.
Proof. unfold isBlank. by intros [? _]%andb_true_iff. Qed.

Lemma isBlank_isDot (c : N) : isBlank c = true -> isDot c = true.
Proof. unfold isBlank, isDot. by intros [_ ?]%andb_true_iff. Qed.

Lemma isPlain_isDot (c : N) : isPlain c = true -> isDot c = true.
Proof. unfold isPlain. by intros [? _]%andb_true_iff. Qed.

Lemma isPlain_star (c : N) : isPlain c = true -> c <> 42%N.
Proof.
  unfold isPlain. intros [_ H]%andb_true_iff.
  apply negb_true_iff, N.eqb_neq in H. done.
Qed.

Lemma isDigit_isDot (c : N) : isDigit c = true -> isDot c = true.
Proof. intros H. charclass. Qed.

Lemma isDigit_isSpace (c : N) : isDigit c = true -> isSpace c = false.
Proof. intros H. charclass. Qed.

Lemma isABCD_isDot (c : N) : isABCD c = true -> isDot c = true.
Proof. intros H. charclass. Qed.

Lemma isDot_terminator (c : N) : isDot c = true -> isLineTerminator c = false.
Proof. unfold isDot. by intros ?%negb_true_iff. Qed.

Lemma forallb_Forall_imp (P Q : N -> bool) (l : jsstring) :
  (forall c, P c = true -> Q c = true) ->
  forallb P l = true -> Forall (fun c => Q c = true) l.
Proof.
  intros HPQ H. apply Forall_forall. intros c Hc.
  apply HPQ. rewrite forallb_forall in H. apply H. by apply list_elem_of_In.
Qed.

(** ** Where the option pattern matches in a text *)

Lemma atBol_after (s a rest : jsstring) (c : N) :
  s = a ++ c :: rest -> atBol s true (S (length a)) = isLineTerminator c.
Proof.
  intros ->. unfold atBol. cbn [Nat.eqb orb andb].
  rewrite Nat.sub_succ, Nat.sub_0_r.
  rewrite lookup_app_r, Nat.sub_diag by lia. done.
Qed.

Lemma notBol_in (s a seg rest : jsstring) (q : nat) :
  s = a ++ seg ++ rest ->
  Forall (fun c => isLineTerminator c = false) seg ->
  length a < q <= length a + length seg ->
  atBol s true q = false.
Proof.
  intros -> Hseg Hq. unfold atBol.
  destruct q as [|q]; [lia|]. cbn [Nat.eqb orb andb].
  rewrite Nat.sub_succ, Nat.sub_0_r.
  rewrite lookup_app_r by lia. rewrite lookup_app_l by lia.
  destruct (seg !! (q - length a)) as [c|] eqn:E; [|done].
  by apply (Forall_lookup_1 _ _ _ _ Hseg E).
Qed.

Lemma option_not_bol (s : jsstring) (q : nat) :
  atBol s true q = false -> matchAt s true (pattern optionRegex) q = None.
Proof.
  intros H. unfold matchAt. rewrite optionRegex_parts.
  cbn [rmatch endIndex]. by rewrite H.
Qed.

Lemma no_option_None (s : jsstring) (q : nat) :
  (forall y, ~ matchesOptionAt s q y) ->
  matchAt s true (pattern optionRegex) q = None.
Proof.
  intros Hn. destruct (matchAt _ _ _ _) as [y|] eqn:E; [|done].
  apply matchAt_sem, optionRegex_sound in E. by apply Hn in E.
Qed.

Lemma no_option_spaces (s : jsstring) (q : nat) :
  Forall (fun c => isSpace c = true) (drop q s) ->
  matchAt s true (pattern optionRegex) q = None.
Proof.
  intros H. apply no_option_None.
  intros y (_ & sp & L & w & t & tail & Hd & _). rewrite Hd in H.
  apply Forall_app in H as [_ H]. apply Forall_cons in H as [H _].
  discriminate H.
Qed.

(** A line whose first code unit after white space is not a parenthesis
    is no option line. *)
Lemma no_option_first (s : jsstring) (q : nat) (sp0 rest : jsstring) (c : N) :
  drop q s = sp0 ++ c :: rest ->
  Forall (fun c => isSpace c = true) sp0 ->
  isSpace c = false -> c <> 40%N ->
  matchAt s true (pattern optionRegex) q = None.
Proof.
  intros Hd Hsp0 Hc Hne. apply no_option_None.
  intros y (_ & sp & L & w & t & tail & Hd' & Hsp & _). rewrite Hd in Hd'.
  apply (span_unique isSpace) in Hd' as [_ Hd']; [|done..].
  injection Hd' as ->. done.
Qed.

(** An option line is matched from its start to its end. *)
Lemma option_here (s : jsstring) (q : nat) (ind t tail : jsstring) (L w : N) :
  atBol s true q = true ->
  drop q s = ind ++ 40%N :: L :: 41%N :: w :: t ++ tail ->
  Forall (fun c => isSpace c = true) ind ->
  isABCD L = true -> isSpace w = true -> t <> [] ->
  Forall (fun c => isDot c = true) t -> endsLine tail ->
  matchAt s true (pattern optionRegex) q
  = Some (MState (q + length ind + 4 + length t)
                 (optionCaptures (q + length ind) (length t))).
Proof.
  intros Hbol Hd Hind HL Hw Ht Hdot Hend.
  apply matchAt_option.
  - apply drop_middle_lt in Hd. lia.
  - split; [exact Hbol|]. by exists ind, L, w, t, tail.
Qed.

(** The groups of an option match. *)
Lemma option_groups (s : jsstring) (q e u : nat) (t tail : jsstring) (L w : N) :
  drop u s = 40%N :: L :: 41%N :: w :: t ++ tail ->
  group (MkMatch s q e (optionCaptures u (length t))) 1 = Some [L]
  /\ group (MkMatch s q e (optionCaptures u (length t))) 2 = Some t.
Proof.
  intros Hd. unfold group, optionCaptures. cbn [m_captures m_input].
  rewrite lookup_insert_ne by done. rewrite !lookup_insert_eq.
  unfold substring.
  pose proof (drop_S_tail _ _ _ _ Hd) as Hd1.
  pose proof (drop_S_tail _ _ _ _ Hd1) as Hd2.
  pose proof (drop_S_tail _ _ _ _ Hd2) as Hd3.
  pose proof (drop_S_tail _ _ _ _ Hd3) as Hd4.
  replace (u + 1) with (S u) by lia.
  replace (u + 4) with (S (S (S (S u)))) by lia.
  rewrite Hd1, Hd4. split.
  - by replace (u + 2 - S u) with 1 by lia.
  - replace (S (S (S (S u))) + length t - S (S (S (S u)))) with (length t)
      by lia.
    by rewrite take_app_length.
Qed.

(** ** The loop over the option matches of a written block *)

Lemma writeOption_parts (o : OptionLine) :
  writeOption o = indent o ++ 40%N :: letter o :: 41%N :: 32%N :: text o.
Proof. reflexivity. Qed.

Lemma goodOption_facts (o : OptionLine) :
  goodOption o = true ->
  Forall (fun c => isSpace c = true) (indent o)
  /\ isABCD (letter o) = true
  /\ text o <> []
  /\ Forall (fun c => isPlain c = true) (text o)
  /\ Forall (fun c => isLineTerminator c = false) (writeOption o).
Proof.
  unfold goodOption.
  intros [[[Hind HL]%andb_true_iff Hne]%andb_true_iff Ht]%andb_true_iff.
  assert (Hplain : Forall (fun c => isPlain c = true) (text o))
    by (by apply (forallb_Forall_imp isPlain isPlain)).
  split; [by apply (forallb_Forall_imp isBlank isSpace);
            [apply isBlank_isSpace|]|].
  split; [exact HL|]. split.
  { destruct (text o); [discriminate Hne | done]. }
  split; [exact Hplain|].
  rewrite writeOption_parts. apply Forall_app. split.
  - apply (forallb_Forall_imp isBlank (fun c => negb (isLineTerminator c)))
      in Hind.
    + eapply Forall_impl; [exact Hind|]. simpl. intros c Hc.
      by apply negb_true_iff in Hc.
    + intros c Hc. by apply isBlank_isDot in Hc.
  - repeat (apply Forall_cons; split; [try done|]).
    + by apply isDot_terminator, isABCD_isDot.
    + eapply Forall_impl; [exact Hplain|]. simpl. intros c Hc.
      by apply isDot_terminator, isPlain_isDot.
Qed.

Lemma snoc_cons {A} (pre rest : list A) (c : A) :
  pre ++ c :: rest = (pre ++ [c]) ++ rest.
Proof. by rewrite <- app_assoc. Qed.

Lemma writeOptions_cons (o : OptionLine) (os : list OptionLine) :
  writeOptions (o :: os) = 10%N :: writeOption o ++ writeOptions os.
Proof. reflexivity. Qed.

Lemma endsLine_writeOptions (os : list OptionLine) (after : jsstring) :
  endsLine after -> endsLine (writeOptions os ++ after).
Proof. destruct os; [done|]. intros _. reflexivity. Qed.

Lemma last_not_terminator (pre : jsstring) (seg : jsstring) :
  seg <> [] -> Forall (fun c => isLineTerminator c = false) seg ->
  exists pre' c, pre ++ seg = pre' ++ [c] /\ isLineTerminator c = false.
Proof.
  intros Hne Hseg.
  induction seg as [|c seg' _] using rev_ind; [done|].
  apply Forall_app in Hseg as [_ Hc]. apply Forall_inv in Hc.
  exists (pre ++ seg'), c. by rewrite app_assoc.
Qed.

Lemma options_loop (s after : jsstring) :
  endsLine after ->
  (forall q, length s - length after < q ->
             matchAt s true (pattern optionRegex) q = None) ->
  forall os pre fuel,
    s = pre ++ writeOptions os ++ after ->
    (exists pre' c, pre = pre' ++ [c] /\ isLineTerminator c = false) ->
    Forall (fun o => goodOption o = true) os ->
    length os <= fuel ->
    map (fun m => (group m 1, group m 2))
        (execAll fuel optionRegex s (length pre))
    = map (fun o => (Some [letter o], Some (text o))) os.
Proof.
  intros Hend Hafter.
  induction os as [|o os IH]; intros pre fuel Hs Hpre Hgood Hfuel.
  - simpl in Hs. destruct fuel as [|fuel]; [done|]. simpl.
    rewrite exec_none_from; [done|]. intros q Hq.
    destruct (decide (q = length pre)) as [->|Hne].
    + apply option_not_bol. destruct Hpre as (pre' & c & -> & Hc).
      apply (notBol_in s pre' [c] after).
      * by rewrite Hs, <- app_assoc.
      * by apply Forall_singleton.
      * rewrite length_app. simpl. lia.
    + apply Hafter. rewrite Hs, length_app. lia.
  - apply Forall_cons in Hgood as [Ho Hgood].
    destruct (goodOption_facts o Ho) as (Hind & HL & Hne & Hplain & Hline).
    destruct fuel as [|fuel]; [simpl in Hfuel; lia|].
    rewrite writeOptions_cons in Hs. cbn [app] in Hs.
    rewrite <- app_assoc in Hs.
    assert (Hlen : length pre < length s).
    { rewrite Hs, length_app. simpl. lia. }
    assert (Hskip : exec optionRegex s (length pre)
                    = exec optionRegex s (S (length pre))).
    { apply exec_skip; [|exact Hlen].
      apply option_not_bol. destruct Hpre as (pre' & c & -> & Hc).
      apply (notBol_in s pre' [c]
               (10%N :: writeOption o ++ writeOptions os ++ after)).
      - by rewrite Hs, <- !app_assoc.
      - by apply Forall_singleton.
      - rewrite length_app. simpl. lia. }
    assert (Hd : drop (S (length pre)) s
                 = indent o ++ 40%N :: letter o :: 41%N :: 32%N
                     :: text o ++ (writeOptions os ++ after)).
    { rewrite Hs.
      replace (S (length pre)) with (length (pre ++ [10%N]))
        by (rewrite length_app; simpl; lia).
      rewrite (snoc_cons pre (writeOption o ++ writeOptions os ++ after)),
        drop_app_length.
      by rewrite writeOption_parts, <- app_assoc. }
    assert (Hbol : atBol s true (S (length pre)) = true).
    { by rewrite (atBol_after s pre _ 10%N Hs). }
    assert (Hdot : Forall (fun c => isDot c = true) (text o)).
    { eapply Forall_impl; [exact Hplain|]. apply isPlain_isDot. }
    pose proof (option_here s (S (length pre)) (indent o) (text o)
                  (writeOptions os ++ after) (letter o) 32%N Hbol Hd Hind HL
                  eq_refl Hne Hdot (endsLine_writeOptions os after Hend))
      as Hm.
    pose proof (exec_at optionRegex s _ _ Hm (proj1 (Nat.le_succ_l _ _) Hlen))
      as He.
    cbn [execAll]. rewrite Hskip, He. cbn [map m_end endIndex captures].
    destruct (drop_app_index _ _ _ _ (proj1 (Nat.le_succ_l _ _) Hlen) Hd)
      as [Hu _].
    destruct (option_groups s (S (length pre))
                (S (length pre) + length (indent o) + 4 + length (text o))
                _ _ _ _ _ Hu) as [-> ->].
    f_equal.
    replace (S (length pre) + length (indent o) + 4 + length (text o))
      with (length (pre ++ 10%N :: writeOption o)).
    + apply IH.
      * by rewrite Hs, <- !app_assoc.
      * rewrite (snoc_cons pre (writeOption o)).
        apply last_not_terminator; [|exact Hline].
        rewrite writeOption_parts. by destruct (indent o).
      * exact Hgood.
      * simpl in Hfuel. lia.
    + rewrite length_app. cbn [length]. rewrite writeOption_parts.
      rewrite length_app. cbn [length]. lia.
Qed.

Lemma goodAnswer_facts (a : AnswerLine) :
  goodAnswer a = true ->
  Forall (fun c => isSpace c = true) (answerIndent a)
  /\ isABCD (answerLetter a) = true
  /\ Forall (fun c => isDot c = true) (answerRest a)
  /\ Forall (fun c => isLineTerminator c = false) (writeAnswer a).
Proof.
  unfold goodAnswer.
  intros [[Hind HL]%andb_true_iff Hrest]%andb_true_iff.
  assert (Hr : Forall (fun c => isDot c = true) (answerRest a))
    by (by apply (forallb_Forall_imp isDot isDot)).
  split; [by apply (forallb_Forall_imp isBlank isSpace);
            [apply isBlank_isSpace|]|].
  split; [exact HL|]. split; [exact Hr|].
  unfold writeAnswer. apply Forall_app. split.
  - apply (forallb_Forall_imp isBlank isDot) in Hind;
      [|apply isBlank_isDot].
    eapply Forall_impl; [exact Hind|]. apply isDot_terminator.
  - apply Forall_app. split; [by repeat constructor|].
    apply Forall_cons. split; [by apply isDot_terminator, isABCD_isDot|].
    apply Forall_app. split; [by repeat constructor|].
    eapply Forall_impl; [exact Hr|]. apply isDot_terminator.
Qed.

Lemma goodTrailer_facts (t : jsstring) :
  goodTrailer t = true ->
  Forall (fun c => isSpace c = true) t /\ endsLine t.
Proof.
  unfold goodTrailer. intros [Hsp Hend]%andb_true_iff. split.
  - by apply (forallb_Forall_imp isSpace isSpace).
  - by destruct t.
Qed.

Lemma goodBlock_facts (b : Block) :
  goodBlock b = true ->
  (exists d ds, number b = d :: ds /\ isDigit d = true
                /\ Forall (fun c => isDigit c = true) ds)
  /\ prompt b <> []
  /\ Forall (fun c => isPlain c = true) (prompt b)
  /\ startsWith (codes "Correct Answer:") (prompt b) = false
  /\ Forall (fun o => goodOption o = true) (optionLines b)
  /\ match answerLine b with Some a => goodAnswer a = true | None => True end
  /\ goodTrailer (trailer b) = true.
Proof.
  unfold goodBlock.
  intros [[[[[[[Hn Hd]%andb_true_iff Hp]%andb_true_iff Hpl]%andb_true_iff
             Hs]%andb_true_iff Ho]%andb_true_iff Ha]%andb_true_iff
           Ht]%andb_true_iff.
  split.
  { destruct (number b) as [|d ds]; [discriminate Hn|].
    apply (forallb_Forall_imp isDigit isDigit) in Hd; [|done].
    apply Forall_cons in Hd as [Hd Hds]. by exists d, ds. }
  split; [destruct (prompt b); [discriminate Hp | done]|].
  split; [by apply (forallb_Forall_imp isPlain isPlain)|].
  split; [by apply negb_true_iff|].
  split.
  { apply Forall_forall. intros o Ho'. rewrite forallb_forall in Ho.
    apply Ho. by apply list_elem_of_In. }
  split; [by destruct (answerLine b)|]. exact Ht.
Qed.

Lemma writeHead_line (b : Block) :
  goodBlock b = true ->
  Forall (fun c => isLineTerminator c = false) (writeHead b).
Proof.
  intros Hb.
  destruct (goodBlock_facts b Hb) as ((d & ds & Hn & Hd & Hds) & _ & Hpl & _).
  unfold writeHead. apply Forall_app. split.
  - rewrite Hn. apply Forall_cons. split.
    + by apply isDot_terminator, isDigit_isDot.
    + eapply Forall_impl; [exact Hds|]. intros c Hc.
      by apply isDot_terminator, isDigit_isDot.
  - apply Forall_app. split; [by repeat constructor|].
    apply Forall_app. split; [|by repeat constructor].
    eapply Forall_impl; [exact Hpl|]. intros c Hc.
    by apply isDot_terminator, isPlain_isDot.
Qed.

Lemma endsLine_after (b : Block) :
  goodBlock b = true ->
  endsLine (writeAnswerLine (answerLine b) ++ trailer b).
Proof.
  intros Hb. destruct (goodBlock_facts b Hb) as (_ & _ & _ & _ & _ & _ & Ht).
  destruct (answerLine b); [done|].
  by apply goodTrailer_facts in Ht as [_ Ht].
Qed.

Lemma length_writeOptions (os : list OptionLine) :
  length os <= length (writeOptions os).
Proof.
  induction os as [|o os IH]; [done|]. rewrite writeOptions_cons.
  cbn [length]. rewrite length_app. lia.
Qed.

(** Nothing after the option lines of a block is an option line. *)
Lemma no_option_after (b : Block) (q : nat) :
  goodBlock b = true ->
  length (writeBlock b)
  - length (writeAnswerLine (answerLine b) ++ trailer b) < q ->
  matchAt (writeBlock b) true (pattern optionRegex) q = None.
Proof.
  intros Hb Hq.
  destruct (goodBlock_facts b Hb) as (_ & _ & _ & _ & _ & Ha & Ht).
  apply goodTrailer_facts in Ht as [Ht _].
  unfold writeBlock in *. rewrite !length_app in Hq.
  set (X := writeHead b ++ writeOptions (optionLines b)).
  destruct (answerLine b) as [a|]; cbn [writeAnswerLine] in *.
  - apply goodAnswer_facts in Ha as (Hind & _ & _ & Hline).
    assert (Hs : writeHead b ++ writeOptions (optionLines b)
                 ++ (nl ++ writeAnswer a) ++ trailer b
                 = (X ++ [10%N]) ++ writeAnswer a ++ trailer b).
    { unfold X, nl. by rewrite <- !app_assoc. }
    rewrite Hs. rewrite !length_app in Hq. cbn [length nl] in Hq.
    assert (HX : length (X ++ [10%N])
                 = S (length (writeHead b)
                      + length (writeOptions (optionLines b)))).
    { unfold X. rewrite !length_app. simpl. lia. }
    destruct (decide (q = length (X ++ [10%N]))) as [->|Hne1].
    + apply (no_option_first _ _ (answerIndent a)
               (codes "*Correct Answer: (" ++ [answerLetter a] ++ codes ")**"
                ++ answerRest a ++ trailer b) 42%N); [|done..].
      rewrite drop_app_length.
      unfold writeAnswer. by rewrite <- !app_assoc.
    + destruct (le_lt_dec q (length (X ++ [10%N]) + length (writeAnswer a)))
        as [Hle|Hgt].
      * apply option_not_bol.
        apply (notBol_in _ (X ++ [10%N]) (writeAnswer a) (trailer b));
          [done | exact Hline | lia].
      * apply no_option_spaces.
        rewrite app_assoc.
        rewrite drop_app_ge by (rewrite length_app; lia).
        by apply Forall_drop.
  - apply no_option_spaces. cbn [app]. rewrite app_assoc.
    rewrite drop_app_ge by (rewrite !length_app; simpl in Hq; lia).
    by apply Forall_drop.
Qed.

(** The option matches of a written block are its option lines, in
    order, with their letters and texts. *)
Lemma written_optionMatches (b : Block) :
  goodBlock b = true ->
  map (fun m => (group m 1, group m 2)) (optionMatches (writeBlock b))
  = map (fun o => (Some [letter o], Some (text o))) (optionLines b).
Proof.
  intros Hb.
  destruct (goodBlock_facts b Hb)
    as ((d & ds & Hn & Hd & Hds) & Hp & Hpl & _ & Hos & _ & _).
  pose proof (writeHead_line b Hb) as Hhead.
  unfold optionMatches.
  set (s := writeBlock b).
  assert (Hs : s = writeHead b ++ writeOptions (optionLines b)
                   ++ (writeAnswerLine (answerLine b) ++ trailer b)).
  { reflexivity. }
  assert (Hne : writeHead b <> []).
  { unfold writeHead. rewrite Hn. done. }
  assert (Hskip : exec optionRegex s 0
                  = exec optionRegex s (length (writeHead b))).
  { apply (exec_skip_to optionRegex s (length (writeHead b)))
      with (n := length (writeHead b)); [|done|].
    - rewrite Hs, length_app. lia.
    - intros q Hq. destruct q as [|q].
      + apply (no_option_first s 0 [] (ds ++ codes ". **" ++ prompt b
                 ++ codes "**" ++ writeOptions (optionLines b)
                 ++ (writeAnswerLine (answerLine b) ++ trailer b)) d).
        * rewrite drop_0, Hs. unfold writeHead. rewrite Hn.
          by rewrite <- !app_assoc.
        * done.
        * by apply isDigit_isSpace.
        * intros ->. discriminate Hd.
      + apply option_not_bol.
        apply (notBol_in s [] (writeHead b)
                 (writeOptions (optionLines b)
                  ++ (writeAnswerLine (answerLine b) ++ trailer b)));
          [exact Hs | exact Hhead | simpl; lia]. }
  rewrite (execAll_same_exec _ _ _ _ Hskip).
  apply (options_loop s (writeAnswerLine (answerLine b) ++ trailer b)).
  - by apply endsLine_after.
  - intros q Hq. by apply no_option_after.
  - exact Hs.
  - destruct (last_not_terminator [] (writeHead b) Hne Hhead)
      as (pre' & c & Hpre & Hc).
    exists pre', c. split; [exact Hpre | exact Hc].
  - exact Hos.
  - pose proof (length_writeOptions (optionLines b)) as Hl.
    rewrite Hs, !length_app. lia.
Qed.

(** ** The numbered head and the question *)

Lemma numbered_parts :
  numbered
  = Seq (Seq digit (Star true digit))
        (Seq (Lit ".") (Seq ws (Seq (Lit "**") Empty))).
Proof. reflexivity. Qed.

Section Numbered.
Variable s : jsstring.
Variable mm : bool.
Local Abbreviation matches := (sem s mm).

Lemma numbered_sound (x y : mstate) :
  matches numbered x y ->
  exists d ds w,
    isDigit d = true /\ Forall (fun c => isDigit c = true) ds /\
    isSpace w = true /\
    drop (endIndex x) s
    = d :: ds ++ 46%N :: w :: 42%N :: 42%N :: drop (endIndex y) s /\
    endIndex y = endIndex x + 1 + length ds + 4 /\
    captures y = captures x.
Proof.
  rewrite numbered_parts.
  intros (x2 & (x1 & H1 & Hds) & x3 & Hdot & x4 & Hw & x5 & Hst & ->).
  apply sem_Char_state in H1 as (d & Hd & Hd1 & He1 & Hc1).
  apply sem_Star_Char_state in Hds as (ds & Hds & Hd2 & He2 & Hc2).
  apply sem_Lit_state in Hdot as (Hd3 & He3 & Hc3).
  apply sem_Char_state in Hw as (w & Hw & Hd4 & He4 & Hc4).
  apply sem_Lit_state in Hst as (Hd5 & He5 & Hc5).
  change (codes ".") with [46%N] in *. change (codes "**") with [42%N; 42%N] in *.
  cbn [length app] in *.
  exists d, ds, w. split; [done|]. split; [done|]. split; [done|].
  split; [by rewrite Hd1, Hd2, Hd3, Hd4, Hd5|].
  split; [lia | congruence].
Qed.

Lemma numbered_complete (x y : mstate) (d w : N) (ds tl : jsstring) :
  isDigit d = true -> Forall (fun c => isDigit c = true) ds ->
  isSpace w = true ->
  drop (endIndex x) s = d :: ds ++ 46%N :: w :: 42%N :: 42%N :: tl ->
  endIndex y = endIndex x + 1 + length ds + 4 ->
  captures y = captures x ->
  matches numbered x y.
Proof.
  intros Hd Hds Hw Hdrop He Hc. rewrite numbered_parts.
  pose proof (drop_length_le _ _ _ _ Hdrop) as Hlt.
  pose proof (drop_S_tail _ _ _ _ Hdrop) as H1.
  destruct (drop_app_index _ _ _ _ Hlt H1) as [H2 Hb2].
  pose proof (drop_S_tail _ _ _ _ H2) as H3.
  pose proof (drop_S_tail _ _ _ _ H3) as H4.
  set (c := captures x) in *.
  exists (MState (S (endIndex x) + length ds) c). split.
  { exists (MState (S (endIndex x)) c). split.
    - eapply sem_Char_to; [exact Hd|exact Hdrop|done|done].
    - eapply sem_Star_Char_to; [exact Hds|exact H1|done|done]. }
  exists (MState (S (S (endIndex x) + length ds)) c). split.
  { eapply (sem_Lit_to s mm "."); [exact H2|simpl; lia|done]. }
  exists (MState (S (S (S (endIndex x) + length ds))) c). split.
  { eapply sem_Char_to; [exact Hw|exact H3|done|done]. }
  exists y. split; [|done].
  eapply (sem_Lit_to s mm "**"); [exact H4|simpl; lia|done].
Qed.
End Numbered.

Lemma questionRegex_parts :
  pattern questionRegex
  = Seq Bol (Seq numbered
      (Seq (Group 1 (Seq (Char isDot) (Star false (Char isDot))))
           (Seq (Lit "**") Empty))).
Proof. reflexivity. Qed.

(** What the question pattern matches at the start of a text, and the
    group it captures. *)
Lemma questionRegex_sound (s : jsstring) (y : mstate) :
  sem s false (pattern questionRegex) (MState 0 ∅) y ->
  exists d ds w g tail,
    isDigit d = true /\ Forall (fun c => isDigit c = true) ds /\
    isSpace w = true /\ g <> [] /\ Forall (fun c => isDot c = true) g /\
    s = d :: ds ++ 46%N :: w :: 42%N :: 42%N :: g ++ 42%N :: 42%N :: tail /\
    captures y = {[ 1 := (length ds + 5, length ds + 5 + length g) ]}.
Proof.
  rewrite questionRegex_parts.
  intros (x1 & [_ ->] & x2 & Hn & x3 & Hg & x4 & Hst & ->).
  apply numbered_sound in Hn as (d & ds & w & Hd & Hds & Hw & Hd1 & He1 & Hc1).
  apply sem_Group_state in Hg as (y3 & (m3 & Hg1 & Hg2) & He3 & Hc3).
  apply sem_Char_state in Hg1 as (c & Hc & Hd2 & He2 & Hc2).
  apply sem_Star_Char_state in Hg2 as (g & Hg & Hd3 & He4 & Hc4).
  apply sem_Lit_state in Hst as (Hd5 & He5 & Hc5).
  change (codes "**") with [42%N; 42%N] in *.
  cbn [endIndex captures length app] in *. rewrite drop_0 in Hd1.
  exists d, ds, w, (c :: g), (drop (endIndex x4) s).
  split; [done|]. split; [done|]. split; [done|]. split; [done|].
  split; [by constructor|]. split.
  { rewrite Hd1 at 1. rewrite Hd2, Hd3, <- He3, Hd5. done. }
  rewrite Hc5, Hc3, Hc4, Hc2, Hc1. cbn [length].
  replace (endIndex x2) with (length ds + 5) by lia.
  replace (endIndex y3) with (length ds + 5 + S (length g)) by lia.
  done.
Qed.

Lemma questionRegex_complete (s : jsstring) (d w : N) (ds g tail : jsstring) :
  isDigit d = true -> Forall (fun c => isDigit c = true) ds ->
  isSpace w = true -> g <> [] -> Forall (fun c => isDot c = true) g ->
  s = d :: ds ++ 46%N :: w :: 42%N :: 42%N :: g ++ 42%N :: 42%N :: tail ->
  exists y, sem s false (pattern questionRegex) (MState 0 ∅) y.
Proof.
  intros Hd Hds Hw Hne Hg Hs. rewrite questionRegex_parts.
  destruct g as [|c g]; [done|]. apply Forall_cons in Hg as [Hc Hg].
  assert (H0 : drop 0 s = d :: ds ++ 46%N :: w :: 42%N :: 42%N
                 :: (c :: g) ++ 42%N :: 42%N :: tail) by (by rewrite drop_0).
  assert (Hlen : 0 < length s) by (rewrite Hs; simpl; lia).
  pose proof (drop_S_tail _ _ _ _ H0) as H1.
  destruct (drop_app_index _ _ _ _ Hlen H1) as [H2 _].
  do 4 apply drop_S_tail in H2. cbn [app] in H2.
  pose proof (drop_length_le _ _ _ _ H2) as Hb.
  pose proof (drop_S_tail _ _ _ _ H2) as H3.
  destruct (drop_app_index _ _ _ _ Hb H3) as [H4 _].
  set (a := S (S (S (S (1 + length ds))))) in *.
  exists (MState (S a + length g + 2) {[1 := (a, S a + length g)]}).
  exists (MState 0 ∅). split; [done|].
  exists (MState a ∅). split.
  { eapply (numbered_complete s false _ _ d w ds); [done..|exact H0| |done].
    simpl. unfold a. lia. }
  exists (MState (S a + length g) {[1 := (a, S a + length g)]}). split.
  { exists (MState (S a + length g) ∅). split; [|done].
    exists (MState (S a) ∅). split.
    - eapply sem_Char_to; [exact Hc|exact H2|done|done].
    - eapply sem_Star_Char_to; [exact Hg|exact H3|done|done]. }
  eexists. split; [|reflexivity].
  eapply (sem_Lit_to s false "**"); [exact H4|reflexivity|reflexivity].
  Unshelve. all: exact [].
Qed.

Lemma span_exists {A} (P : A -> bool) (l : list A) :
  exists a c, l = a ++ c /\ Forall (fun x => P x = true) a
              /\ match c with [] => True | x :: _ => P x = false end.
Proof.
  induction l as [|x l (a & c & -> & Ha & Hc)]; [by exists [], []|].
  destruct (P x) eqn:Hx.
  - exists (x :: a), c. split; [done|]. split; [by constructor | done].
  - exists [], (x :: a ++ c). by split.
Qed.

(** The text between the first emphasis markers of a head line that ends
    with its second marker is the only thing the lazy group can take. *)
Lemma prompt_unique (p g rest tail : jsstring) :
  Forall (fun c => isPlain c = true) p ->
  Forall (fun c => isDot c = true) g ->
  endsLine rest ->
  g ++ 42%N :: 42%N :: tail = p ++ 42%N :: 42%N :: rest ->
  g = p.
Proof.
  intros Hp Hg Hrest H.
  destruct (span_exists (fun c => negb (c =? 42)%N) g)
    as (g1 & g2 & -> & Hg1 & Hg2).
  rewrite <- app_assoc in H.
  apply (span_unique (fun c => negb (c =? 42)%N)) in H as [<- H].
  - destruct g2 as [|x g2]; [by rewrite app_nil_r|]. exfalso.
    apply Forall_app in Hg as [_ Hg].
    injection H as -> H.
    destruct g2 as [|y g2].
    + injection H as <-. discriminate Hrest.
    + injection H as -> H. apply Forall_cons in Hg as [_ Hg].
      apply Forall_cons in Hg as [_ Hg].
      destruct g2 as [|z g2].
      * simpl in H. subst rest. discriminate Hrest.
      * simpl in H. subst rest. apply Forall_cons in Hg as [Hz _].
        simpl in Hrest. unfold isDot in Hz. by rewrite Hrest in Hz.
  - exact Hg1.
  - eapply Forall_impl; [exact Hp|]. simpl. intros c Hc.
    apply negb_true_iff, N.eqb_neq. by apply isPlain_star.
  - by destruct g2.
  - done.
Qed.

Lemma writeBlock_head (b : Block) (d : N) (ds : jsstring) :
  number b = d :: ds ->
  writeBlock b
  = d :: ds ++ 46%N :: 32%N :: 42%N :: 42%N :: prompt b ++ 42%N :: 42%N
       :: (writeOptions (optionLines b)
           ++ writeAnswerLine (answerLine b) ++ trailer b).
Proof.
  intros Hn. unfold writeBlock, writeHead. rewrite Hn.
  by rewrite <- !app_assoc.
Qed.

Lemma endsLine_rest (b : Block) :
  goodBlock b = true ->
  endsLine (writeOptions (optionLines b)
            ++ writeAnswerLine (answerLine b) ++ trailer b).
Proof. intros Hb. by apply endsLine_writeOptions, endsLine_after. Qed.

(** The question of a written block. *)
Lemma written_question (b : Block) :
  goodBlock b = true ->
  exists m, jsmatch (writeBlock b) questionRegex = Some m
            /\ group m 1 = Some (prompt b).
Proof.
  intros Hb.
  destruct (goodBlock_facts b Hb)
    as ((d & ds & Hn & Hd & Hds) & Hp & Hpl & _).
  pose proof (writeBlock_head b d ds Hn) as Hs.
  pose proof (endsLine_rest b Hb) as Hrest.
  set (s := writeBlock b) in *.
  set (rest := writeOptions (optionLines b)
               ++ writeAnswerLine (answerLine b) ++ trailer b) in *.
  assert (Hdot : Forall (fun c => isDot c = true) (prompt b)).
  { eapply Forall_impl; [exact Hpl|]. apply isPlain_isDot. }
  destruct (proj2 (matchAt_is_Some s false (pattern questionRegex) 0
                     eq_refl (Nat.le_0_l _))) as [y Hy].
  { by apply (questionRegex_complete s d 32%N ds (prompt b) rest). }
  exists (MkMatch s 0 (endIndex y) (captures y)). split.
  { by apply (exec_at questionRegex s 0 y Hy), Nat.le_0_l. }
  apply matchAt_sem, questionRegex_sound in Hy
    as (d' & ds' & w & g & tail & _ & Hds' & _ & _ & Hg & Hs' & Hcap).
  rewrite Hs in Hs' at 1. injection Hs' as <- Hs'.
  apply (span_unique isDigit) in Hs' as [<- Hs']; [|done..].
  injection Hs' as <- Hs'. symmetry in Hs'.
  apply prompt_unique in Hs'; [|done..]. subst g.
  unfold group. cbn [m_captures m_input]. rewrite Hcap, lookup_singleton_eq.
  f_equal. unfold substring.
  replace (length ds + 5 + length (prompt b) - (length ds + 5))
    with (length (prompt b)) by lia.
  rewrite Hs.
  replace (length ds + 5)
    with (length (d :: ds ++ [46%N; 32%N; 42%N; 42%N]))
    by (cbn [length]; rewrite length_app; simpl; lia).
  assert (E : d :: ds ++ 46%N :: 32%N :: 42%N :: 42%N :: prompt b
                ++ 42%N :: 42%N :: rest
              = (d :: ds ++ [46%N; 32%N; 42%N; 42%N])
                ++ prompt b ++ 42%N :: 42%N :: rest).
  { simpl. by rewrite <- app_assoc. }
  rewrite E, drop_app_length. by rewrite take_app_length.
Qed.

(** ** The answer marker *)

Lemma correctAnswerRegex_parts :
  pattern correctAnswerRegex
  = Seq (Lit "**Correct Answer:") (Seq (Star true ws) (Seq (Lit "(")
      (Seq (Group 1 (Char isABCD)) (Seq (Lit ")**") Empty)))).
Proof. reflexivity. Qed.

Lemma explanationRegex_parts :
  pattern explanationRegex
  = Seq (Lit "**Correct Answer:") (Seq (Star true ws) (Seq (Lit "(")
      (Seq (Char isABCD) (Seq (Lit ")**") (Seq (Star true ws)
        (Seq (Group 1 (Star true (Char isAny))) (Seq Eol Empty))))))).
Proof. reflexivity. Qed.

Lemma startsWith_app (pre s : jsstring) : startsWith pre (pre ++ s) = true.
Proof.
  induction pre as [|a pre IH]; [done|]. simpl. by rewrite N.eqb_refl.
Qed.

Section Marker.
Variable s : jsstring.
Local Abbreviation matches := (sem s false).
Local Abbreviation marker := (codes "**Correct Answer:").

Lemma correctAnswerRegex_sound (q : nat) (y : mstate) :
  matches (pattern correctAnswerRegex) (MState q ∅) y ->
  exists sp L tail,
    drop q s = marker ++ sp ++ 40%N :: L :: 41%N :: 42%N :: 42%N :: tail /\
    Forall (fun c => isSpace c = true) sp /\ isABCD L = true /\
    captures y = {[ 1 := (q + 17 + length sp + 1, q + 17 + length sp + 2) ]}.
Proof.
  rewrite correctAnswerRegex_parts.
  intros (x1 & H1 & x2 & H2 & x3 & H3 & x4 & H4 & x5 & H5 & ->).
  apply sem_Lit_state in H1 as (Hd1 & He1 & Hc1).
  apply sem_Star_Char_state in H2 as (sp & Hsp & Hd2 & He2 & Hc2).
  apply sem_Lit_state in H3 as (Hd3 & He3 & Hc3).
  apply sem_Group_state in H4 as (y4 & H4 & He4 & Hc4).
  apply sem_Char_state in H4 as (L & HL & Hd4 & He4' & Hc4').
  apply sem_Lit_state in H5 as (Hd5 & He5 & Hc5).
  change (codes "(") with [40%N] in *.
  change (codes ")**") with [41%N; 42%N; 42%N] in *.
  change (length marker) with 17 in *.
  cbn [endIndex captures length app] in *.
  exists sp, L, (drop (endIndex x5) s).
  split; [by rewrite Hd1, Hd2, Hd3, Hd4, <- He4, Hd5|].
  split; [done|]. split; [done|].
  rewrite Hc5, Hc4, Hc4', Hc3, Hc2, Hc1.
  replace (endIndex x3) with (q + 17 + length sp + 1) by lia.
  replace (endIndex y4) with (q + 17 + length sp + 2) by lia.
  done.
Qed.

Lemma correctAnswerRegex_complete (q : nat) (sp tail : jsstring) (L : N) :
  drop q s = marker ++ sp ++ 40%N :: L :: 41%N :: 42%N :: 42%N :: tail ->
  Forall (fun c => isSpace c = true) sp -> isABCD L = true ->
  exists y, matches (pattern correctAnswerRegex) (MState q ∅) y.
Proof.
  intros Hd Hsp HL. rewrite correctAnswerRegex_parts.
  assert (Hq : q <= length s).
  { destruct (le_lt_dec q (length s)) as [H|H]; [done|].
    rewrite drop_ge in Hd by lia. discriminate Hd. }
  destruct (drop_app_index _ _ _ _ Hq Hd) as [H1 Hb1].
  destruct (drop_app_index _ _ _ _ Hb1 H1) as [H2 Hb2].
  pose proof (drop_S_tail _ _ _ _ H2) as H3.
  pose proof (drop_S_tail _ _ _ _ H3) as H4.
  change (length marker) with 17 in *.
  set (u := q + 17 + length sp) in *.
  exists (MState (S (S u) + 3) {[1 := (S u, S (S u))]}).
  exists (MState (q + 17) ∅). split.
  { eapply (sem_Lit_to s false "**Correct Answer:"); [exact Hd|done|done]. }
  exists (MState u ∅). split.
  { eapply sem_Star_Char_to; [exact Hsp|exact H1|done|done]. }
  exists (MState (S u) ∅). split.
  { eapply (sem_Lit_to s false "("); [exact H2|simpl; lia|done]. }
  exists (MState (S (S u)) {[1 := (S u, S (S u))]}). split.
  { exists (MState (S (S u)) ∅). split; [|done].
    eapply sem_Char_to; [exact HL|exact H3|done|done]. }
  eexists. split; [|reflexivity].
  eapply (sem_Lit_to s false ")**"); [exact H4|reflexivity|reflexivity].
Qed.

Lemma explanationRegex_sound (q : nat) (y : mstate) :
  matches (pattern explanationRegex) (MState q ∅) y ->
  exists sp L sp2 e,
    drop q s = marker ++ sp ++ 40%N :: L :: 41%N :: 42%N :: 42%N
                 :: sp2 ++ drop e s /\
    Forall (fun c => isSpace c = true) sp /\ isABCD L = true /\
    Forall (fun c => isSpace c = true) sp2 /\
    captures y = {[ 1 := (e, length s) ]}.
Proof.
  rewrite explanationRegex_parts.
  intros (x1 & H1 & x2 & H2 & x3 & H3 & x4 & H4 & x5 & H5 & x6 & H6
          & x7 & H7 & x8 & [Heol ->] & ->).
  apply sem_Lit_state in H1 as (Hd1 & He1 & Hc1).
  apply sem_Star_Char_state in H2 as (sp & Hsp & Hd2 & He2 & Hc2).
  apply sem_Lit_state in H3 as (Hd3 & He3 & Hc3).
  apply sem_Char_state in H4 as (L & HL & Hd4 & He4 & Hc4).
  apply sem_Lit_state in H5 as (Hd5 & He5 & Hc5).
  apply sem_Star_Char_state in H6 as (sp2 & Hsp2 & Hd6 & He6 & Hc6).
  apply sem_Group_state in H7 as (y7 & H7 & He7 & Hc7).
  apply sem_Star_Char_state in H7 as (g & _ & Hd7 & He7' & Hc7').
  change (codes "(") with [40%N] in *.
  change (codes ")**") with [41%N; 42%N; 42%N] in *.
  cbn [endIndex captures length app] in *.
  unfold atEol in Heol. rewrite orb_false_r in Heol.
  apply Nat.eqb_eq in Heol.
  exists sp, L, sp2, (endIndex x6).
  split; [by rewrite Hd1, Hd2, Hd3, Hd4, Hd5, Hd6|].
  split; [done|]. split; [done|]. split; [done|].
  rewrite Hc7, Hc7', Hc6, Hc5, Hc4, Hc3, Hc2, Hc1.
  by rewrite <- He7, Heol.
Qed.

Lemma explanationRegex_complete (q : nat) (sp tail : jsstring) (L : N) :
  drop q s = marker ++ sp ++ 40%N :: L :: 41%N :: 42%N :: 42%N :: tail ->
  Forall (fun c => isSpace c = true) sp -> isABCD L = true ->
  exists y, matches (pattern explanationRegex) (MState q ∅) y.
Proof.
  intros Hd Hsp HL. rewrite explanationRegex_parts.
  assert (Hq : q <= length s).
  { destruct (le_lt_dec q (length s)) as [H|H]; [done|].
    rewrite drop_ge in Hd by lia. discriminate Hd. }
  destruct (drop_app_index _ _ _ _ Hq Hd) as [H1 Hb1].
  destruct (drop_app_index _ _ _ _ Hb1 H1) as [H2 Hb2].
  pose proof (drop_S_tail _ _ _ _ H2) as H3.
  pose proof (drop_S_tail _ _ _ _ H3) as H4.
  pose proof (drop_length_le _ _ _ _ H4) as Hb4.
  destruct (drop_app_index _ [41%N; 42%N; 42%N] tail _
              (Nat.lt_le_incl _ _ Hb4) H4) as [H5 Hb5].
  change (length marker) with 17 in *. cbn [length] in *.
  set (u := q + 17 + length sp) in *.
  assert (Hlen : S (S u) + 3 + length tail = length s).
  { pose proof (f_equal length H5) as Hl. rewrite length_drop in Hl. lia. }
  exists (MState (length s) {[1 := (S (S u) + 3, length s)]}).
  exists (MState (q + 17) ∅). split.
  { eapply (sem_Lit_to s false "**Correct Answer:"); [exact Hd|done|done]. }
  exists (MState u ∅). split.
  { eapply sem_Star_Char_to; [exact Hsp|exact H1|done|done]. }
  exists (MState (S u) ∅). split.
  { eapply (sem_Lit_to s false "("); [exact H2|simpl; lia|done]. }
  exists (MState (S (S u)) ∅). split.
  { eapply sem_Char_to; [exact HL|exact H3|done|done]. }
  exists (MState (S (S u) + 3) ∅). split.
  { eapply (sem_Lit_to s false ")**"); [exact H4|reflexivity|reflexivity]. }
  exists (MState (S (S u) + 3) ∅). split.
  { apply rtc_refl. }
  exists (MState (length s) {[1 := (S (S u) + 3, length s)]}). split.
  { exists (MState (length s) ∅). split; [|done].
    eapply (sem_Star_Char_to s false true isAny tail _ _ []);
      [|by rewrite app_nil_r| |done].
    - by apply Forall_forall.
    - simpl. lia. }
  eexists. split; [|reflexivity]. split; [|reflexivity].
  unfold atEol. simpl. by rewrite Nat.eqb_refl.
Qed.

Lemma no_marker_no_answer (q : nat) :
  startsWith marker (drop q s) = false ->
  matchAt s false (pattern correctAnswerRegex) q = None
  /\ matchAt s false (pattern explanationRegex) q = None.
Proof.
  intros Hn. split.
  - destruct (matchAt _ _ _ _) as [y|] eqn:E; [|done].
    apply matchAt_sem, correctAnswerRegex_sound in E as (sp & L & tl & Hd & _).
    by rewrite Hd, startsWith_app in Hn.
  - destruct (matchAt _ _ _ _) as [y|] eqn:E; [|done].
    apply matchAt_sem, explanationRegex_sound in E
      as (sp & L & sp2 & e & Hd & _).
    by rewrite Hd, startsWith_app in Hn.
Qed.
End Marker.

(** ** Trimming and white space *)

Lemma trimStart_all_spaces (s : jsstring) :
  Forall (fun c => isSpace c = true) s -> trimStart s = [].
Proof.
  induction 1 as [|c s Hc _ IH]; [done|]. simpl. by rewrite Hc.
Qed.

Lemma trimStart_spaces_l (sp x : jsstring) :
  Forall (fun c => isSpace c = true) sp -> trimStart (sp ++ x) = trimStart x.
Proof.
  induction 1 as [|c sp Hc _ IH]; [done|]. simpl. by rewrite Hc.
Qed.

Lemma trimStart_spaces_r (x sp : jsstring) :
  Forall (fun c => isSpace c = true) sp ->
  trimStart (x ++ sp) = trimStart x ++ sp
  \/ (trimStart (x ++ sp) = [] /\ trimStart x = []).
Proof.
  intros Hsp. induction x as [|c x IH]; simpl.
  - right. by rewrite trimStart_all_spaces.
  - destruct (isSpace c); [exact IH | by left].
Qed.

Lemma trimEnd_spaces_r (x sp : jsstring) :
  Forall (fun c => isSpace c = true) sp -> trimEnd (x ++ sp) = trimEnd x.
Proof.
  intros Hsp. unfold trimEnd. rewrite rev_app_distr.
  rewrite trimStart_spaces_l; [done|]. by apply Forall_rev.
Qed.

Lemma trim_spaces_l (sp x : jsstring) :
  Forall (fun c => isSpace c = true) sp -> trim (sp ++ x) = trim x.
Proof. intros Hsp. unfold trim. by rewrite trimStart_spaces_l. Qed.

Lemma trim_spaces_r (x sp : jsstring) :
  Forall (fun c => isSpace c = true) sp -> trim (x ++ sp) = trim x.
Proof.
  intros Hsp. unfold trim.
  destruct (trimStart_spaces_r x sp Hsp) as [->|[-> ->]]; [|done].
  by apply trimEnd_spaces_r.
Qed.

(** ** Where the answer marker is in a written block *)

Section NoMarker.
Local Abbreviation marker := (codes "**Correct Answer:").
Local Abbreviation noMarker x rest :=
  (forall k, k < length x -> startsWith marker (drop k x ++ rest) = false).

Lemma noMarker_cons (c : N) (x rest : jsstring) :
  startsWith marker (c :: x ++ rest) = false ->
  noMarker x rest -> noMarker (c :: x) rest.
Proof.
  intros Hc Hx [|k] Hk; [exact Hc|]. apply Hx. simpl in Hk. lia.
Qed.

Lemma noMarker_app (x y rest : jsstring) :
  noMarker x (y ++ rest) -> noMarker y rest -> noMarker (x ++ y) rest.
Proof.
  intros Hx Hy k Hk. rewrite length_app in Hk.
  destruct (le_lt_dec (length x) k) as [Hge|Hlt].
  - rewrite drop_app_ge by done. apply Hy. lia.
  - rewrite drop_app_le by lia. rewrite <- app_assoc. by apply Hx.
Qed.

Lemma noMarker_plain (x rest : jsstring) :
  Forall (fun c => c <> 42%N) x -> noMarker x rest.
Proof.
  induction 1 as [|c x Hc _ IH]; [simpl; lia|].
  apply noMarker_cons; [|exact IH].
  cbn [codes startsWith]. apply N.eqb_neq in Hc.
  rewrite N.eqb_sym in Hc. change (N_of_ascii "*") with 42%N.
  by rewrite Hc.
Qed.

Lemma startsWith_key (key p rest : jsstring) :
  Forall (fun c => c <> 42%N) key ->
  startsWith key p = false ->
  startsWith key (p ++ 42%N :: rest) = false.
Proof.
  revert p. induction key as [|a key IH]; intros p Hkey Hp; [done|].
  apply Forall_cons in Hkey as [Ha Hkey].
  destruct p as [|c p]; simpl in *.
  - apply N.eqb_neq in Ha. by rewrite Ha.
  - destruct (a =? c)%N; [|done]. simpl in *. by apply IH.
Qed.

Lemma noMarker_head (b : Block) (rest : jsstring) :
  goodBlock b = true -> endsLine rest -> noMarker (writeHead b) rest.
Proof.
  intros Hb Hrest.
  destruct (goodBlock_facts b Hb)
    as ((d & ds & Hn & Hd & Hds) & Hp & Hpl & Hkey & _).
  assert (Hstar : Forall (fun c => c <> 42%N) (prompt b)).
  { eapply Forall_impl; [exact Hpl|]. apply isPlain_star. }
  unfold writeHead. apply noMarker_app.
  { apply noMarker_plain. rewrite Hn. apply Forall_cons. split.
    - intros ->. discriminate Hd.
    - eapply Forall_impl; [exact Hds|]. intros c Hc ->. discriminate Hc. }
  change (codes ". **") with ([46%N; 32%N] ++ [42%N; 42%N]).
  rewrite <- app_assoc. apply noMarker_app.
  { apply noMarker_plain. by repeat constructor. }
  cbn [app]. apply noMarker_cons.
  { change (startsWith (codes "Correct Answer:")
              ((prompt b ++ codes "**") ++ rest) = false).
    rewrite <- app_assoc. apply startsWith_key; [|exact Hkey].
    by repeat (constructor; [done|]). }
  apply noMarker_cons.
  { destruct (prompt b) as [|c p]; [done|].
    apply Forall_cons in Hstar as [Hc _].
    cbn [codes startsWith app]. change (N_of_ascii "*") with 42%N.
    apply N.eqb_neq in Hc. rewrite N.eqb_sym in Hc. by rewrite Hc. }
  apply noMarker_app; [by apply noMarker_plain|].
  apply noMarker_cons.
  { destruct rest as [|c rest]; [done|]. simpl in Hrest.
    cbn [codes startsWith app]. change (N_of_ascii "*") with 42%N.
    change (N_of_ascii "C") with 67%N.
    replace (67 =? c)%N with false; [done|].
    symmetry. apply N.eqb_neq. intros <-. discriminate Hrest. }
  apply noMarker_cons; [|simpl; lia].
  destruct rest as [|c rest]; [done|]. simpl in Hrest.
  cbn [codes startsWith app]. change (N_of_ascii "*") with 42%N.
  replace (42 =? c)%N with false; [done|].
  symmetry. apply N.eqb_neq. intros <-. discriminate Hrest.
Qed.

Lemma writeOptions_no_star (os : list OptionLine) :
  Forall (fun o => goodOption o = true) os ->
  Forall (fun c => c <> 42%N) (writeOptions os).
Proof.
  induction 1 as [|o os Ho _ IH]; [done|].
  rewrite writeOptions_cons. apply Forall_cons. split; [done|].
  apply Forall_app. split; [|exact IH].
  destruct (goodOption_facts o Ho) as (Hind & HL & _ & Hpl & _).
  rewrite writeOption_parts. apply Forall_app. split.
  - eapply Forall_impl; [exact Hind|]. intros c Hc ->. discriminate Hc.
  - apply Forall_cons. split; [done|].
    apply Forall_cons. split; [intros E; rewrite E in HL; discriminate HL|].
    apply Forall_cons. split; [done|].
    apply Forall_cons. split; [done|].
    eapply Forall_impl; [exact Hpl|]. apply isPlain_star.
Qed.

(** Before the answer line of a written block nothing starts as the
    answer marker does. *)
Lemma noMarker_before_answer (b : Block) (a : AnswerLine) (rest : jsstring) :
  goodBlock b = true -> answerLine b = Some a ->
  noMarker (writeHead b ++ writeOptions (optionLines b) ++ 10%N
            :: answerIndent a) rest.
Proof.
  intros Hb Ha.
  destruct (goodBlock_facts b Hb) as (_ & _ & _ & _ & Hos & Hga & _).
  rewrite Ha in Hga. apply goodAnswer_facts in Hga as (Hind & _).
  apply noMarker_app.
  - apply noMarker_head; [exact Hb|].
    rewrite <- app_assoc. by apply endsLine_writeOptions.
  - apply noMarker_plain. apply Forall_app. split.
    + by apply writeOptions_no_star.
    + apply Forall_cons. split; [done|].
      eapply Forall_impl; [exact Hind|]. intros c Hc ->. discriminate Hc.
Qed.

Lemma noMarker_without_answer (b : Block) :
  goodBlock b = true -> answerLine b = None ->
  forall k, startsWith marker (drop k (writeBlock b)) = false.
Proof.
  intros Hb Ha k.
  destruct (goodBlock_facts b Hb) as (_ & _ & _ & _ & Hos & _ & Ht).
  apply goodTrailer_facts in Ht as [Ht Hend].
  destruct (le_lt_dec (length (writeBlock b)) k) as [Hge|Hlt].
  { by rewrite drop_ge. }
  rewrite <- (app_nil_r (drop k (writeBlock b))).
  revert k Hlt. unfold writeBlock. rewrite Ha. cbn [writeAnswerLine app].
  apply noMarker_app.
  - apply noMarker_head; [exact Hb|].
    rewrite app_nil_r. by apply endsLine_writeOptions.
  - apply noMarker_plain. apply Forall_app. split.
    + by apply writeOptions_no_star.
    + eapply Forall_impl; [exact Ht|]. intros c Hc ->. discriminate Hc.
Qed.
End NoMarker.

Lemma exec_first (re : RegExp) (s : jsstring) (q0 : nat) (y : mstate) :
  (forall q, q < q0 -> matchAt s (flag_m re) (pattern re) q = None) ->
  matchAt s (flag_m re) (pattern re) q0 = Some y ->
  q0 <= length s ->
  exec re s 0 = Some (MkMatch s q0 (endIndex y) (captures y)).
Proof.
  intros Hnone Hy Hq0.
  rewrite (exec_skip_to re s q0 Hq0 q0 0); [by apply exec_at|lia|].
  intros q Hq. apply Hnone. lia.
Qed.

(** The text of a written block from its answer marker on. *)
Lemma writeBlock_answer (b : Block) (a : AnswerLine) :
  answerLine b = Some a ->
  writeBlock b
  = (writeHead b ++ writeOptions (optionLines b) ++ 10%N :: answerIndent a)
    ++ codes "**Correct Answer:" ++ [32%N] ++ 40%N :: answerLetter a
       :: 41%N :: 42%N :: 42%N :: answerRest a ++ trailer b.
Proof.
  intros Ha. unfold writeBlock. rewrite Ha.
  unfold writeAnswerLine, writeAnswer, nl. by rewrite <- !app_assoc.
Qed.

Section WrittenAnswer.
Variable b : Block.
Variable a : AnswerLine.
Hypothesis Hb : goodBlock b = true.
Hypothesis Ha : answerLine b = Some a.

Local Abbreviation s := (writeBlock b).
Local Abbreviation before :=
  (writeHead b ++ writeOptions (optionLines b) ++ 10%N :: answerIndent a).

Lemma drop_before :
  drop (length before) s
  = codes "**Correct Answer:" ++ [32%N] ++ 40%N :: answerLetter a
    :: 41%N :: 42%N :: 42%N :: answerRest a ++ trailer b.
Proof. by rewrite (writeBlock_answer b a Ha), drop_app_length. Qed.

Lemma none_before (q : nat) :
  q < length before ->
  startsWith (codes "**Correct Answer:") (drop q s) = false.
Proof.
  intros Hq. rewrite (writeBlock_answer b a Ha).
  rewrite drop_app_le by lia.
  by apply (noMarker_before_answer b a _ Hb Ha).
Qed.

Lemma before_le : length before <= length s.
Proof. rewrite (writeBlock_answer b a Ha), (length_app before). lia. Qed.

Lemma answerLetter_ok : isABCD (answerLetter a) = true.
Proof.
  destruct (goodBlock_facts b Hb) as (_ & _ & _ & _ & _ & Hga & _).
  rewrite Ha in Hga. by apply goodAnswer_facts in Hga as (_ & HL & _).
Qed.

(** The answer of a written block. *)
Lemma written_answer :
  exists m, jsmatch s correctAnswerRegex = Some m
            /\ group m 1 = Some [answerLetter a].
Proof.
  pose proof drop_before as Hd. pose proof before_le as Hle.
  pose proof answerLetter_ok as HL.
  destruct (proj2 (matchAt_is_Some s false (pattern correctAnswerRegex)
                     (length before) eq_refl Hle)) as [y Hy].
  { apply (correctAnswerRegex_complete s _ [32%N]
             (answerRest a ++ trailer b) (answerLetter a));
      [exact Hd | by repeat constructor | exact HL]. }
  exists (MkMatch s (length before) (endIndex y) (captures y)). split.
  { apply (exec_first correctAnswerRegex s (length before) y);
      [|exact Hy|exact Hle].
    intros q Hq. exact (proj1 (no_marker_no_answer s q (none_before q Hq))). }
  apply matchAt_sem, correctAnswerRegex_sound in Hy
    as (sp & L & tl & Hd' & Hsp & _ & Hcap).
  rewrite Hd in Hd'. apply app_inv_head in Hd'.
  apply (span_unique isSpace [32%N] sp) in Hd' as [<- Hd'];
    [|by repeat constructor|done..].
  injection Hd' as <- _. cbn [length] in Hcap.
  unfold group. cbn [m_captures m_input]. rewrite Hcap, lookup_singleton_eq.
  f_equal. unfold substring.
  replace (length before + 17 + 1 + 2 - (length before + 17 + 1 + 1))
    with 1 by lia.
  assert (Hd2 : drop (length before + 17 + 1 + 1) s
                = answerLetter a :: 41%N :: 42%N :: 42%N
                  :: answerRest a ++ trailer b).
  { rewrite <- !Nat.add_assoc. rewrite <- drop_drop, Hd. reflexivity. }
  by rewrite Hd2.
Qed.

(** The explanation of a written block. *)
Lemma written_explanation :
  exists m t, jsmatch s explanationRegex = Some m
              /\ group m 1 = Some t
              /\ trim t = trim (answerRest a).
Proof.
  pose proof drop_before as Hd. pose proof before_le as Hle.
  pose proof answerLetter_ok as HL.
  destruct (goodBlock_facts b Hb) as (_ & _ & _ & _ & _ & _ & Ht).
  apply goodTrailer_facts in Ht as [Ht _].
  destruct (proj2 (matchAt_is_Some s false (pattern explanationRegex)
                     (length before) eq_refl Hle)) as [y Hy].
  { apply (explanationRegex_complete s _ [32%N]
             (answerRest a ++ trailer b) (answerLetter a));
      [exact Hd | by repeat constructor | exact HL]. }
  destruct (explanationRegex_sound s _ _ (matchAt_sem _ _ _ _ _ Hy))
    as (sp & L & sp2 & e & Hd' & Hsp & _ & Hsp2 & Hcap).
  exists (MkMatch s (length before) (endIndex y) (captures y)), (drop e s).
  split.
  { apply (exec_first explanationRegex s (length before) y);
      [|exact Hy|exact Hle].
    intros q Hq. exact (proj2 (no_marker_no_answer s q (none_before q Hq))). }
  split.
  { unfold group. cbn [m_captures m_input]. rewrite Hcap, lookup_singleton_eq.
    f_equal. unfold substring. apply take_ge. rewrite length_drop. lia. }
  rewrite Hd in Hd'. apply app_inv_head in Hd'.
  apply (span_unique isSpace [32%N] sp) in Hd' as [<- Hd'];
    [|by repeat constructor|done..].
  injection Hd' as _ Hd'.
  rewrite <- (trim_spaces_l sp2 (drop e s) Hsp2), <- Hd'.
  by apply trim_spaces_r.
Qed.
End WrittenAnswer.

Lemma written_no_answer (b : Block) :
  goodBlock b = true -> answerLine b = None ->
  jsmatch (writeBlock b) correctAnswerRegex = None.
Proof.
  intros Hb Ha. unfold jsmatch. apply exec_none_from. intros q _.
  exact (proj1 (no_marker_no_answer _ q
                  (noMarker_without_answer b Hb Ha q))).
Qed.

(** The loop over the option matches, from their groups. *)
Lemma optionStep_written (ms : list MatchResult) :
  forall (os : list OptionLine) (opts : gmap (list N) (list N)) (n : nat),
    map (fun m => (group m 1, group m 2)) ms
    = map (fun o => (Some [letter o], Some (text o))) os ->
    fold_left optionStep ms (Some (opts, n))
    = Some (fold_left (fun opts o => <[[letter o] := trim (text o)]> opts)
                      os opts,
            n + length os).
Proof.
  induction ms as [|m ms IH]; intros [|o os] opts n H; try discriminate H.
  - simpl. by rewrite Nat.add_0_r.
  - injection H as H1 H2 H. cbn [fold_left optionStep]. rewrite H1, H2.
    rewrite (IH os _ _ H). cbn [length]. do 2 f_equal. lia.
Qed.

(** What the callback makes of a written block. *)
Lemma parseBlock_written (b : Block) (index : nat) :
  goodBlock b = true ->
  parseBlock (writeBlock b) index = recordOf b index.
Proof.
  intros Hb. unfold parseBlock, recordOf.
  destruct (written_question b Hb) as (qm & -> & ->).
  rewrite (optionStep_written _ _ _ _ (written_optionMatches b Hb)).
  cbn [Nat.add]. fold (writtenOptions (optionLines b)).
  destruct (answerLine b) as [a|] eqn:Ha.
  - destruct (length (optionLines b) =? 4); cbn [negb]; [|done].
    destruct (written_answer b a Hb Ha) as (cm & -> & ->).
    destruct (written_explanation b a Hb Ha) as (em & t & -> & -> & ->).
    done.
  - rewrite (written_no_answer b Hb Ha).
    by destruct (negb _).
Qed.

(** ** Cutting a written quiz into its blocks *)

Lemma splitLoop_skip (re : RegExp) (s : jsstring) (p : nat) :
  forall n q fuel,
    (forall k, q <= k < q + n ->
               matchAt s (flag_m re) (pattern re) k = None) ->
    q + n <= length s ->
    splitLoop (n + fuel) re s p q = splitLoop fuel re s p (q + n).
Proof.
  induction n as [|n IH]; intros q fuel Hnone Hle.
  - by rewrite Nat.add_0_r.
  - cbn [Nat.add splitLoop].
    destruct (Nat.ltb_spec q (length s)); [|lia].
    rewrite Hnone by lia.
    rewrite IH; [f_equal; lia| |lia].
    intros k Hk. apply Hnone. lia.
Qed.

Lemma splitLoop_cut (re : RegExp) (s : jsstring) (p q fuel : nat) (y : mstate) :
  matchAt s (flag_m re) (pattern re) q = Some y ->
  endIndex y = S q -> p <= q -> q < length s ->
  splitLoop (S fuel) re s p q
  = substring s p q :: splitLoop fuel re s (S q) (S q).
Proof.
  intros Hy He Hp Hq. cbn [splitLoop].
  destruct (Nat.ltb_spec q (length s)); [|lia]. rewrite Hy, He.
  rewrite Nat.min_l by lia.
  destruct (Nat.eqb_spec (S q) p); [lia|done].
Qed.

Lemma splitLoop_end (re : RegExp) (s : jsstring) (p fuel : nat) :
  splitLoop fuel re s p (length s) = [substring s p (length s)].
Proof.
  destruct fuel; [done|]. cbn [splitLoop].
  by rewrite Nat.ltb_irrefl.
Qed.

(** A text that starts with a digit. *)
Local Abbreviation startsDigit t :=
  (match t with c :: _ => isDigit c = true | [] => False end).

Lemma matchAt_lookahead (s : jsstring) (mm : bool) (p : N -> bool)
    (r : regex) (q : nat) :
  matchAt s mm (Seq (Char p) (Seq (Lookahead r) Empty)) q
  = match s !! q with
    | Some c =>
        if p c then
          match rmatch s mm r Some (MState (S q) ∅) with
          | Some y => Some (MState (S q) (captures y))
          | None => None
          end
        else None
    | None => None
    end.
Proof. reflexivity. Qed.

Lemma questionSplitter_parts :
  pattern questionSplitter
  = Seq (Char (isChar "010")) (Seq (Lookahead numbered) Empty).
Proof. reflexivity. Qed.

Lemma splitter_sound (s : jsstring) (q : nat) (y : mstate) :
  matchAt s false (pattern questionSplitter) q = Some y ->
  exists rest, drop q s = 10%N :: rest /\ startsDigit rest.
Proof.
  intros H. apply matchAt_sem in H. rewrite questionSplitter_parts in H.
  destruct H as (x1 & H1 & x2 & (y' & H2 & ->) & ->).
  apply sem_Char_state in H1 as (c & Hc & Hd & He & _).
  apply numbered_sound in H2 as (d & ds & w & Hdig & _ & _ & Hd2 & _).
  unfold isChar in Hc. apply N.eqb_eq in Hc. subst c.
  cbn [endIndex] in *. exists (drop (endIndex x1) s). split; [exact Hd|].
  by rewrite Hd2.
Qed.

Lemma splitter_complete (s : jsstring) (q : nat) (d w : N)
    (ds tl : jsstring) :
  drop q s = 10%N :: d :: ds ++ 46%N :: w :: 42%N :: 42%N :: tl ->
  isDigit d = true -> Forall (fun c => isDigit c = true) ds ->
  isSpace w = true ->
  exists y, matchAt s false (pattern questionSplitter) q = Some y
            /\ endIndex y = S q.
Proof.
  intros Hd Hdig Hds Hw. rewrite questionSplitter_parts, matchAt_lookahead.
  rewrite lookup_head_drop, Hd.
  change (isChar "010" 10%N) with true. cbv iota.
  pose proof (drop_length_le _ _ _ _ Hd) as Hq.
  pose proof (drop_S_tail _ _ _ _ Hd) as Hd1.
  destruct (rmatch_complete s false numbered eq_refl Some (MState (S q) ∅)
              (MState (S q + 1 + length ds + 4) ∅)) as [y Hy].
  - simpl. lia.
  - by eapply (numbered_complete s false _ _ d w ds).
  - eauto.
  - rewrite Hy. by eexists.
Qed.

(** No line break of a text is followed by a digit. *)
Local Abbreviation noCut x rest :=
  (forall k, k < length x ->
     forall t, drop k x ++ rest = 10%N :: t -> ~ startsDigit t).

Lemma noCut_cons (c : N) (x rest : jsstring) :
  (c = 10%N -> ~ startsDigit (x ++ rest)) ->
  noCut x rest -> noCut (c :: x) rest.
Proof.
  intros Hc Hx [|k] Hk t Ht.
  - simpl in Ht. injection Ht as -> <-. by apply Hc.
  - simpl in Hk. apply (Hx k); [lia | exact Ht].
Qed.

Lemma noCut_app (x y rest : jsstring) :
  noCut x (y ++ rest) -> noCut y rest -> noCut (x ++ y) rest.
Proof.
  intros Hx Hy k Hk t. rewrite length_app in Hk.
  destruct (le_lt_dec (length x) k) as [Hge|Hlt].
  - rewrite drop_app_ge by done. apply Hy. lia.
  - rewrite drop_app_le by lia. rewrite <- app_assoc. by apply Hx.
Qed.

Lemma noCut_line (x rest : jsstring) :
  Forall (fun c => isLineTerminator c = false) x -> noCut x rest.
Proof.
  induction 1 as [|c x Hc _ IH]; [simpl; lia|].
  apply noCut_cons; [|exact IH]. intros ->. discriminate Hc.
Qed.

Lemma noCut_spaces (x rest : jsstring) :
  Forall (fun c => isSpace c = true) x -> ~ startsDigit rest ->
  noCut x rest.
Proof.
  intros Hx Hrest. induction Hx as [|c x Hc Hx IH]; [simpl; lia|].
  apply noCut_cons; [|exact IH]. intros _.
  destruct Hx as [|c' x Hc' _]; [exact Hrest|].
  simpl. intros Hd. by rewrite (isDigit_isSpace _ Hd) in Hc'.
Qed.

Lemma noCut_options (os : list OptionLine) (rest : jsstring) :
  Forall (fun o => goodOption o = true) os ->
  noCut (writeOptions os) rest.
Proof.
  induction 1 as [|o os Ho _ IH]; [simpl; lia|].
  rewrite writeOptions_cons.
  destruct (goodOption_facts o Ho) as (Hind & _ & _ & _ & Hline).
  apply noCut_cons.
  - intros _. rewrite writeOption_parts.
    destruct (indent o) as [|c ind]; [simpl; discriminate|].
    apply Forall_cons in Hind as [Hc _]. simpl.
    intros Hd. by rewrite (isDigit_isSpace _ Hd) in Hc.
  - apply noCut_app; [by apply noCut_line | exact IH].
Qed.

Lemma noCut_block (b : Block) (rest : jsstring) :
  goodBlock b = true -> ~ startsDigit rest ->
  noCut (writeBlock b) rest.
Proof.
  intros Hb Hrest.
  destruct (goodBlock_facts b Hb) as (_ & _ & _ & _ & Hos & Hga & Ht).
  apply goodTrailer_facts in Ht as [Ht _].
  unfold writeBlock. apply noCut_app; [by apply noCut_line, writeHead_line|].
  apply noCut_app; [by apply noCut_options|].
  apply noCut_app; [|by apply noCut_spaces].
  destruct (answerLine b) as [a|]; [|simpl; lia].
  apply goodAnswer_facts in Hga as (Hind & _ & _ & Hline).
  cbn [writeAnswerLine nl app]. apply noCut_cons.
  - intros _. unfold writeAnswer.
    destruct (answerIndent a) as [|c ind]; [simpl; discriminate|].
    apply Forall_cons in Hind as [Hc _]. simpl.
    intros Hd. by rewrite (isDigit_isSpace _ Hd) in Hc.
  - by apply noCut_line.
Qed.

Lemma writeBlock_nonempty (b : Block) :
  goodBlock b = true -> writeBlock b <> [].
Proof.
  intros Hb. destruct (goodBlock_facts b Hb) as ((d & ds & Hn & _) & _).
  by rewrite (writeBlock_head b d ds Hn).
Qed.

Lemma writeQuiz_head (b : Block) (bs : list Block) :
  goodBlock b = true ->
  exists d ds tl,
    isDigit d = true /\ Forall (fun c => isDigit c = true) ds /\
    writeQuiz (b :: bs) = d :: ds ++ 46%N :: 32%N :: 42%N :: 42%N :: tl.
Proof.
  intros Hb. destruct (goodBlock_facts b Hb) as ((d & ds & Hn & Hd & Hds) & _).
  assert (E : exists X, writeQuiz (b :: bs) = writeBlock b ++ X).
  { unfold writeQuiz. cbn [map]. destruct (map writeBlock bs) as [|x l].
    - exists []. cbn [join]. by rewrite app_nil_r.
    - eexists. by rewrite join_cons. }
  destruct E as [X ->]. rewrite (writeBlock_head b d ds Hn).
  exists d, ds. eexists. split; [done|]. split; [done|].
  cbn [app]. rewrite <- app_assoc. reflexivity.
Qed.

Lemma splitLoop_written (s : jsstring) :
  forall (bs : list Block) (pre : jsstring) (fuel : nat),
    bs <> [] -> Forall (fun b => goodBlock b = true) bs ->
    s = pre ++ writeQuiz bs ->
    2 * (length s - length pre) < fuel ->
    splitLoop fuel questionSplitter s (length pre) (length pre)
    = map writeBlock bs.
Proof.
  induction bs as [|b bs IH]; intros pre fuel Hne Hgood Hs Hfuel; [done|].
  apply Forall_cons in Hgood as [Hb Hgood].
  set (F := 2 * length s + 2).
  assert (Hnone : forall rest, s = pre ++ (writeBlock b) ++ rest -> ~ startsDigit rest ->
            forall k, length pre <= k < length pre + length (writeBlock b) ->
              matchAt s (flag_m questionSplitter) (pattern questionSplitter) k
              = None).
  { intros rest Hs' Hrest k Hk.
    destruct (matchAt _ _ _ _) as [y|] eqn:E; [|done].
    apply splitter_sound in E as (t & Hd & Ht). exfalso.
    rewrite Hs' in Hd. rewrite drop_app_ge in Hd by lia.
    rewrite drop_app_le in Hd by lia.
    assert (Hk' : k - length pre < length (writeBlock b))
      by lia.
    by apply (noCut_block b rest Hb Hrest (k - length pre) Hk' t). }
  rewrite (splitLoop_fuel questionSplitter s fuel (length (writeBlock b) + S F));
    [| rewrite Nat.eqb_refl; cbv iota; lia
     | rewrite Nat.eqb_refl; cbv iota; unfold F; lia].
  destruct bs as [|b' bs].
  - unfold writeQuiz in Hs. cbn [map join] in Hs.
    rewrite splitLoop_skip.
    + replace (length pre + length (writeBlock b)) with (length s)
        by (rewrite Hs, length_app; lia).
      rewrite splitLoop_end. cbn [map]. f_equal. unfold substring.
      rewrite Hs, drop_app_length. apply take_ge.
      rewrite length_app. lia.
    + apply (Hnone []); [by rewrite app_nil_r | by intros []].
    + rewrite Hs, length_app. lia.
  - unfold writeQuiz in Hs. cbn [map] in Hs.
    rewrite join_cons in Hs by done.
    fold (writeQuiz (b' :: bs)) in Hs. cbn [nl app] in Hs.
    assert (Hb' : goodBlock b' = true) by (by apply Forall_cons in Hgood as [? _]).
    destruct (writeQuiz_head b' bs Hb') as (d & ds & tl & Hd & Hds & Htl).
    rewrite splitLoop_skip.
    + destruct (splitter_complete s (length pre + length (writeBlock b))
                  d 32%N ds tl) as (y & Hy & He); [|done..|].
      { rewrite Hs, app_assoc, <- length_app, drop_app_length.
        f_equal. exact Htl. }
      rewrite (splitLoop_cut questionSplitter s _ _ F y Hy He);
        [|lia|rewrite Hs, !length_app; simpl; lia].
      cbn [map]. f_equal.
      * unfold substring. rewrite Hs, drop_app_length.
        replace (length pre + length (writeBlock b) - length pre) with (length (writeBlock b)) by lia.
        by rewrite take_app_length.
      * replace (S (length pre + length (writeBlock b)))
          with (length (pre ++ (writeBlock b) ++ [10%N]))
          by (rewrite !length_app; simpl; lia).
        apply IH; [done|exact Hgood| |unfold F; lia].
        rewrite Hs. by rewrite <- !app_assoc.
    + apply (Hnone (10%N :: writeQuiz (b' :: bs))); [exact Hs|].
      simpl. discriminate.
    + rewrite Hs, !length_app. simpl. lia.
Qed.

Lemma trimStart_app_nonspace (a b : jsstring) (c : N) :
  isSpace c = false -> trimStart (a ++ c :: b) = trimStart a ++ c :: b.
Proof.
  intros Hc. induction a as [|x a IH]; simpl; [by rewrite Hc|].
  by destruct (isSpace x).
Qed.

Lemma trimEnd_keep (x y : jsstring) (c : N) :
  isSpace c = false -> trimEnd (x ++ c :: y) = x ++ c :: trimEnd y.
Proof.
  intros Hc. unfold trimEnd. rewrite rev_app_distr. cbn [rev].
  rewrite <- app_assoc. cbn [app].
  rewrite trimStart_app_nonspace by done.
  rewrite rev_app_distr. cbn [rev]. rewrite rev_involutive.
  by rewrite <- app_assoc.
Qed.

Lemma blockHead_parts :
  pattern blockHead = Seq Bol (Seq numbered Empty).
Proof. reflexivity. Qed.

(** A written block passes the filter of [questionBlocks]. *)
Lemma blockHead_written (b : Block) :
  goodBlock b = true ->
  truthy (jsmatch (trim (writeBlock b)) blockHead) = true.
Proof.
  intros Hb. destruct (goodBlock_facts b Hb) as ((d & ds & Hn & Hd & Hds) & _).
  assert (Ht : exists tl, trim (writeBlock b)
                          = d :: ds ++ 46%N :: 32%N :: 42%N :: 42%N :: tl).
  { rewrite (writeBlock_head b d ds Hn). unfold trim.
    cbn [trimStart]. rewrite (isDigit_isSpace d Hd).
    set (R := prompt b ++ _).
    assert (E : d :: ds ++ 46%N :: 32%N :: 42%N :: 42%N :: R
                = (d :: ds ++ [46%N; 32%N; 42%N]) ++ 42%N :: R).
    { cbn [app]. by rewrite <- app_assoc. }
    rewrite E, trimEnd_keep by done.
    exists (trimEnd R). cbn [app]. by rewrite <- app_assoc. }
  destruct Ht as [tl Ht]. set (t := trim (writeBlock b)) in *.
  destruct (proj2 (matchAt_is_Some t false (pattern blockHead) 0 eq_refl
                     (Nat.le_0_l _))) as [y Hy].
  { rewrite blockHead_parts. eexists. exists (MState 0 ∅). split; [done|].
    eexists. split; [|reflexivity].
    eapply (numbered_complete t false (MState 0 ∅)
              (MState (0 + 1 + length ds + 4) ∅) d 32%N ds tl);
      [done..|by rewrite drop_0|done|done]. }
  unfold jsmatch. by rewrite (exec_at blockHead t 0 y Hy (Nat.le_0_l _)).
Qed.

Lemma filter_all {A} (f : A -> bool) (l : list A) :
  Forall (fun x => f x = true) l -> List.filter f l = l.
Proof.
  induction 1 as [|x l Hx _ IH]; [done|]. simpl. by rewrite Hx, IH.
Qed.

(** The blocks the extractor cuts out of a written quiz are the written
    blocks. *)
Lemma questionBlocks_written (bs : list Block) :
  Forall (fun b => goodBlock b = true) bs ->
  questionBlocks (writeQuiz bs) = map writeBlock bs.
Proof.
  intros Hgood. unfold questionBlocks.
  destruct bs as [|b bs]; [reflexivity|].
  assert (Hsplit : split (writeQuiz (b :: bs)) questionSplitter
                   = map writeBlock (b :: bs)).
  { unfold split.
    destruct (writeQuiz (b :: bs)) as [|c s] eqn:E.
    - apply Forall_cons in Hgood as [Hb _].
      destruct (writeQuiz_head b bs Hb) as (d & ds & tl & _ & _ & Htl).
      rewrite E in Htl. discriminate Htl.
    - rewrite <- E.
      apply (splitLoop_written (writeQuiz (b :: bs)) (b :: bs) []);
        [done | exact Hgood | done | simpl; lia]. }
  rewrite Hsplit. apply filter_all.
  apply Forall_forall. intros x Hx.
  apply list_elem_of_fmap in Hx as (b0 & -> & Hb0).
  apply blockHead_written.
  by apply (proj1 (Forall_forall _ _) Hgood).
Qed.

Lemma forEachPush_map {A B C} (f : B -> nat -> option C) (g : A -> B)
    (h : A -> nat -> option C) (l : list A) :
  (forall x i, x ∈ l -> f (g x) i = h x i) ->
  forall index acc,
    forEachPush f (map g l) index acc = forEachPush h l index acc.
Proof.
  induction l as [|x l IH]; intros H index acc; [done|].
  cbn [map forEachPush]. rewrite (H x index) by apply list_elem_of_here.
  apply IH. intros y i Hy. apply H. by apply list_elem_of_further.
Qed.

(** What the extractor makes of a written quiz: the records of its
    blocks, each at its index. *)
Lemma parseMCQOutput_written (bs : list Block) :
  Forall (fun b => goodBlock b = true) bs ->
  parseMCQOutput (writeQuiz bs) = forEachPush recordOf bs 0 [].
Proof.
  intros Hgood. unfold parseMCQOutput.
  rewrite (questionBlocks_written bs Hgood).
  apply forEachPush_map. intros b i Hb.
  apply parseBlock_written. by apply (proj1 (Forall_forall _ _) Hgood).
Qed.

Lemma recordOf_kept (b : Block) (index : nat) :
  truthy (recordOf b index) = kept b.
Proof.
  unfold recordOf, kept.
  destruct (answerLine b); [|by rewrite andb_false_r].
  rewrite andb_true_r. by destruct (_ =? 4).
Qed.

Lemma specWellFormed_kept (b : Block) : specWellFormed b -> kept b = true.
Proof.
  intros [[a Ha] Hp]. unfold kept. rewrite Ha, andb_true_r.
  apply Nat.eqb_eq. apply Permutation_length in Hp.
  by rewrite length_map in Hp.
Qed.

Lemma writtenOptions_other (os : list OptionLine) (k : list N) :
  forall opts : gmap (list N) (list N),
    k ∉ map (fun o => [letter o]) os ->
    fold_left (fun opts o => <[[letter o] := trim (text o)]> opts) os opts
      !! k = opts !! k.
Proof.
  induction os as [|o os IH]; intros opts Hk; [done|].
  cbn [fold_left map] in *. apply not_elem_of_cons in Hk as [Hne Hk].
  rewrite IH by done. by rewrite lookup_insert_ne.
Qed.

(** Option lines with different letters do not overwrite one another. *)
Lemma writtenOptions_distinct (os : list OptionLine) :
  NoDup (map letter os) ->
  forall (opts : gmap (list N) (list N)) o, o ∈ os ->
    fold_left (fun opts o => <[[letter o] := trim (text o)]> opts) os opts
      !! [letter o] = Some (trim (text o)).
Proof.
  induction os as [|o1 os IH]; intros Hnd opts o Ho.
  - by apply elem_of_nil in Ho.
  - cbn [map] in Hnd. apply NoDup_cons in Hnd as [Hnew Hnd].
    cbn [fold_left]. apply elem_of_cons in Ho as [->|Ho].
    + rewrite writtenOptions_other; [by rewrite lookup_insert_eq|].
      intros Hin. apply Hnew.
      apply list_elem_of_fmap in Hin as (o' & [= ->] & Ho').
      apply list_elem_of_fmap. by exists o'.
    + by apply IH.
Qed.

Lemma specWellFormed_NoDup (b : Block) :
  specWellFormed b -> NoDup (map letter (optionLines b)).
Proof.
  intros [_ Hp]. rewrite Hp.
  repeat (apply NoDup_cons; split;
          [intros H;
           repeat (apply elem_of_cons in H as [H|H]; [discriminate H|]);
           by apply elem_of_nil in H|]).
  apply NoDup_nil_2.
Qed.

Lemma forEachPush_Some {A B} (f : A -> nat -> option B) (l : list A)
    (i : nat) (x : A) (y : B) :
  l !! i = Some x -> f x i = Some y -> y ∈ forEachPush f l 0 [].
Proof.
  intros Hl Hf. rewrite forEachPush_omap. cbn [app].
  apply list_elem_of_omap. exists (i, x). split; [|exact Hf].
  apply (list_elem_of_lookup_2 _ i). by rewrite (indexed_lookup l 0 i x Hl).
Qed.



End BlockGrammarFacts.

(** * The MCQ extractor *)

Section MCQExtractor.
Import MCQQuiz.

Lemma elem_of_letters (letter : jsstring) :
  letter ∈ letters <->
  letter = codes "A" \/ letter = codes "B" \/ letter = codes "C"
  \/ letter = codes "D".
Proof.
  unfold letters. rewrite !elem_of_cons, elem_of_nil. tauto.
Qed.

(** An option line captures one of the four letters, and a text. *)
Lemma optionRegex_groups (block : jsstring) (i : nat) (m : MatchResult) :
  exec optionRegex block i = Some m ->
  exists letter text,
    group m 1 = Some letter /\ letter ∈ letters /\ group m 2 = Some text.
Proof.
  intros H.
  destruct (exec_group _ _ _ 2 _ H eq_refl) as [text Htext].
  apply exec_Some in H as (Hin & _ & _ & Hsem).
  cbn [pattern optionRegex Cat foldr Lit] in Hsem.
  destruct Hsem as (x1 & _ & x2 & _ & x3 & _ & Hsem).
  apply sem_group_char in Hsem as (c & Hc & Hp & Hcap); [|reflexivity].
  simpl in Hcap, Hc.
  assert (H1 : group m 1 = Some [c]).
  { unfold group. by rewrite Hcap, Hin, (substring_one _ _ _ Hc). }
  exists [c], text. repeat split; [exact H1| |exact Htext].
  apply elem_of_letters, isABCD_letter, Hp.
Qed.

(** The answer marker captures one of the four letters. *)
Lemma correctAnswerRegex_group (block : jsstring) (m : MatchResult) :
  jsmatch block correctAnswerRegex = Some m ->
  exists letter, group m 1 = Some letter /\ letter ∈ letters.
Proof.
  unfold jsmatch. intros H.
  apply exec_Some in H as (Hin & _ & _ & Hsem).
  cbn [pattern correctAnswerRegex Cat foldr] in Hsem.
  destruct Hsem as (x1 & _ & x2 & _ & x3 & _ & Hsem).
  apply sem_group_char in Hsem as (c & Hc & Hp & Hcap); [|reflexivity].
  simpl in Hcap, Hc. exists [c]. split.
  - unfold group. by rewrite Hcap, Hin, (substring_one _ _ _ Hc).
  - apply elem_of_letters, isABCD_letter, Hp.
Qed.

Lemma optionMatches_groups (block : jsstring) (m : MatchResult) :
  m ∈ optionMatches block ->
  exists letter text,
    group m 1 = Some letter /\ letter ∈ letters /\ group m 2 = Some text.
Proof.
  intros H. apply execAll_elem in H as [i H].
  by eapply optionRegex_groups.
Qed.

(** The bound on the loop over the option lines is never reached. *)
Lemma optionMatches_fuel (block : jsstring) (fuel : nat) :
  length block < fuel ->
  execAll fuel optionRegex block 0 = optionMatches block.
Proof.
  intros H. unfold optionMatches.
  apply execAll_fuel; [vm_compute|..]; lia.
Qed.

Lemma dom_emptyOptions : dom emptyOptions = list_to_set letters.
Proof.
  unfold emptyOptions, letters. rewrite !dom_insert_L, dom_empty_L.
  set_solver.
Qed.

(** The loop over the option lines: it counts them all, writes only the
    four keys, and leaves under a key the text of its last line. *)
Lemma optionStep_fold (ms : list MatchResult) :
  (forall m, m ∈ ms ->
     exists letter text,
       group m 1 = Some letter /\ letter ∈ letters /\ group m 2 = Some text) ->
  forall (opts : gmap (list N) (list N)) (n : nat),
    list_to_set letters ⊆ dom opts ->
    exists opts',
      fold_left optionStep ms (Some (opts, n)) = Some (opts', n + length ms)
      /\ dom opts' = dom opts
      /\ forall letter,
           opts' !! letter = match lastText ms letter with
                             | Some t => Some t
                             | None => opts !! letter
                             end.
Proof.
  induction ms as [|m ms IH]; intros Hms opts n Hdom.
  - exists opts. simpl. rewrite Nat.add_0_r. auto.
  - destruct (Hms m) as (letter & text & H1 & Hl & H2); [by left|].
    cbn [fold_left optionStep]. rewrite H1, H2.
    destruct (IH (fun m' Hm' => Hms m' (list_elem_of_further _ _ _ Hm'))
                 (<[letter := trim text]> opts) (S n)) as (opts' & Hf & Hd & Hl').
    { rewrite dom_insert_L. by apply union_subseteq_r'. }
    exists opts'. split; [|split].
    + rewrite Hf. simpl. do 2 f_equal. lia.
    + rewrite Hd, dom_insert_L. apply subseteq_union_1_L.
      apply singleton_subseteq_l, Hdom. by apply elem_of_list_to_set.
    + intros l. rewrite Hl'. cbn [lastText].
      destruct (lastText ms l); [reflexivity|].
      rewrite H1, H2. destruct (decide (Some letter = Some l)) as [[= ->]|Hne].
      * by rewrite lookup_insert_eq.
      * rewrite lookup_insert_ne; [done | congruence].
Qed.

(** What the callback does with a block: nothing when one of its three
    checks fails, and otherwise it pushes a record that depends on the
    index through its [id] only. *)
Lemma parseBlock_cases (block : jsstring) :
  (passesChecks block = false /\ forall index, parseBlock block index = None)
  \/
  (passesChecks block = true /\
   length (optionMatches block) = 4 /\
   exists question opts correct expl,
     (forall index,
        parseBlock block index
        = Some (MkMCQQuestion (index + 1) question opts correct expl))
     /\ dom opts = list_to_set letters
     /\ (forall letter, letter ∈ letters ->
           opts !! letter = Some (optionText block letter))
     /\ correct ∈ letters).
Proof.
  unfold passesChecks, parseBlock.
  destruct (jsmatch block questionRegex) as [qm|] eqn:Hq; [|by left].
  destruct (exec_group _ _ _ 1 _ Hq eq_refl) as [g1 Hg1]. rewrite Hg1.
  destruct (optionStep_fold (optionMatches block)
              (optionMatches_groups block) emptyOptions 0)
    as (opts & Hf & Hd & Hl).
  { by rewrite dom_emptyOptions. }
  rewrite Hf. simpl.
  destruct (length (optionMatches block) =? 4) eqn:H4; [|by left].
  apply Nat.eqb_eq in H4.
  destruct (jsmatch block correctAnswerRegex) as [cm|] eqn:Hc; [|by left].
  destruct (correctAnswerRegex_group _ _ Hc) as (correct & Hg & Hin).
  rewrite Hg. right. split; [done|]. split; [done|].
  assert (Hopts : forall letter, letter ∈ letters ->
                    opts !! letter = Some (optionText block letter)).
  { intros l Hl0. rewrite Hl. unfold optionText.
    destruct (lastText (optionMatches block) l); [done|].
    apply elem_of_letters in Hl0 as [->|[->|[->| ->]]]; reflexivity. }
  rewrite dom_emptyOptions in Hd.
  destruct (jsmatch block explanationRegex) as [em|] eqn:He.
  - destruct (exec_group _ _ _ 1 _ He eq_refl) as [t Ht]. rewrite Ht.
    by exists (trim g1), opts, correct, (trim t).
  - by exists (trim g1), opts, correct, [].
Qed.

Lemma parseBlock_passes (block : jsstring) (index : nat) :
  is_Some (parseBlock block index) <-> passesChecks block = true.
Proof.
  destruct (parseBlock_cases block)
    as [[Hw Hp]|(Hw & _ & q & o & c & e & Hp & _)]; rewrite Hw, Hp.
  - split; [by intros [? ?] | done].
  - split; eauto.
Qed.

Lemma parseBlock_truthy (p : nat * jsstring) :
  truthy (callAt parseBlock p) = passesChecks p.2.
Proof.
  unfold callAt.
  destruct (parseBlock_cases p.2)
    as [[Hw Hp]|(Hw & _ & q & o & c & e & Hp & _)]; by rewrite Hw, Hp.
Qed.

Lemma parseBlock_id (block : jsstring) (index : nat) (q : MCQQuestion) :
  parseBlock block index = Some q -> id q = index + 1.
Proof.
  destruct (parseBlock_cases block)
    as [[Hw Hp]|(Hw & _ & q' & o & c & e & Hp & _)]; rewrite Hp; [done|].
  by intros [= <-].
Qed.

Lemma parseMCQOutput_omap (rawOutput : jsstring) :
  parseMCQOutput rawOutput
  = omap (callAt parseBlock) (indexed (questionBlocks rawOutput) 0).
Proof. unfold parseMCQOutput. by rewrite forEachPush_omap. Qed.

Lemma parseMCQOutput_elem (rawOutput : jsstring) (q : MCQQuestion) :
  q ∈ parseMCQOutput rawOutput ->
  exists block index,
    block ∈ questionBlocks rawOutput /\ parseBlock block index = Some q.
Proof.
  rewrite parseMCQOutput_omap. intros H.
  apply list_elem_of_lookup in H as [j H].
  apply omap_lookup_inv in H as (i & [index block] & Hi & Hp & _).
  exists block, index. split; [|exact Hp].
  apply list_elem_of_lookup_2 in Hi.
  unfold indexed in Hi. by apply elem_of_zip_r in Hi.
Qed.

(** *** The second version of the extractor *)

(** A line the full option pattern matches gives one of the four letters
    and a text. *)
Lemma optionLine_groups (line : jsstring) (m : MatchResult) :
  jsmatch line SampleMCQQuiz.optionLine = Some m ->
  exists letter text,
    group m 1 = Some letter /\ letter ∈ letters /\ group m 2 = Some text.
Proof.
  unfold jsmatch. intros H.
  destruct (exec_group _ _ _ 2 _ H eq_refl) as [text Htext].
  apply exec_Some in H as (Hin & _ & _ & Hsem).
  cbn [pattern SampleMCQQuiz.optionLine Cat foldr Lit] in Hsem.
  destruct Hsem as (x1 & _ & x2 & _ & Hsem).
  apply sem_group_char in Hsem as (c & Hc & Hp & Hcap); [|reflexivity].
  simpl in Hcap, Hc.
  assert (H1 : group m 1 = Some [c]).
  { unfold group. by rewrite Hcap, Hin, (substring_one _ _ _ Hc). }
  exists [c], text. repeat split; [exact H1| |exact Htext].
  apply elem_of_letters, isABCD_letter, Hp.
Qed.

(** The loop over the option lines writes only the four keys, and leaves
    under a key the text of its last full line. *)
Lemma optionLineStep_fold (lines : list jsstring) :
  forall opts : gmap (list N) (list N),
    list_to_set letters ⊆ dom opts ->
    exists opts',
      fold_left SampleMCQQuiz.optionLineStep lines (Some opts) = Some opts'
      /\ dom opts' = dom opts
      /\ forall letter,
           opts' !! letter
           = match SampleMCQQuiz.lastText lines letter with
             | Some t => Some t
             | None => opts !! letter
             end.
Proof.
  induction lines as [|line lines IH]; intros opts Hdom.
  - exists opts. auto.
  - cbn [fold_left SampleMCQQuiz.optionLineStep SampleMCQQuiz.lastText].
    destruct (jsmatch (trim line) SampleMCQQuiz.optionLine) as [m|] eqn:Hm.
    + destruct (optionLine_groups _ _ Hm) as (letter & text & H1 & Hl & H2).
      rewrite H1, H2.
      destruct (IH (<[letter := trim text]> opts)) as (opts' & Hf & Hd & Hl').
      { rewrite dom_insert_L. by apply union_subseteq_r'. }
      exists opts'. split; [exact Hf|]. split.
      * rewrite Hd, dom_insert_L. apply subseteq_union_1_L.
        apply singleton_subseteq_l, Hdom. by apply elem_of_list_to_set.
      * intros l. rewrite Hl'.
        destruct (SampleMCQQuiz.lastText lines l); [reflexivity|].
        destruct (decide (Some letter = Some l)) as [[= ->]|Hne].
        -- by rewrite lookup_insert_eq.
        -- rewrite lookup_insert_ne; [done | congruence].
    + destruct (IH opts Hdom) as (opts' & Hf & Hd & Hl').
      exists opts'. split; [exact Hf|]. split; [exact Hd|].
      intros l. rewrite Hl'. by destruct (SampleMCQQuiz.lastText lines l).
Qed.

Lemma sample_parseBlock_Some (block : jsstring) (index : nat)
    (q : MCQQuestion) :
  SampleMCQQuiz.parseBlock block index = Some q ->
  id q = index + 1 /\
  length (SampleMCQQuiz.optionLines block) = 4 /\
  dom (options q) = list_to_set letters /\
  (forall letter, letter ∈ letters ->
     options q !! letter = Some (SampleMCQQuiz.optionText block letter)).
Proof.
  unfold SampleMCQQuiz.parseBlock.
  destruct (jsmatch block questionRegex) as [qm|]; [|discriminate].
  destruct (group qm 1) as [g1|]; [|discriminate].
  destruct (length (SampleMCQQuiz.optionLines block) =? 4) eqn:H4;
    [|discriminate].
  apply Nat.eqb_eq in H4. simpl.
  destruct (optionLineStep_fold (SampleMCQQuiz.optionLines block) emptyOptions)
    as (opts & Hf & Hd & Hl).
  { by rewrite dom_emptyOptions. }
  rewrite Hf. rewrite dom_emptyOptions in Hd.
  assert (Hopts : forall letter, letter ∈ letters ->
            opts !! letter = Some (SampleMCQQuiz.optionText block letter)).
  { intros l Hl0. rewrite Hl. unfold SampleMCQQuiz.optionText.
    destruct (SampleMCQQuiz.lastText _ l); [done|].
    apply elem_of_letters in Hl0 as [->|[->|[->| ->]]]; reflexivity. }
  destruct (jsmatch block correctAnswerRegex) as [cm|]; [|discriminate].
  destruct (group cm 1) as [correct|]; [|discriminate].
  destruct (jsmatch block explanationRegex) as [em|].
  - destruct (group em 1); [|discriminate]. by intros [= <-].
  - by intros [= <-].
Qed.

Lemma sample_parseBlock_lines (block : jsstring) (index : nat) :
  length (SampleMCQQuiz.optionLines block) <> 4 ->
  SampleMCQQuiz.parseBlock block index = None.
Proof.
  intros H4. unfold SampleMCQQuiz.parseBlock.
  destruct (jsmatch block questionRegex) as [qm|]; [|done].
  destruct (group qm 1) as [g1|]; [|done].
  apply Nat.eqb_neq in H4. by rewrite H4.
Qed.

(** *** The options of a returned question *)

(** C1, as the code has it.  In both versions of the extractor, every
    question [parseMCQOutput] returns has options with exactly the four
    keys A, B, C and D, and a block with another number of option lines
    than four gives no question.

    In the first version the option lines of a block are the matches of
    the option pattern; a returned question comes from a block with four
    of them, and a key is mapped to the trimmed text of the last match
    with its letter, and to the empty text when there is none.

    In the second version the option lines, [SampleMCQQuiz.optionLines],
    are the lines that after trimming start with a letter in
    parentheses, whatever follows; a returned question comes from a
    block with four of them.  A text is written only by those of them
    that the full pattern matches after trimming (the letter in
    parentheses, one white space, a text): a key is mapped to the
    trimmed text of the last such line with its letter,
    [SampleMCQQuiz.optionText], and to the empty text when there is
    none, also when a counted line carries the letter
    ([counted_line_without_text]). *)
Theorem parsed_question_options (rawOutput : jsstring) :
  (forall q, q ∈ parseMCQOutput rawOutput ->
     dom (options q) = list_to_set letters /\
     exists block,
       block ∈ questionBlocks rawOutput /\
       length (optionMatches block) = 4 /\
       forall letter, letter ∈ letters ->
         options q !! letter = Some (optionText block letter))
  /\
  (forall block index,
     length (optionMatches block) <> 4 -> parseBlock block index = None)
  /\
  (forall q, q ∈ SampleMCQQuiz.parseMCQOutput rawOutput ->
     dom (options q) = list_to_set letters /\
     exists block,
       block ∈ SampleMCQQuiz.questionBlocks rawOutput /\
       length (SampleMCQQuiz.optionLines block) = 4 /\
       forall letter, letter ∈ letters ->
         options q !! letter = Some (SampleMCQQuiz.optionText block letter))
  /\
  (forall block index,
     length (SampleMCQQuiz.optionLines block) <> 4 ->
     SampleMCQQuiz.parseBlock block index = None).
Proof.
  split; [|split; [|split]].
  - intros q Hq. apply parseMCQOutput_elem in Hq as (block & index & Hb & Hp).
    destruct (parseBlock_cases block)
      as [[_ Hn]|(_ & H4 & qu & o & c & e & Hs & Hd & Ho & _)].
    + rewrite Hn in Hp. discriminate.
    + rewrite Hs in Hp. injection Hp as <-. simpl.
      split; [exact Hd|]. exists block. auto.
  - intros block index H4.
    destruct (parseBlock_cases block) as [[_ Hn]|(_ & H4' & _)];
      [apply Hn | contradiction].
  - intros q Hq. apply forEachPush_elem in Hq as (index & block & Hb & Hp).
    apply sample_parseBlock_Some in Hp as (_ & H4 & Hd & Ho).
    split; [exact Hd|]. exists block. auto.
  - apply sample_parseBlock_lines.
Qed.

Lemma parsed_question_options_witness :
  Examples.oneQuestionRecord ∈ parseMCQOutput Examples.oneQuestion /\
  dom (options Examples.oneQuestionRecord) = list_to_set letters /\
  exists block,
    block ∈ questionBlocks Examples.oneQuestion /\
    length (optionMatches block) = 4 /\
    forall letter, letter ∈ letters ->
      options Examples.oneQuestionRecord !! letter
      = Some (optionText block letter).
Proof.
  assert (H : Examples.oneQuestionRecord ∈ parseMCQOutput Examples.oneQuestion).
  { vm_compute. apply list_elem_of_here. }
  split; [exact H|].
  exact (proj1 (parsed_question_options Examples.oneQuestion) _ H).
Defined.

(** C1 as stated fails: a block whose four option lines carry the letters
    A, A, B, C is returned, with an empty text for D, by both versions of
    the extractor. *)
Lemma duplicate_letter_block_returned :
  questionBlocks Examples.duplicateLetter = [Examples.duplicateLetter] /\
  optionLetters Examples.duplicateLetter
  = [Some (codes "A"); Some (codes "A"); Some (codes "B"); Some (codes "C")] /\
  (exists q,
     parseMCQOutput Examples.duplicateLetter = [q] /\
     options q !! codes "A" = Some (codes "two") /\
     options q !! codes "D" = Some []) /\
  (exists q,
     SampleMCQQuiz.parseMCQOutput Examples.duplicateLetter = [q] /\
     options q !! codes "A" = Some (codes "two") /\
     options q !! codes "D" = Some []).
Proof.
  split; [vm_compute; reflexivity|]. split; [vm_compute; reflexivity|].
  split; (eexists; split; [vm_compute; reflexivity|];
          split; vm_compute; reflexivity).
Qed.

(** Four distinct letters do not make the texts non-empty either. *)
Lemma blank_option_returned :
  optionLetters Examples.blankOption
  = [Some (codes "A"); Some (codes "B"); Some (codes "C"); Some (codes "D")] /\
  exists q,
    parseMCQOutput Examples.blankOption = [q] /\
    options q !! codes "D" = Some [].
Proof.
  split; [vm_compute; reflexivity|].
  eexists. split; [vm_compute; reflexivity|]. vm_compute; reflexivity.
Qed.

(** In the second version a line is counted as soon as it starts with a
    letter in parentheses, and writes a text only when a white space and
    a text follow: the block of [Examples.looseOption] has four counted
    lines, the last one carries D, and D is left with the empty text.
    The first version finds three option lines in it and gives no
    question. *)
Lemma counted_line_without_text :
  SampleMCQQuiz.optionLines Examples.looseOption
  = [codes "(A) a"; codes "(B) b"; codes "(C) c"; codes "(D)d"] /\
  jsmatch (trim (codes "(D)d")) SampleMCQQuiz.optionLine = None /\
  SampleMCQQuiz.optionText Examples.looseOption (codes "D") = [] /\
  (exists q,
     SampleMCQQuiz.parseMCQOutput Examples.looseOption = [q] /\
     options q !! codes "C" = Some (codes "c") /\
     options q !! codes "D" = Some []) /\
  length (optionMatches Examples.looseOption) = 3 /\
  parseMCQOutput Examples.looseOption = [].
Proof.
  split; [vm_compute; reflexivity|]. split; [vm_compute; reflexivity|].
  split; [vm_compute; reflexivity|]. split.
  { eexists. split; [vm_compute; reflexivity|].
    split; vm_compute; reflexivity. }
  split; vm_compute; reflexivity.
Qed.

(** *** Blocks that fail a test *)

(** For any raw text: the records returned are, in order, those of the
    blocks that pass the three tests of the callback, and a block that
    fails one leaves the records of the blocks before and after it as
    they are. *)
Lemma records_follow_the_tests (rawOutput : jsstring) :
  length (parseMCQOutput rawOutput)
  = length (List.filter passesChecks (questionBlocks rawOutput))
  /\
  Forall2 (fun q block => exists index, parseBlock block index = Some q)
          (parseMCQOutput rawOutput)
          (List.filter passesChecks (questionBlocks rawOutput))
  /\
  (forall before bad after,
     questionBlocks rawOutput = before ++ bad :: after ->
     passesChecks bad = false ->
     parseMCQOutput rawOutput
     = forEachPush parseBlock before 0 []
       ++ forEachPush parseBlock after (S (length before)) []).
Proof.
  assert (HF : Forall2 (fun q block => exists index, parseBlock block index = Some q)
                 (parseMCQOutput rawOutput)
                 (List.filter passesChecks (questionBlocks rawOutput))).
  { rewrite parseMCQOutput_omap. apply omap_indexed_filter.
    intros x i. apply (parseBlock_truthy (i, x)). }
  split; [by apply Forall2_length in HF|]. split; [exact HF|].
  intros before bad after Hb Hbad. unfold parseMCQOutput. rewrite Hb.
  rewrite !forEachPush_omap, indexed_app, omap_app, indexed_cons. simpl.
  f_equal. cbn [omap list_omap]. unfold callAt at 1. simpl.
  destruct (parseBlock_cases bad) as [[_ Hn]|[Hw _]]; [|congruence].
  by rewrite Hn.
Qed.

(** *** The ids of the returned questions *)

Lemma idsFollowBlocks_forEachPush (blocks : list jsstring)
    (parse : jsstring -> nat -> option MCQQuestion) :
  (forall block index q, parse block index = Some q -> id q = index + 1) ->
  idsFollowBlocks blocks parse (forEachPush parse blocks 0 []).
Proof.
  intros Hid j q H.
  apply forEachPush_lookup in H as (index & block & Hb & Hp & Hj & Hle & Hlt).
  exists index, block. rewrite (Hid _ _ _ Hp).
  repeat split; auto; try lia.
  intros i b Hi Hb' Hn. specialize (Hlt i b Hi Hb' Hn). lia.
Qed.

(** C5.  In both versions of the extractor the id of a returned question
    is the 1-based position of its block among the blocks offered to the
    callback: it is at least the 1-based position of the record in the
    result, and greater as soon as an earlier block gave no record. *)
Theorem parsed_question_id (rawOutput : jsstring) :
  idsFollowBlocks (questionBlocks rawOutput) parseBlock
                  (parseMCQOutput rawOutput)
  /\ idsFollowBlocks (SampleMCQQuiz.questionBlocks rawOutput)
                     SampleMCQQuiz.parseBlock
                     (SampleMCQQuiz.parseMCQOutput rawOutput).
Proof.
  split; apply idsFollowBlocks_forEachPush.
  - apply parseBlock_id.
  - intros block index q H. by apply sample_parseBlock_Some in H as [? _].
Qed.

Lemma parsed_question_id_witness :
  parseMCQOutput Examples.threeThenFour !! 0 = Some Examples.completeRecord /\
  exists index block,
    questionBlocks Examples.threeThenFour !! index = Some block /\
    parseBlock block index = Some Examples.completeRecord /\
    id Examples.completeRecord = index + 1 /\
    0 = length (forEachPush parseBlock
                  (take index (questionBlocks Examples.threeThenFour)) 0 []) /\
    0 + 1 <= id Examples.completeRecord /\
    (forall i b, i < index ->
                 questionBlocks Examples.threeThenFour !! i = Some b ->
                 parseBlock b i = None -> 0 + 1 < id Examples.completeRecord).
Proof.
  assert (H : parseMCQOutput Examples.threeThenFour !! 0
              = Some Examples.completeRecord) by (vm_compute; reflexivity).
  split; [exact H|].
  exact (proj1 (parsed_question_id Examples.threeThenFour) 0 _ H).
Defined.

(** The record of the second block is the first of the result and has
    id 2. *)
Lemma id_after_a_dropped_block :
  parseBlock Examples.tooFewBlock 0 = None /\
  parseMCQOutput Examples.threeThenFour !! 0 = Some Examples.completeRecord /\
  id Examples.completeRecord = 2.
Proof. vm_compute. repeat split. Qed.
End MCQExtractor.

(** * The quiz session *)

Section QuizSession.
Import MCQQuiz.

(** *** Selecting an answer *)

Lemma dispatch_answered_shown (e : Event) (st : State) :
  answered_shown st -> answered_shown (dispatch e st).
Proof.
  intros Hst. unfold dispatch.
  destruct e as [stored|letter| | |], (render st); try exact Hst.
  1-4: unfold loadQuiz; destruct stored as [[|c s]|]; try exact Hst;
       destruct (length _ =? 0); exact Hst.
  - unfold clickOption. destruct (negb _); [|exact Hst].
    intros i Hi. simpl in *.
    destruct (decide (currentQuestion st = i)) as [<-|Hne].
    + by rewrite lookup_insert_eq.
    + rewrite lookup_insert_ne in Hi by done.
      rewrite lookup_insert_ne by done. by apply Hst.
  - destruct (noSelectedAnswer st); [exact Hst|].
    unfold nextQuestion. destruct (_ <? _)%Z; exact Hst.
  - destruct (currentQuestion st =? 0); [exact Hst|].
    unfold prevQuestion. destruct (0 <? _); exact Hst.
  - intros i [a Hi]. simpl in Hi. by rewrite lookup_empty in Hi.
Qed.

Lemma run_answered_shown (es : list Event) :
  forall st, answered_shown st -> answered_shown (run es st).
Proof.
  induction es as [|e es IH]; intros st Hst; [exact Hst|].
  apply IH, dispatch_answered_shown, Hst.
Qed.

Lemma initial_answered_shown : answered_shown initialState.
Proof. intros i [a Hi]. simpl in Hi. by rewrite lookup_empty in Hi. Qed.

(** C2.  Selecting an answer is a click on an option button, whose
    [onClick] is [!showCurrentExplanation && handleAnswerSelect(letter)]:
    [dispatch (ClickOption letter)].  In every state the component
    reaches from its first render, whatever the events before, once an
    answer is recorded for the current question a further selection
    leaves the whole state as it is, the recorded answer with it. *)
Theorem click_on_answered_question (es : list Event) (a letter : jsstring) :
  selectedAnswers (run es initialState)
    !! currentQuestion (run es initialState) = Some a ->
  dispatch (ClickOption letter) (run es initialState) = run es initialState.
Proof.
  intros Ha.
  pose proof (run_answered_shown es _ initial_answered_shown
                (currentQuestion (run es initialState))) as Hs.
  rewrite Ha in Hs. specialize (Hs (mk_is_Some _ _ eq_refl)).
  unfold dispatch. destruct (render _); try reflexivity.
  unfold clickOption, showCurrentExplanation. by rewrite Hs.
Qed.

Lemma click_on_answered_question_witness :
  selectedAnswers
    (run [Mount (Some Examples.oneQuestion); ClickOption (codes "A")]
         initialState)
    !! currentQuestion
         (run [Mount (Some Examples.oneQuestion); ClickOption (codes "A")]
              initialState)
  = Some (codes "A")
  /\ dispatch (ClickOption (codes "B"))
       (run [Mount (Some Examples.oneQuestion); ClickOption (codes "A")]
            initialState)
     = run [Mount (Some Examples.oneQuestion); ClickOption (codes "A")]
           initialState.
Proof.
  assert (H : selectedAnswers
    (run [Mount (Some Examples.oneQuestion); ClickOption (codes "A")]
         initialState)
    !! currentQuestion
         (run [Mount (Some Examples.oneQuestion); ClickOption (codes "A")]
              initialState)
  = Some (codes "A")) by (vm_compute; reflexivity).
  split; [exact H|].
  exact (click_on_answered_question _ _ (codes "B") H).
Defined.

(** *** Going back *)

Lemma prevQuestion_positive (st : State) :
  0 < currentQuestion st ->
  prevQuestion st
  = MkState (mcqData st) (currentQuestion st - 1) (selectedAnswers st)
            (showExplanation st) (quizCompleted st) (loading st) (error st).
Proof.
  intros H. unfold prevQuestion.
  by destruct (Nat.ltb_spec 0 (currentQuestion st)); [|lia].
Qed.

Lemma nextQuestion_inner (st : State) :
  currentQuestion st + 1 < length (mcqData st) ->
  nextQuestion st
  = MkState (mcqData st) (currentQuestion st + 1) (selectedAnswers st)
            (showExplanation st) (quizCompleted st) (loading st) (error st).
Proof.
  intros H. unfold nextQuestion.
  by destruct (Z.ltb_spec (Z.of_nat (currentQuestion st))
                          (Z.of_nat (length (mcqData st)) - 1)); [|lia].
Qed.

(** *** The score *)

Lemma scoreLoop_count (answers : gmap nat (list N)) (questions : list MCQQuestion) :
  forall idx correct,
    scoreLoop answers questions idx correct
    = correct
      + length (List.filter
                  (fun p : nat * MCQQuestion =>
                     bool_decide (answers !! p.1 = Some (correctAnswer p.2)))
                  (indexed questions idx)).
Proof.
  induction questions as [|q questions IH]; intros idx correct;
    cbn [scoreLoop].
  - simpl. lia.
  - rewrite IH, indexed_cons. cbn [List.filter]. simpl.
    destruct (decide (answers !! idx = Some (correctAnswer q))) as [H|H].
    + rewrite bool_decide_eq_true_2 by done. simpl. lia.
    + rewrite bool_decide_eq_false_2 by done. lia.
Qed.

Lemma filter_indexed_seq {A} (P : nat * A -> bool) (Q : nat -> bool)
    (l : list A) :
  (forall i x, l !! i = Some x -> P (i, x) = Q i) ->
  length (List.filter P (indexed l 0))
  = length (List.filter Q (seq 0 (length l))).
Proof.
  induction l as [|x l IH] using rev_ind; intros H; [done|].
  rewrite indexed_app, length_app, seq_app, !List.filter_app, !length_app.
  rewrite IH.
  - f_equal. simpl.
    rewrite <- (H (length l) x) by (by rewrite lookup_app_r, Nat.sub_diag).
    by destruct (P (length l, x)).
  - intros i y Hi. apply H. by apply lookup_app_l_Some.
Qed.

Lemma calculateScore_count (st : State) :
  calculateScore st
  = length (List.filter (answeredCorrectly st)
                        (seq 0 (length (mcqData st)))).
Proof.
  unfold calculateScore. rewrite scoreLoop_count. simpl.
  apply filter_indexed_seq.
  intros i q Hi. unfold answeredCorrectly. by rewrite Hi.
Qed.

Lemma calculateScore_le (st : State) :
  calculateScore st <= length (mcqData st).
Proof.
  rewrite calculateScore_count.
  etransitivity; [apply List.filter_length_le|]. by rewrite length_seq.
Qed.

Lemma percentageExactUpTo_100 : percentageExactUpTo 100 = true.
Proof. vm_compute. reflexivity. Qed.

Lemma percentageExactUpTo_spec (bound score total : nat) :
  percentageExactUpTo bound = true ->
  0 < total <= bound -> score <= total ->
  (percentageOf score total
   =? nat2float (exactPercentage score total))%float = true
  \/ (score, total) = (23, 40) \/ (score, total) = (46, 80).
Proof.
  unfold percentageExactUpTo. intros H Ht Hs.
  rewrite forallb_forall in H. specialize (H total).
  rewrite forallb_forall in H.
  specialize (H ltac:(apply in_seq; lia) score ltac:(apply in_seq; lia)).
  apply orb_true_iff in H as [H|H].
  - apply orb_true_iff in H as [H|H]; [by left|].
    apply andb_true_iff in H as [->%Nat.eqb_eq ->%Nat.eqb_eq]. auto.
  - apply andb_true_iff in H as [->%Nat.eqb_eq ->%Nat.eqb_eq]. auto.
Qed.

(** Up to a hundred questions the double arithmetic of [percentageOf]
    gives the exactly rounded percentage, with two exceptions. *)
Lemma percentageOf_exact (score total : nat) :
  0 < total <= 100 -> score <= total ->
  (score, total) <> (23, 40) -> (score, total) <> (46, 80) ->
  (percentageOf score total
   =? nat2float (exactPercentage score total))%float = true.
Proof.
  intros Ht Hs H1 H2.
  destruct (percentageExactUpTo_spec 100 score total
              percentageExactUpTo_100 Ht Hs) as [H|[H|H]];
    [exact H | contradiction | contradiction].
Qed.

Lemma scoreLoop_no_answer (questions : list MCQQuestion) :
  forall idx correct, scoreLoop ∅ questions idx correct = correct.
Proof.
  induction questions as [|q questions IH]; intros idx correct; [done|].
  cbn [scoreLoop]. rewrite IH.
  destruct (decide _) as [H|H]; [|done]. by rewrite lookup_empty in H.
Qed.

(** C6, as the code has it.  The score is the number of indices whose
    recorded answer is the correct one; it is 0 when no answer is
    recorded; score and percentage depend on the questions and the
    answers only, so they are defined in every phase.  The percentage is
    [Math.round] of the double [(score / total) * 100]: for a quiz of at
    most a hundred questions that is the exactly rounded percentage,
    halves away from zero, except for 23 of 40 and 46 of 80 correct
    answers. *)
Theorem score_and_percentage (st : State) :
  calculateScore st
  = length (List.filter (answeredCorrectly st)
                        (seq 0 (length (mcqData st))))
  /\ (selectedAnswers st = ∅ -> calculateScore st = 0)
  /\ (forall st', mcqData st' = mcqData st ->
                  selectedAnswers st' = selectedAnswers st ->
                  calculateScore st' = calculateScore st /\
                  percentage st' = percentage st)
  /\ percentage st
     = Math_round (nat2float (calculateScore st)
                   / nat2float (length (mcqData st)) * 100)%float
  /\ (0 < length (mcqData st) <= 100 ->
      (calculateScore st, length (mcqData st)) <> (23, 40) ->
      (calculateScore st, length (mcqData st)) <> (46, 80) ->
      (percentage st
       =? nat2float (exactPercentage (calculateScore st)
                                     (length (mcqData st))))%float = true).
Proof.
  split; [apply calculateScore_count|]. split; [|split; [|split]].
  - intros H. unfold calculateScore. rewrite H. apply scoreLoop_no_answer.
  - intros st' H1 H2. unfold percentage, calculateScore. by rewrite H1, H2.
  - reflexivity.
  - intros Ht H1 H2. unfold percentage.
    apply percentageOf_exact; auto using calculateScore_le.
Qed.

Lemma score_and_percentage_witness :
  selectedAnswers Examples.threeLoaded = ∅
  /\ 0 < length (mcqData Examples.threeLoaded) <= 100
  /\ (calculateScore Examples.threeLoaded,
      length (mcqData Examples.threeLoaded)) <> (23, 40)
  /\ (calculateScore Examples.threeLoaded,
      length (mcqData Examples.threeLoaded)) <> (46, 80)
  /\ calculateScore Examples.threeLoaded = 0
  /\ (percentage Examples.threeLoaded
      =? nat2float (exactPercentage (calculateScore Examples.threeLoaded)
                      (length (mcqData Examples.threeLoaded))))%float = true.
Proof.
  assert (H0 : selectedAnswers Examples.threeLoaded = ∅)
    by (vm_compute; reflexivity).
  assert (H1 : 0 < length (mcqData Examples.threeLoaded) <= 100)
    by (vm_compute; lia).
  assert (H2 : (calculateScore Examples.threeLoaded,
                length (mcqData Examples.threeLoaded)) <> (23, 40))
    by (vm_compute; discriminate).
  assert (H3 : (calculateScore Examples.threeLoaded,
                length (mcqData Examples.threeLoaded)) <> (46, 80))
    by (vm_compute; discriminate).
  destruct (score_and_percentage Examples.threeLoaded)
    as (_ & Hzero & _ & _ & Hpct).
  repeat split; try assumption; try apply H1; auto.
Defined.

(** C6 as stated fails: with 23 correct answers out of 40 the exact
    value is 57.5, which rounds away from zero to 58, and the component
    shows 57. *)
Lemma percentage_of_23_out_of_40 :
  render (run Examples.fortyAnswers initialState) = ResultScreen
  /\ length (mcqData (run Examples.fortyAnswers initialState)) = 40
  /\ calculateScore (run Examples.fortyAnswers initialState) = 23
  /\ 2 * (100 * 23) = (2 * 57 + 1) * 40
  /\ exactPercentage 23 40 = 58
  /\ percentage (run Examples.fortyAnswers initialState) = 57%float.
Proof. vm_compute. repeat split. Qed.
End QuizSession.

(** * The flashcard extractor and the study session *)

Section Flashcards.
Import FlashcardQuiz.

Lemma falsy_nil (s : jsstring) : falsy s = true <-> s = [].
Proof. destruct s; simpl; split; congruence. Qed.

(** What the callback does with a block: a card is pushed exactly when
    both markers are found and both trimmed texts are non-empty. *)
Lemma parseCard_Some (block : jsstring) (index : nat) :
  is_Some (parseCard block index) <->
  exists frontMatch backMatch f b,
    jsmatch block frontRegex = Some frontMatch /\
    jsmatch block backRegex = Some backMatch /\
    group frontMatch 1 = Some f /\ group backMatch 1 = Some b /\
    trim f <> [] /\ trim b <> [].
Proof.
  unfold parseCard. split.
  - intros [c H].
    destruct (jsmatch block frontRegex) as [fm|]; [|discriminate].
    destruct (group fm 1) as [f|] eqn:Hg1; [|discriminate].
    destruct (jsmatch block backRegex) as [bm|]; [|discriminate].
    destruct (group bm 1) as [b|] eqn:Hg2; [|discriminate].
    destruct (falsy (trim f)) eqn:Hf; [discriminate|].
    destruct (falsy (trim b)) eqn:Hb; [discriminate|].
    assert (trim f <> []) by (intros E; apply falsy_nil in E; congruence).
    assert (trim b <> []) by (intros E; apply falsy_nil in E; congruence).
    by exists fm, bm, f, b.
  - intros (fm & bm & f & b & -> & -> & -> & -> & Hf & Hb).
    destruct (falsy (trim f)) eqn:Ef; [by apply falsy_nil in Ef|].
    destruct (falsy (trim b)) eqn:Eb; [by apply falsy_nil in Eb|].
    simpl. destruct (jsmatch block categoryRegex) as [cm|] eqn:Hc; [|eauto].
    destruct (exec_group _ _ _ 1 _ Hc eq_refl) as [t Ht]. rewrite Ht. eauto.
Qed.

Lemma parseCard_nonempty (block : jsstring) (index : nat) (c : Flashcard) :
  parseCard block index = Some c ->
  id c = index + 1 /\ front c <> [] /\ back c <> [].
Proof.
  unfold parseCard.
  destruct (jsmatch block frontRegex) as [fm|]; [|discriminate].
  destruct (group fm 1) as [f|]; [|discriminate].
  destruct (jsmatch block backRegex) as [bm|]; [|discriminate].
  destruct (group bm 1) as [b|]; [|discriminate].
  destruct (falsy (trim f)) eqn:Hf; [discriminate|].
  destruct (falsy (trim b)) eqn:Hb; [discriminate|]. simpl.
  assert (trim f <> []) by (intros E; apply falsy_nil in E; congruence).
  assert (trim b <> []) by (intros E; apply falsy_nil in E; congruence).
  destruct (jsmatch block categoryRegex) as [cm|].
  - destruct (group cm 1); [|discriminate]. by intros [= <-].
  - by intros [= <-].
Qed.

Lemma parseFlashcardOutput_elem (rawOutput : jsstring) (c : Flashcard) :
  c ∈ parseFlashcardOutput rawOutput ->
  exists block index,
    block ∈ flashcardBlocks rawOutput /\ parseCard block index = Some c.
Proof.
  unfold parseFlashcardOutput. rewrite forEachPush_omap. intros H.
  apply list_elem_of_lookup in H as [j H].
  apply omap_lookup_inv in H as (i & [index block] & Hi & Hp & _).
  exists block, index. split; [|exact Hp].
  apply list_elem_of_lookup_2 in Hi.
  unfold indexed in Hi. by apply elem_of_zip_r in Hi.
Qed.

(** C3, as the code has it.  A block gives a card exactly when a front
    marker and an Answer marker are found and both captured texts are
    non-empty after trimming; so every card returned has a non-empty
    front and a non-empty back, and a block whose Answer marker is
    followed by blanks only is dropped. *)
Theorem parsed_card_texts (rawOutput : jsstring) :
  (forall c, c ∈ parseFlashcardOutput rawOutput ->
             front c <> [] /\ back c <> [])
  /\
  (forall block index,
     is_Some (parseCard block index) <->
     exists frontMatch backMatch f b,
       jsmatch block frontRegex = Some frontMatch /\
       jsmatch block backRegex = Some backMatch /\
       group frontMatch 1 = Some f /\ group backMatch 1 = Some b /\
       trim f <> [] /\ trim b <> []).
Proof.
  split.
  - intros c Hc. apply parseFlashcardOutput_elem in Hc as (b & i & _ & Hp).
    by apply parseCard_nonempty in Hp as (_ & ? & ?).
  - apply parseCard_Some.
Qed.

Lemma parsed_card_texts_witness :
  MkFlashcard 2 (codes "What is Y?") (codes "Another thing.") None
    ∈ parseFlashcardOutput Examples.threeCards
  /\ front (MkFlashcard 2 (codes "What is Y?") (codes "Another thing.") None)
     <> []
  /\ back (MkFlashcard 2 (codes "What is Y?") (codes "Another thing.") None)
     <> [].
Proof.
  assert (H : MkFlashcard 2 (codes "What is Y?") (codes "Another thing.") None
                ∈ parseFlashcardOutput Examples.threeCards).
  { vm_compute. apply list_elem_of_further, list_elem_of_here. }
  split; [exact H|].
  exact (proj1 (parsed_card_texts Examples.threeCards) _ H).
Defined.

(** C3 as stated fails: the block has both markers, the text captured
    after the Answer marker is empty once trimmed, and the block is
    dropped. *)
Lemma empty_back_dropped :
  flashcardBlocks Examples.emptyBack = [Examples.emptyBack]
  /\ truthy (jsmatch Examples.emptyBack frontRegex) = true
  /\ (exists backMatch b,
        jsmatch Examples.emptyBack backRegex = Some backMatch
        /\ group backMatch 1 = Some b /\ trim b = [])
  /\ parseFlashcardOutput Examples.emptyBack = [].
Proof.
  split; [vm_compute; reflexivity|]. split; [vm_compute; reflexivity|].
  split; [|vm_compute; reflexivity].
  eexists _, _. split; [vm_compute; reflexivity|].
  split; vm_compute; reflexivity.
Qed.

(** *** Flipping a card *)

Lemma step_reviewed (o : Op) (st : State) :
  o <> Reset -> reviewedCards st ⊆ reviewedCards (step o st).
Proof.
  intros Ho. destruct o; simpl; try done.
  - destruct (negb (isFlipped st)); set_solver.
  - unfold nextCard. by destruct (_ <? _)%Z.
  - unfold prevCard. by destruct (0 <? _).
Qed.

Lemma run_reviewed (os : list Op) :
  forall st, Reset ∉ os -> reviewedCards st ⊆ reviewedCards (run os st).
Proof.
  induction os as [|o os IH]; intros st Hos; [done|].
  apply not_elem_of_cons in Hos as [Ho Hos].
  etransitivity; [apply (step_reviewed o st); congruence|].
  by apply IH.
Qed.

(** C8.  A flip to the back adds the current index to the reviewed set;
    a flip never removes an index, nor does any run of flips and moves;
    [resetStudy] empties the set. *)
Theorem reviewed_monotone :
  (forall st, isFlipped st = false ->
              currentCard st ∈ reviewedCards (handleFlip st))
  /\ (forall st, reviewedCards st ⊆ reviewedCards (handleFlip st))
  /\ (forall os st i, Reset ∉ os -> i ∈ reviewedCards st ->
                      i ∈ reviewedCards (run os st))
  /\ (forall st, reviewedCards (resetStudy st) = ∅).
Proof.
  split; [|split; [|split]].
  - intros st H. unfold handleFlip. simpl. rewrite H. set_solver.
  - intros st. apply (step_reviewed Flip). discriminate.
  - intros os st i Hos Hi. by apply (run_reviewed os st Hos).
  - reflexivity.
Qed.

Lemma reviewed_monotone_witness :
  isFlipped Examples.cardsLoaded = false
  /\ (Reset ∉ [Flip; Flip; Next; Flip; Prev])
  /\ (currentCard Examples.cardsLoaded
         ∈ reviewedCards (handleFlip Examples.cardsLoaded))
  /\ (currentCard Examples.cardsLoaded
         ∈ reviewedCards (run [Flip; Flip; Next; Flip; Prev]
                              (handleFlip Examples.cardsLoaded))).
Proof.
  assert (H1 : isFlipped Examples.cardsLoaded = false)
    by (vm_compute; reflexivity).
  assert (H2 : Reset ∉ [Flip; Flip; Next; Flip; Prev]).
  { intros H. repeat (apply elem_of_cons in H as [H|H]; [discriminate|]).
    by apply elem_of_nil in H. }
  destruct reviewed_monotone as (Hadd & _ & Hrun & _).
  split; [exact H1|]. split; [exact H2|].
  split; [exact (Hadd _ H1)|].
  exact (Hrun _ _ _ H2 (Hadd _ H1)).
Defined.

(** *** Moving between cards *)

Lemma nextCard_inner (st : State) :
  currentCard st + 1 < length (flashcardData st) ->
  nextCard st
  = MkState (flashcardData st) (currentCard st + 1) false (reviewedCards st)
            (studyCompleted st) (loading st) (error st).
Proof.
  intros H. unfold nextCard.
  by destruct (Z.ltb_spec (Z.of_nat (currentCard st))
                          (Z.of_nat (length (flashcardData st)) - 1)); [|lia].
Qed.

Lemma nextCard_last (st : State) :
  length (flashcardData st) <= currentCard st + 1 ->
  nextCard st
  = MkState (flashcardData st) (currentCard st) (isFlipped st)
            (reviewedCards st) true (loading st) (error st).
Proof.
  intros H. unfold nextCard.
  by destruct (Z.ltb_spec (Z.of_nat (currentCard st))
                          (Z.of_nat (length (flashcardData st)) - 1)); [lia|].
Qed.

Lemma prevCard_positive (st : State) :
  0 < currentCard st ->
  prevCard st
  = MkState (flashcardData st) (currentCard st - 1) false (reviewedCards st)
            (studyCompleted st) (loading st) (error st).
Proof.
  intros H. unfold prevCard.
  by destruct (Nat.ltb_spec 0 (currentCard st)); [|lia].
Qed.

(** C10.  [nextCard] on a card that is not the last one and [prevCard]
    on a card that is not the first one move the index by one and show
    the front; so whenever one of them changes the index, the card shown
    is not flipped. *)
Theorem navigation_shows_front (st : State) :
  (currentCard st + 1 < length (flashcardData st) ->
   currentCard (nextCard st) = currentCard st + 1 /\
   isFlipped (nextCard st) = false)
  /\ (0 < currentCard st ->
      currentCard (prevCard st) = currentCard st - 1 /\
      isFlipped (prevCard st) = false)
  /\ (currentCard (nextCard st) <> currentCard st ->
      isFlipped (nextCard st) = false)
  /\ (currentCard (prevCard st) <> currentCard st ->
      isFlipped (prevCard st) = false).
Proof.
  split; [|split; [|split]].
  - intros H. by rewrite nextCard_inner.
  - intros H. by rewrite prevCard_positive.
  - unfold nextCard. by destruct (_ <? _)%Z.
  - unfold prevCard. by destruct (0 <? _).
Qed.

Lemma navigation_shows_front_witness :
  isFlipped (handleFlip Examples.cardsLoaded) = true
  /\ currentCard (handleFlip Examples.cardsLoaded) + 1
     < length (flashcardData (handleFlip Examples.cardsLoaded))
  /\ currentCard (nextCard (handleFlip Examples.cardsLoaded))
     = currentCard (handleFlip Examples.cardsLoaded) + 1
  /\ isFlipped (nextCard (handleFlip Examples.cardsLoaded)) = false.
Proof.
  assert (H : currentCard (handleFlip Examples.cardsLoaded) + 1
              < length (flashcardData (handleFlip Examples.cardsLoaded)))
    by (vm_compute; lia).
  split; [vm_compute; reflexivity|]. split; [exact H|].
  exact (proj1 (navigation_shows_front _) H).
Defined.
End Flashcards.

(** * Both sessions *)

Section BothSessions.

(** *** Going back *)

(** C7.  From an index greater than 0, going back lowers the index by
    one and leaves the answers and the shown explanations of the quiz,
    and the reviewed set of the cards, as they are.  With three items,
    going forward twice and back twice returns to index 0 with the
    answer and the explanation flag recorded there (for the cards: the
    reviewed mark) still present. *)
Theorem going_back_keeps_records :
  (forall st : MCQQuiz.State,
     0 < MCQQuiz.currentQuestion st ->
     MCQQuiz.currentQuestion (MCQQuiz.prevQuestion st)
     = MCQQuiz.currentQuestion st - 1
     /\ MCQQuiz.selectedAnswers (MCQQuiz.prevQuestion st)
        = MCQQuiz.selectedAnswers st
     /\ MCQQuiz.showExplanation (MCQQuiz.prevQuestion st)
        = MCQQuiz.showExplanation st)
  /\
  (forall st : FlashcardQuiz.State,
     0 < FlashcardQuiz.currentCard st ->
     FlashcardQuiz.currentCard (FlashcardQuiz.prevCard st)
     = FlashcardQuiz.currentCard st - 1
     /\ FlashcardQuiz.reviewedCards (FlashcardQuiz.prevCard st)
        = FlashcardQuiz.reviewedCards st)
  /\
  (forall (st : MCQQuiz.State) (answer : jsstring),
     length (MCQQuiz.mcqData st) = 3 -> MCQQuiz.currentQuestion st = 0 ->
     let st' :=
       MCQQuiz.prevQuestion (MCQQuiz.prevQuestion
         (MCQQuiz.nextQuestion (MCQQuiz.nextQuestion
           (MCQQuiz.handleAnswerSelect answer st)))) in
     MCQQuiz.currentQuestion st' = 0
     /\ MCQQuiz.selectedAnswers st' !! 0 = Some answer
     /\ MCQQuiz.showExplanation st' !! 0 = Some true)
  /\
  (forall st : FlashcardQuiz.State,
     length (FlashcardQuiz.flashcardData st) = 3 ->
     FlashcardQuiz.currentCard st = 0 ->
     FlashcardQuiz.isFlipped st = false ->
     let st' :=
       FlashcardQuiz.prevCard (FlashcardQuiz.prevCard
         (FlashcardQuiz.nextCard (FlashcardQuiz.nextCard
           (FlashcardQuiz.handleFlip st)))) in
     FlashcardQuiz.currentCard st' = 0
     /\ 0 ∈ FlashcardQuiz.reviewedCards st').
Proof.
  split; [|split; [|split]].
  - intros st H. by rewrite prevQuestion_positive.
  - intros st H. by rewrite prevCard_positive.
  - intros st answer H3 H0 st'. subst st'.
    rewrite (nextQuestion_inner (MCQQuiz.handleAnswerSelect answer st))
      by (simpl; lia).
    rewrite nextQuestion_inner by (simpl; lia).
    rewrite (prevQuestion_positive (MCQQuiz.MkState _ _ _ _ _ _ _))
      by (simpl; lia).
    rewrite (prevQuestion_positive (MCQQuiz.MkState _ _ _ _ _ _ _))
      by (simpl; lia).
    simpl. rewrite H0, !lookup_insert_eq. auto.
  - intros st H3 H0 Hf st'. subst st'.
    rewrite (nextCard_inner (FlashcardQuiz.handleFlip st)) by (simpl; lia).
    rewrite nextCard_inner by (simpl; lia).
    rewrite (prevCard_positive (FlashcardQuiz.MkState _ _ _ _ _ _ _))
      by (simpl; lia).
    rewrite (prevCard_positive (FlashcardQuiz.MkState _ _ _ _ _ _ _))
      by (simpl; lia).
    simpl. rewrite H0, Hf. simpl. split; [done|].
    apply elem_of_union_r. by apply elem_of_singleton.
Qed.

Lemma going_back_keeps_records_witness :
  length (MCQQuiz.mcqData Examples.threeLoaded) = 3
  /\ MCQQuiz.currentQuestion Examples.threeLoaded = 0
  /\ MCQQuiz.currentQuestion
       (MCQQuiz.prevQuestion (MCQQuiz.prevQuestion
         (MCQQuiz.nextQuestion (MCQQuiz.nextQuestion
           (MCQQuiz.handleAnswerSelect (codes "B") Examples.threeLoaded)))))
     = 0
  /\ MCQQuiz.selectedAnswers
       (MCQQuiz.prevQuestion (MCQQuiz.prevQuestion
         (MCQQuiz.nextQuestion (MCQQuiz.nextQuestion
           (MCQQuiz.handleAnswerSelect (codes "B") Examples.threeLoaded)))))
       !! 0 = Some (codes "B")
  /\ MCQQuiz.showExplanation
       (MCQQuiz.prevQuestion (MCQQuiz.prevQuestion
         (MCQQuiz.nextQuestion (MCQQuiz.nextQuestion
           (MCQQuiz.handleAnswerSelect (codes "B") Examples.threeLoaded)))))
       !! 0 = Some true.
Proof.
  assert (H3 : length (MCQQuiz.mcqData Examples.threeLoaded) = 3)
    by (vm_compute; reflexivity).
  assert (H0 : MCQQuiz.currentQuestion Examples.threeLoaded = 0)
    by (vm_compute; reflexivity).
  split; [exact H3|]. split; [exact H0|].
  exact (proj1 (proj2 (proj2 going_back_keeps_records))
           Examples.threeLoaded (codes "B") H3 H0).
Defined.

(** *** Loading nothing *)

(** C9, as the code has it.  When the stored text gives no item, the
    loading effect leaves the items, the index, the answers and the other
    session cells as they were, reports the failure in [error], and
    clears [loading]: the component shows the error screen. *)
Theorem load_without_items :
  (forall (rawOutput : jsstring) (st : MCQQuiz.State),
     MCQQuiz.parseMCQOutput rawOutput = [] ->
     let st' := MCQQuiz.loadQuiz (Some rawOutput) st in
     MCQQuiz.mcqData st' = MCQQuiz.mcqData st
     /\ MCQQuiz.currentQuestion st' = MCQQuiz.currentQuestion st
     /\ MCQQuiz.selectedAnswers st' = MCQQuiz.selectedAnswers st
     /\ MCQQuiz.showExplanation st' = MCQQuiz.showExplanation st
     /\ MCQQuiz.quizCompleted st' = MCQQuiz.quizCompleted st
     /\ MCQQuiz.loading st' = false
     /\ MCQQuiz.error st' <> []
     /\ MCQQuiz.render st' = MCQQuiz.ErrorScreen)
  /\
  (forall (rawOutput : jsstring) (st : FlashcardQuiz.State),
     FlashcardQuiz.parseFlashcardOutput rawOutput = [] ->
     let st' := FlashcardQuiz.loadCards (Some rawOutput) st in
     FlashcardQuiz.flashcardData st' = FlashcardQuiz.flashcardData st
     /\ FlashcardQuiz.currentCard st' = FlashcardQuiz.currentCard st
     /\ FlashcardQuiz.isFlipped st' = FlashcardQuiz.isFlipped st
     /\ FlashcardQuiz.reviewedCards st' = FlashcardQuiz.reviewedCards st
     /\ FlashcardQuiz.studyCompleted st' = FlashcardQuiz.studyCompleted st
     /\ FlashcardQuiz.loading st' = false
     /\ FlashcardQuiz.error st' <> []).
Proof.
  split.
  - intros raw st H st'. subst st'. unfold MCQQuiz.loadQuiz.
    destruct raw as [|c raw]; [by repeat split|].
    rewrite H. by repeat split.
  - intros raw st H st'. subst st'. unfold FlashcardQuiz.loadCards.
    destruct raw as [|c raw]; [by repeat split|].
    rewrite H. by repeat split.
Qed.

Lemma load_without_items_witness :
  MCQQuiz.parseMCQOutput Examples.noBlock = []
  /\ MCQQuiz.mcqData
       (MCQQuiz.loadQuiz (Some Examples.noBlock) MCQQuiz.initialState) = []
  /\ MCQQuiz.loading
       (MCQQuiz.loadQuiz (Some Examples.noBlock) MCQQuiz.initialState) = false
  /\ MCQQuiz.render
       (MCQQuiz.loadQuiz (Some Examples.noBlock) MCQQuiz.initialState)
     = MCQQuiz.ErrorScreen.
Proof.
  assert (H : MCQQuiz.parseMCQOutput Examples.noBlock = [])
    by (vm_compute; reflexivity).
  destruct (proj1 load_without_items Examples.noBlock MCQQuiz.initialState H)
    as (H1 & _ & _ & _ & _ & H2 & _ & H3).
  split; [exact H|]. split; [exact H1|]. split; [exact H2 | exact H3].
Defined.

(** C9 as stated fails: after a load that gives no item the state is not
    the one before; the loading flag is cleared and an error is set. *)
Lemma load_without_items_changes_state :
  MCQQuiz.parseMCQOutput Examples.noBlock = []
  /\ MCQQuiz.loading MCQQuiz.initialState = true
  /\ MCQQuiz.render MCQQuiz.initialState = MCQQuiz.LoadingScreen
  /\ MCQQuiz.loading
       (MCQQuiz.loadQuiz (Some Examples.noBlock) MCQQuiz.initialState) = false
  /\ MCQQuiz.error
       (MCQQuiz.loadQuiz (Some Examples.noBlock) MCQQuiz.initialState)
     = MCQQuiz.parseErrorMessage
  /\ MCQQuiz.loadQuiz (Some Examples.noBlock) MCQQuiz.initialState
     <> MCQQuiz.initialState.
Proof.
  vm_compute. repeat split. discriminate.
Qed.
End BothSessions.

(** * More about the extractors *)

Section ExtractorsMore.

(** *** Cutting the text into blocks *)

Lemma lookahead_split (r : regex) (s : jsstring) (q : nat) (y : mstate) :
  matchAt s false (Lookahead r) q = Some y ->
  endIndex y = q + length (@nil N) /\ drop q s = [] ++ drop (endIndex y) s.
Proof.
  intros H. apply matchAt_sem in H as (y' & _ & ->). simpl. auto with lia.
Qed.

Lemma newline_split (r : regex) (s : jsstring) (q : nat) (y : mstate) :
  matchAt s false (Cat [Char (isChar "010"); Lookahead r]) q = Some y ->
  endIndex y = q + length nl /\ drop q s = nl ++ drop (endIndex y) s.
Proof.
  intros H. apply matchAt_sem in H.
  destruct H as (m & (c & Hc & Hp & ->) & m2 & (y' & _ & ->) & ->).
  simpl in *. unfold isChar in Hp. apply N.eqb_eq in Hp. subst c.
  split; [lia|]. by rewrite (drop_S _ _ _ Hc).
Qed.

(** X1.  Cutting loses nothing: the pieces the quiz extractor cuts, put
    together again with the line break the separator takes, are the raw
    text; the pieces of the other two extractors, cut at zero-width
    positions, concatenate to the raw text. *)
Theorem pieces_give_back_the_text (rawOutput : jsstring) :
  join nl (split rawOutput MCQQuiz.questionSplitter) = rawOutput
  /\ concat (split rawOutput SampleMCQQuiz.questionSplitter) = rawOutput
  /\ concat (split rawOutput FlashcardQuiz.flashcardSplitter) = rawOutput.
Proof.
  split; [|split].
  - apply split_join. intros q y. apply newline_split.
  - rewrite <- join_nil_concat. apply split_join.
    intros q y. apply lookahead_split.
  - rewrite <- join_nil_concat. apply split_join.
    intros q y. apply lookahead_split.
Qed.

(** *** The blocks offered to the callbacks *)

Lemma numbered_shape (s : jsstring) (x y : mstate) :
  sem s false numbered x y ->
  exists d ds w,
    isDigit d = true /\ Forall (fun c => isDigit c = true) ds /\
    isSpace w = true /\
    drop (endIndex x) s
    = d :: ds ++ codes "." ++ [w] ++ codes "**" ++ drop (endIndex y) s.
Proof.
  intros H. cbn [numbered Cat foldr Plus] in H.
  destruct H as (m1 & (m0 & Hd & Hds) & m2 & Hdot & m3 & Hw & m4 & Hst & ->).
  apply sem_Char in Hd as (d & Hd & Hd' & _).
  apply sem_Star_Char in Hds as (ds & Hds & Hds' & _).
  apply sem_Lit in Hdot as [Hdot _].
  apply sem_Char in Hw as (w & Hw & Hw' & _).
  apply sem_Lit in Hst as [Hst _].
  exists d, ds, w. repeat split; auto.
  rewrite Hd', Hds', Hdot, Hw', Hst. reflexivity.
Qed.

Lemma blockHead_shape (s : jsstring) :
  truthy (jsmatch s MCQQuiz.blockHead) = true -> startsNumbered s.
Proof.
  unfold jsmatch. destruct (exec _ _ _) as [m|] eqn:H; [|discriminate].
  intros _. apply exec_Some in H as (_ & _ & _ & Hsem).
  cbn [pattern flag_m MCQQuiz.blockHead Cat foldr] in Hsem.
  apply sem_Bol_start in Hsem as [_ (m1 & Hn & _)]; [|done].
  apply numbered_shape in Hn as (d & ds & w & Hd & Hds & Hw & Heq).
  simpl in Heq. by exists d, ds, w, (drop (endIndex m1) s).
Qed.

(** X2.  Only numbered blocks reach the callbacks: every block the quiz
    extractor or the flashcard extractor parses starts, once trimmed,
    with digits, a dot, one white space and two asterisks; a title or an
    instruction line before the first number is never parsed. *)
Theorem offered_blocks_are_numbered (rawOutput : jsstring) :
  (forall block, block ∈ MCQQuiz.questionBlocks rawOutput ->
                 startsNumbered (trim block))
  /\
  (forall block, block ∈ FlashcardQuiz.flashcardBlocks rawOutput ->
                 startsNumbered (trim block)).
Proof.
  split; intros block H; apply list_elem_of_In, filter_In in H as [_ H];
    by apply blockHead_shape.
Qed.

Lemma offered_blocks_are_numbered_witness :
  Examples.completeBlock ∈ MCQQuiz.questionBlocks Examples.threeThenFour
  /\ startsNumbered (trim Examples.completeBlock).
Proof.
  assert (H : Examples.completeBlock
                ∈ MCQQuiz.questionBlocks Examples.threeThenFour).
  { vm_compute. apply list_elem_of_further, list_elem_of_here. }
  split; [exact H|].
  exact (proj1 (offered_blocks_are_numbered Examples.threeThenFour) _ H).
Defined.

Lemma startsNumbered_digit (s : jsstring) :
  startsNumbered s -> exists d, d ∈ s /\ isDigit d = true.
Proof.
  intros (d & ds & w & rest & Hd & _ & _ & ->). exists d.
  split; [by left | exact Hd].
Qed.

Lemma no_digit_no_block (rawOutput : jsstring) (re : RegExp) :
  (forall c, c ∈ rawOutput -> isDigit c = false) ->
  List.filter (fun block => truthy (jsmatch (trim block) MCQQuiz.blockHead))
              (split rawOutput re) = [].
Proof.
  intros Hno.
  destruct (List.filter _ _) as [|block l] eqn:E; [done|].
  assert (Hin : In block (List.filter
            (fun block => truthy (jsmatch (trim block) MCQQuiz.blockHead))
            (split rawOutput re))) by (rewrite E; by left).
  apply filter_In in Hin as [Hin Ht].
  apply blockHead_shape, startsNumbered_digit in Ht as (d & Hd & Hdig).
  apply trim_elem in Hd. apply list_elem_of_In in Hin.
  pose proof (split_elem _ _ _ _ Hin Hd) as Hraw.
  rewrite (Hno _ Hraw) in Hdig. discriminate.
Qed.

(** X3.  A text without a digit gives no item: both extractors return
    the empty list, and the quiz and the flashcard components, loading
    such a text, end on their error report. *)
Theorem no_digit_no_item (rawOutput : jsstring) :
  (forall c, c ∈ rawOutput -> isDigit c = false) ->
  MCQQuiz.parseMCQOutput rawOutput = []
  /\ FlashcardQuiz.parseFlashcardOutput rawOutput = []
  /\ MCQQuiz.render (MCQQuiz.loadQuiz (Some rawOutput) MCQQuiz.initialState)
     = MCQQuiz.ErrorScreen
  /\ FlashcardQuiz.error
       (FlashcardQuiz.loadCards (Some rawOutput) FlashcardQuiz.initialState)
     <> [].
Proof.
  intros Hno.
  assert (H1 : MCQQuiz.parseMCQOutput rawOutput = []).
  { unfold MCQQuiz.parseMCQOutput, MCQQuiz.questionBlocks.
    by rewrite (no_digit_no_block _ _ Hno). }
  assert (H2 : FlashcardQuiz.parseFlashcardOutput rawOutput = []).
  { unfold FlashcardQuiz.parseFlashcardOutput, FlashcardQuiz.flashcardBlocks.
    change FlashcardQuiz.blockHead with MCQQuiz.blockHead.
    by rewrite (no_digit_no_block _ _ Hno). }
  split; [exact H1|]. split; [exact H2|]. split.
  - unfold MCQQuiz.loadQuiz. destruct rawOutput; [done|]. by rewrite H1.
  - unfold FlashcardQuiz.loadCards. destruct rawOutput; [done|]. by rewrite H2.
Qed.

Lemma no_digit_no_item_witness :
  (forall c, c ∈ Examples.noBlock -> isDigit c = false)
  /\ MCQQuiz.parseMCQOutput Examples.noBlock = []
  /\ FlashcardQuiz.parseFlashcardOutput Examples.noBlock = [].
Proof.
  assert (H : forall c, c ∈ Examples.noBlock -> isDigit c = false).
  { assert (Hall : forallb (fun c => negb (isDigit c)) Examples.noBlock = true)
      by (vm_compute; reflexivity).
    intros c Hc. rewrite forallb_forall in Hall.
    apply list_elem_of_In, Hall in Hc. by destruct (isDigit c). }
  split; [exact H|].
  destruct (no_digit_no_item Examples.noBlock H) as (H1 & H2 & _).
  split; [exact H1 | exact H2].
Defined.

(** *** The fields of the records *)

Lemma parseBlock_fields (block : jsstring) (index : nat)
    (q : MCQQuiz.MCQQuestion) :
  MCQQuiz.parseBlock block index = Some q ->
  trim (MCQQuiz.question q) = MCQQuiz.question q /\
  trim (MCQQuiz.explanation q) = MCQQuiz.explanation q.
Proof.
  unfold MCQQuiz.parseBlock.
  destruct (jsmatch block MCQQuiz.questionRegex) as [qm|]; [|discriminate].
  destruct (group qm 1) as [g1|]; [|discriminate].
  destruct (fold_left _ _ _) as [[opts n]|]; [|discriminate].
  destruct (negb _); [discriminate|].
  destruct (jsmatch block MCQQuiz.correctAnswerRegex) as [cm|]; [|discriminate].
  destruct (group cm 1) as [correct|]; [|discriminate].
  destruct (jsmatch block MCQQuiz.explanationRegex) as [em|].
  - destruct (group em 1); [|discriminate]. intros [= <-]. simpl.
    by rewrite !trim_idemp.
  - intros [= <-]. simpl. by rewrite trim_idemp.
Qed.

Lemma sample_parseBlock_fields (block : jsstring) (index : nat)
    (q : MCQQuiz.MCQQuestion) :
  SampleMCQQuiz.parseBlock block index = Some q ->
  trim (MCQQuiz.question q) = MCQQuiz.question q /\
  trim (MCQQuiz.explanation q) = MCQQuiz.explanation q /\
  MCQQuiz.correctAnswer q ∈ MCQQuiz.letters.
Proof.
  unfold SampleMCQQuiz.parseBlock.
  destruct (jsmatch block MCQQuiz.questionRegex) as [qm|]; [|discriminate].
  destruct (group qm 1) as [g1|]; [|discriminate].
  destruct (negb _); [discriminate|].
  destruct (fold_left _ _ _) as [opts|]; [|discriminate].
  destruct (jsmatch block MCQQuiz.correctAnswerRegex) as [cm|] eqn:Hc;
    [|discriminate].
  destruct (correctAnswerRegex_group _ _ Hc) as (correct & Hg & Hin).
  rewrite Hg.
  destruct (jsmatch block MCQQuiz.explanationRegex) as [em|].
  - destruct (group em 1); [|discriminate]. intros [= <-]. simpl.
    by rewrite !trim_idemp.
  - intros [= <-]. simpl. by rewrite trim_idemp.
Qed.

Lemma lastText_trimmed (ms : list MatchResult) (letter t : jsstring) :
  MCQQuiz.lastText ms letter = Some t -> trim t = t.
Proof.
  induction ms as [|m ms IH]; [discriminate|]. simpl.
  destruct (MCQQuiz.lastText ms letter); [intros [= <-]; by apply IH|].
  destruct (decide _); [|discriminate].
  destruct (group m 2); [|discriminate]. intros [= <-]. apply trim_idemp.
Qed.

Lemma sample_lastText_trimmed (lines : list jsstring) (letter t : jsstring) :
  SampleMCQQuiz.lastText lines letter = Some t -> trim t = t.
Proof.
  induction lines as [|line lines IH]; [discriminate|]. simpl.
  destruct (SampleMCQQuiz.lastText lines letter);
    [intros [= <-]; by apply IH|].
  destruct (jsmatch _ _) as [m|]; [|discriminate].
  destruct (decide _); [|discriminate].
  destruct (group m 2); [|discriminate]. intros [= <-]. apply trim_idemp.
Qed.

(** X4.  The answer of a returned question is one of its options: in
    both versions of the quiz extractor [correctAnswer] is one of the
    letters A, B, C, D and a key of [options]. *)
Theorem correct_answer_is_an_option (rawOutput : jsstring) :
  (forall q, q ∈ MCQQuiz.parseMCQOutput rawOutput ->
     MCQQuiz.correctAnswer q ∈ MCQQuiz.letters /\
     is_Some (MCQQuiz.options q !! MCQQuiz.correctAnswer q))
  /\
  (forall q, q ∈ SampleMCQQuiz.parseMCQOutput rawOutput ->
     MCQQuiz.correctAnswer q ∈ MCQQuiz.letters /\
     is_Some (MCQQuiz.options q !! MCQQuiz.correctAnswer q)).
Proof.
  split; intros q Hq.
  - apply parseMCQOutput_elem in Hq as (block & index & _ & Hp).
    destruct (parseBlock_cases block)
      as [[_ Hn]|(_ & _ & qu & o & c & e & Hs & Hd & _ & Hc)].
    + rewrite Hn in Hp. discriminate.
    + rewrite Hs in Hp. injection Hp as <-. simpl. split; [exact Hc|].
      apply elem_of_dom. rewrite Hd. by apply elem_of_list_to_set.
  - apply forEachPush_elem in Hq as (index & block & _ & Hp).
    pose proof (sample_parseBlock_fields _ _ _ Hp) as (_ & _ & Hc).
    apply sample_parseBlock_Some in Hp as (_ & _ & Hd & _).
    split; [exact Hc|].
    apply elem_of_dom. rewrite Hd. by apply elem_of_list_to_set.
Qed.

Lemma correct_answer_is_an_option_witness :
  Examples.oneQuestionRecord ∈ MCQQuiz.parseMCQOutput Examples.oneQuestion
  /\ MCQQuiz.correctAnswer Examples.oneQuestionRecord ∈ MCQQuiz.letters
  /\ is_Some (MCQQuiz.options Examples.oneQuestionRecord
                !! MCQQuiz.correctAnswer Examples.oneQuestionRecord).
Proof.
  assert (H : Examples.oneQuestionRecord
                ∈ MCQQuiz.parseMCQOutput Examples.oneQuestion).
  { vm_compute. apply list_elem_of_here. }
  split; [exact H|].
  exact (proj1 (correct_answer_is_an_option Examples.oneQuestion) _ H).
Defined.

(** X5.  The texts of the returned records are trimmed: trimming the
    question, the explanation or an option text of a question, or the
    front, the back or the category of a card, changes nothing. *)
Theorem record_texts_are_trimmed (rawOutput : jsstring) :
  (forall q, q ∈ MCQQuiz.parseMCQOutput rawOutput ->
     trim (MCQQuiz.question q) = MCQQuiz.question q /\
     trim (MCQQuiz.explanation q) = MCQQuiz.explanation q /\
     forall letter t, MCQQuiz.options q !! letter = Some t -> trim t = t)
  /\
  (forall q, q ∈ SampleMCQQuiz.parseMCQOutput rawOutput ->
     trim (MCQQuiz.question q) = MCQQuiz.question q /\
     trim (MCQQuiz.explanation q) = MCQQuiz.explanation q /\
     forall letter t, MCQQuiz.options q !! letter = Some t -> trim t = t)
  /\
  (forall c, c ∈ FlashcardQuiz.parseFlashcardOutput rawOutput ->
     trim (FlashcardQuiz.front c) = FlashcardQuiz.front c /\
     trim (FlashcardQuiz.back c) = FlashcardQuiz.back c /\
     forall t, FlashcardQuiz.category c = Some t -> trim t = t).
Proof.
  split; [|split].
  - intros q Hq.
    apply parseMCQOutput_elem in Hq as (block & index & _ & Hp).
    destruct (parseBlock_fields _ _ _ Hp) as [Hqu Hex].
    split; [exact Hqu|]. split; [exact Hex|].
    destruct (parseBlock_cases block)
      as [[_ Hn]|(_ & _ & qu & o & c & e & Hs & Hd & Ho & _)].
    { rewrite Hn in Hp. discriminate. }
    rewrite Hs in Hp. injection Hp as <-. simpl.
    intros letter t Ht. simpl in Ht.
    assert (Hl : letter ∈ dom o) by (apply elem_of_dom; eauto).
    rewrite Hd in Hl. apply elem_of_list_to_set in Hl.
    rewrite (Ho _ Hl) in Ht. injection Ht as <-.
    unfold MCQQuiz.optionText.
    destruct (MCQQuiz.lastText _ letter) eqn:E; [|done].
    by apply lastText_trimmed in E.
  - intros q Hq.
    apply forEachPush_elem in Hq as (index & block & _ & Hp).
    destruct (sample_parseBlock_fields _ _ _ Hp) as (Hqu & Hex & _).
    split; [exact Hqu|]. split; [exact Hex|].
    apply sample_parseBlock_Some in Hp as (_ & _ & Hd & Ho).
    intros letter t Ht.
    assert (Hl : letter ∈ dom (MCQQuiz.options q)) by (apply elem_of_dom; eauto).
    rewrite Hd in Hl. apply elem_of_list_to_set in Hl.
    rewrite (Ho _ Hl) in Ht. injection Ht as <-.
    unfold SampleMCQQuiz.optionText.
    destruct (SampleMCQQuiz.lastText _ letter) eqn:E; [|done].
    by apply sample_lastText_trimmed in E.
  - intros c Hc.
    apply parseFlashcardOutput_elem in Hc as (block & index & _ & Hp).
    unfold FlashcardQuiz.parseCard in Hp.
    destruct (jsmatch block FlashcardQuiz.frontRegex) as [fm|]; [|discriminate].
    destruct (group fm 1) as [f|]; [|discriminate].
    destruct (jsmatch block FlashcardQuiz.backRegex) as [bm|]; [|discriminate].
    destruct (group bm 1) as [b|]; [|discriminate].
    destruct (_ || _); [discriminate|].
    destruct (jsmatch block FlashcardQuiz.categoryRegex) as [cm|].
    + destruct (group cm 1) as [t|]; [|discriminate].
      injection Hp as <-. simpl. rewrite !trim_idemp.
      repeat split; auto. intros t' [= <-]. apply trim_idemp.
    + injection Hp as <-. simpl. rewrite !trim_idemp.
      repeat split; auto. discriminate.
Qed.

Lemma record_texts_are_trimmed_witness :
  Examples.oneQuestionRecord ∈ MCQQuiz.parseMCQOutput Examples.oneQuestion
  /\ trim (MCQQuiz.question Examples.oneQuestionRecord)
     = MCQQuiz.question Examples.oneQuestionRecord
  /\ trim (MCQQuiz.explanation Examples.oneQuestionRecord)
     = MCQQuiz.explanation Examples.oneQuestionRecord.
Proof.
  assert (H : Examples.oneQuestionRecord
                ∈ MCQQuiz.parseMCQOutput Examples.oneQuestion).
  { vm_compute. apply list_elem_of_here. }
  destruct (proj1 (record_texts_are_trimmed Examples.oneQuestion) _ H)
    as (H1 & H2 & _).
  split; [exact H|]. split; [exact H1 | exact H2].
Defined.

(** *** The ids *)

Lemma omap_take_mono {A B} (g : A -> option B) (l : list A) (i i' : nat) :
  i <= i' -> length (omap g (take i l)) <= length (omap g (take i' l)).
Proof.
  intros H. rewrite <- (take_drop i (take i' l)), omap_app, length_app.
  rewrite take_take, Nat.min_l by done. lia.
Qed.

Lemma forEachPush_ids_increase {A B} (f : A -> nat -> option B)
    (ident : B -> nat) (l : list A) :
  (forall x index b, f x index = Some b -> ident b = index + 1) ->
  forall j1 j2 b1 b2,
    j1 < j2 ->
    forEachPush f l 0 [] !! j1 = Some b1 ->
    forEachPush f l 0 [] !! j2 = Some b2 ->
    1 <= ident b1 /\ ident b1 < ident b2 /\ ident b2 <= length l.
Proof.
  intros Hid j1 j2 b1 b2 Hj H1 H2.
  apply forEachPush_lookup in H1 as (i1 & x1 & Hx1 & Hf1 & Hj1 & _).
  apply forEachPush_lookup in H2 as (i2 & x2 & Hx2 & Hf2 & Hj2 & _).
  rewrite (Hid _ _ _ Hf1), (Hid _ _ _ Hf2).
  apply lookup_lt_Some in Hx2.
  assert (i1 < i2); [|lia].
  destruct (Nat.lt_ge_cases i1 i2) as [|Hge]; [done|].
  rewrite !forEachPush_omap in *. simpl in *.
  rewrite <- !indexed_take in *.
  pose proof (omap_take_mono (callAt f) (indexed l 0) i2 i1 Hge). lia.
Qed.

(** X6.  The ids of the records a parse returns grow strictly along the
    result, from at least 1 to at most the number of blocks offered: no
    two records of a result share an id.  This holds for both versions
    of the quiz extractor and for the flashcard extractor. *)
Theorem ids_grow_strictly (rawOutput : jsstring) :
  (forall j1 j2 q1 q2, j1 < j2 ->
     MCQQuiz.parseMCQOutput rawOutput !! j1 = Some q1 ->
     MCQQuiz.parseMCQOutput rawOutput !! j2 = Some q2 ->
     1 <= MCQQuiz.id q1 /\ MCQQuiz.id q1 < MCQQuiz.id q2 /\
     MCQQuiz.id q2 <= length (MCQQuiz.questionBlocks rawOutput))
  /\
  (forall j1 j2 q1 q2, j1 < j2 ->
     SampleMCQQuiz.parseMCQOutput rawOutput !! j1 = Some q1 ->
     SampleMCQQuiz.parseMCQOutput rawOutput !! j2 = Some q2 ->
     1 <= MCQQuiz.id q1 /\ MCQQuiz.id q1 < MCQQuiz.id q2 /\
     MCQQuiz.id q2 <= length (SampleMCQQuiz.questionBlocks rawOutput))
  /\
  (forall j1 j2 c1 c2, j1 < j2 ->
     FlashcardQuiz.parseFlashcardOutput rawOutput !! j1 = Some c1 ->
     FlashcardQuiz.parseFlashcardOutput rawOutput !! j2 = Some c2 ->
     1 <= FlashcardQuiz.id c1 /\ FlashcardQuiz.id c1 < FlashcardQuiz.id c2 /\
     FlashcardQuiz.id c2 <= length (FlashcardQuiz.flashcardBlocks rawOutput)).
Proof.
  split; [|split]; intros j1 j2 b1 b2;
    apply forEachPush_ids_increase.
  - intros x index b. apply parseBlock_id.
  - intros x index b H. by apply sample_parseBlock_Some in H as [? _].
  - intros x index b H. by apply parseCard_nonempty in H as [? _].
Qed.

Lemma ids_grow_strictly_witness :
  0 < 1
  /\ (exists c1 c2,
        FlashcardQuiz.parseFlashcardOutput Examples.threeCards !! 0 = Some c1
        /\ FlashcardQuiz.parseFlashcardOutput Examples.threeCards !! 1 = Some c2
        /\ FlashcardQuiz.id c1 < FlashcardQuiz.id c2).
Proof.
  split; [lia|].
  eexists _, _. split; [vm_compute; reflexivity|].
  split; [vm_compute; reflexivity|].
  refine (proj1 (proj2 (proj2 (proj2 (ids_grow_strictly Examples.threeCards))
                          0 1 _ _ _ _ _))); [lia| |];
    vm_compute; reflexivity.
Defined.

(** X7.  The card component never shows its fallback text for a parsed
    card: the back of a returned card is not empty, so what is shown on
    the back is the back itself. *)
Theorem back_fallback_is_never_shown (rawOutput : jsstring)
    (c : FlashcardQuiz.Flashcard) :
  c ∈ FlashcardQuiz.parseFlashcardOutput rawOutput ->
  FlashcardQuiz.backShown c = FlashcardQuiz.back c.
Proof.
  intros Hc. apply parseFlashcardOutput_elem in Hc as (b & i & _ & Hp).
  apply parseCard_nonempty in Hp as (_ & _ & Hb).
  unfold FlashcardQuiz.backShown. by destruct (FlashcardQuiz.back c).
Qed.

Lemma back_fallback_is_never_shown_witness :
  FlashcardQuiz.MkFlashcard 2 (codes "What is Y?") (codes "Another thing.") None
    ∈ FlashcardQuiz.parseFlashcardOutput Examples.threeCards
  /\ FlashcardQuiz.backShown
       (FlashcardQuiz.MkFlashcard 2 (codes "What is Y?")
          (codes "Another thing.") None)
     = codes "Another thing.".
Proof.
  assert (H : FlashcardQuiz.MkFlashcard 2 (codes "What is Y?")
                (codes "Another thing.") None
                ∈ FlashcardQuiz.parseFlashcardOutput Examples.threeCards).
  { vm_compute. apply list_elem_of_further, list_elem_of_here. }
  split; [exact H|].
  exact (back_fallback_is_never_shown _ _ H).
Defined.
End ExtractorsMore.

(** * More about the quiz session *)

Section QuizSessionMore.
Import MCQQuiz.

Lemma keys_below_size {V} (m : gmap nat V) (n : nat) :
  (forall i, is_Some (m !! i) -> i < n) -> size m <= n.
Proof.
  intros H. rewrite <- (size_dom (D := gset nat)).
  rewrite <- (size_set_seq (C := gset nat) 0 n).
  apply subseteq_size. intros i Hi.
  apply elem_of_dom, H in Hi. apply elem_of_set_seq. lia.
Qed.

Lemma keys_all_size {V} (m : gmap nat V) (n : nat) :
  (forall i, is_Some (m !! i) <-> i < n) -> size m = n.
Proof.
  intros H. rewrite <- (size_dom (D := gset nat)).
  rewrite <- (size_set_seq (C := gset nat) 0 n). f_equal.
  apply set_eq. intros i. rewrite elem_of_dom, H, elem_of_set_seq. lia.
Qed.

Lemma render_QuestionScreen (st : State) :
  render st = QuestionScreen ->
  loading st = false /\ error st = [] /\ quizCompleted st = false.
Proof.
  unfold render. destruct (loading st); [discriminate|].
  destruct (error st); [|discriminate]. simpl.
  by destruct (quizCompleted st).
Qed.

Lemma noSelectedAnswer_false (st : State) :
  noSelectedAnswer st = false -> answered st (currentQuestion st).
Proof.
  unfold noSelectedAnswer, answered.
  destruct (selectedAnswers st !! currentQuestion st) as [[|c a]|];
    try discriminate.
  intros _. by exists (c :: a).
Qed.

Lemma answered_insert_ne (st : State) (a : jsstring) (i : nat) :
  i <> currentQuestion st ->
  answered st i -> answered (handleAnswerSelect a st) i.
Proof.
  intros Hne (b & Hb & Hnb). exists b. simpl.
  by rewrite lookup_insert_ne.
Qed.

(** The clicks keep the invariant of a quiz in progress. *)
Lemma dispatch_quizInvariant (e : Event) (st : State) :
  isClick e = true -> quizInvariant st -> quizInvariant (dispatch e st).
Proof.
  intros He Hinv. pose proof Hinv as (Hl & Herr & Hcur & Hkeys & Hbefore & Hdone).
  unfold dispatch.
  destruct e as [stored|letter| | |]; [discriminate|..];
    destruct (render st) eqn:Hr; try exact Hinv.
  - (* an option *)
    apply render_QuestionScreen in Hr as (_ & _ & Hq).
    unfold clickOption. destruct (negb _); [|exact Hinv].
    split; [exact Hl|]. split; [exact Herr|]. split; [exact Hcur|].
    split; [|split].
    + intros i [a Hi]. simpl in Hi.
      destruct (decide (currentQuestion st = i)) as [<-|Hne]; [done|].
      rewrite lookup_insert_ne in Hi by done. apply Hkeys. eauto.
    + intros i Hi. simpl in Hi.
      apply (answered_insert_ne st letter i); [lia|auto].
    + simpl. rewrite Hq. discriminate.
  - (* Next *)
    apply render_QuestionScreen in Hr as (_ & _ & Hq).
    destruct (noSelectedAnswer st) eqn:Hsel; [exact Hinv|].
    apply noSelectedAnswer_false in Hsel.
    unfold nextQuestion.
    destruct (Z.ltb_spec (Z.of_nat (currentQuestion st))
                         (Z.of_nat (length (mcqData st)) - 1)).
    + split; [exact Hl|]. split; [exact Herr|]. split; [simpl; lia|].
      split; [exact Hkeys|]. split.
      * intros i Hi. simpl in Hi.
        destruct (decide (i = currentQuestion st)) as [->|]; [exact Hsel|].
        apply Hbefore. lia.
      * simpl. rewrite Hq. discriminate.
    + split; [exact Hl|]. split; [exact Herr|]. split; [exact Hcur|].
      split; [exact Hkeys|]. split; [exact Hbefore|].
      intros _. simpl. split; [lia | exact Hsel].
  - (* Previous *)
    destruct (currentQuestion st =? 0); [exact Hinv|].
    unfold prevQuestion. destruct (0 <? currentQuestion st); [|exact Hinv].
    split; [exact Hl|]. split; [exact Herr|]. split; [simpl; lia|].
    split; [exact Hkeys|]. split.
    + intros i Hi. simpl in Hi. apply Hbefore. lia.
    + simpl. intros Hq.
      pose proof (render_QuestionScreen st Hr) as (_ & _ & Hq').
      congruence.
  - (* Retake *)
    split; [exact Hl|]. split; [exact Herr|]. split; [simpl; lia|].
    split; [|split].
    + intros i [a Hi]. simpl in Hi. by rewrite lookup_empty in Hi.
    + intros i Hi. simpl in Hi. lia.
    + simpl. discriminate.
Qed.

Lemma run_quizInvariant (es : list Event) :
  forallb isClick es = true ->
  forall st, quizInvariant st -> quizInvariant (run es st).
Proof.
  induction es as [|e es IH]; intros Hes st Hst; [exact Hst|].
  simpl in Hes. apply andb_true_iff in Hes as [He Hes].
  apply (IH Hes), dispatch_quizInvariant; assumption.
Qed.

(** On the error report no click does anything. *)
Lemma run_on_error (es : list Event) (st : State) :
  forallb isClick es = true -> render st = ErrorScreen -> run es st = st.
Proof.
  induction es as [|e es IH]; intros Hes Hr; [done|].
  simpl in Hes. apply andb_true_iff in Hes as [He Hes].
  unfold run. simpl.
  assert (Hd : dispatch e st = st).
  { unfold dispatch. rewrite Hr. by destruct e. }
  rewrite Hd. by apply IH.
Qed.

(** After its loading effect the component either reports an error or
    holds a quiz in progress. *)
Lemma loadQuiz_cases (stored : option jsstring) :
  render (loadQuiz stored initialState) = ErrorScreen
  \/ quizInvariant (loadQuiz stored initialState).
Proof.
  unfold loadQuiz. destruct stored as [[|c raw]|]; [by left| |by left].
  destruct (parseMCQOutput (c :: raw)) as [|q qs] eqn:Hp; [by left|].
  right. split; [done|]. split; [done|]. split; [simpl; lia|].
  split; [|split].
  - intros i [a Hi]. simpl in Hi. by rewrite lookup_empty in Hi.
  - intros i Hi. simpl in Hi. lia.
  - simpl. discriminate.
Qed.

Lemma loaded_cases (stored : option jsstring) (es : list Event) :
  forallb isClick es = true ->
  render (run es (loadQuiz stored initialState)) = ErrorScreen
  \/ quizInvariant (run es (loadQuiz stored initialState)).
Proof.
  intros Hes. destruct (loadQuiz_cases stored) as [Herr|Hinv].
  - left. by rewrite run_on_error.
  - right. by apply run_quizInvariant.
Qed.

(** X8.  After the loading effect, whatever the user clicks, the
    component never shows the loading screen again, and whenever it
    shows a question the current index is that of a loaded question and
    the count of answered questions is at most the number of
    questions. *)
Theorem question_screen_has_a_question (stored : option jsstring)
    (es : list Event) :
  forallb isClick es = true ->
  render (run es (loadQuiz stored initialState)) <> LoadingScreen
  /\ (render (run es (loadQuiz stored initialState)) = QuestionScreen ->
      is_Some (currentMCQ (run es (loadQuiz stored initialState)))
      /\ answeredCount (run es (loadQuiz stored initialState))
         <= length (mcqData (run es (loadQuiz stored initialState)))).
Proof.
  intros Hes. destruct (loaded_cases stored es Hes) as [Herr|Hinv].
  - rewrite Herr. split; [discriminate|]. discriminate.
  - destruct Hinv as (Hl & Herr & Hcur & Hkeys & _).
    split.
    + unfold render. rewrite Hl, Herr. simpl. by destruct (quizCompleted _).
    + intros _. split.
      * by apply lookup_lt_is_Some_2.
      * by apply keys_below_size.
Qed.

Lemma question_screen_has_a_question_witness :
  forallb isClick [ClickOption (codes "A"); ClickNext; ClickPrevious] = true
  /\ render (run [ClickOption (codes "A"); ClickNext; ClickPrevious]
                 (loadQuiz (Some Examples.threeQuestions) initialState))
     = QuestionScreen
  /\ is_Some (currentMCQ
                (run [ClickOption (codes "A"); ClickNext; ClickPrevious]
                     (loadQuiz (Some Examples.threeQuestions) initialState))).
Proof.
  assert (H1 : forallb isClick
                 [ClickOption (codes "A"); ClickNext; ClickPrevious] = true)
    by reflexivity.
  assert (H2 : render (run [ClickOption (codes "A"); ClickNext; ClickPrevious]
                           (loadQuiz (Some Examples.threeQuestions)
                                     initialState))
               = QuestionScreen) by (vm_compute; reflexivity).
  split; [exact H1|]. split; [exact H2|].
  exact (proj1 (proj2 (question_screen_has_a_question _ _ H1) H2)).
Defined.

(** X9.  The result screen is reached only when every question has an
    answer: there the count of answered questions is the number of
    questions. *)
Theorem result_screen_all_answered (stored : option jsstring)
    (es : list Event) :
  forallb isClick es = true ->
  render (run es (loadQuiz stored initialState)) = ResultScreen ->
  (forall i, i < length (mcqData (run es (loadQuiz stored initialState))) ->
             answered (run es (loadQuiz stored initialState)) i)
  /\ answeredCount (run es (loadQuiz stored initialState))
     = length (mcqData (run es (loadQuiz stored initialState))).
Proof.
  intros Hes Hr. destruct (loaded_cases stored es Hes) as [Herr|Hinv].
  { rewrite Herr in Hr. discriminate. }
  destruct Hinv as (Hl & Herr & Hcur & Hkeys & Hbefore & Hdone).
  assert (Hq : quizCompleted (run es (loadQuiz stored initialState)) = true).
  { unfold render in Hr. rewrite Hl, Herr in Hr. simpl in Hr.
    by destruct (quizCompleted _). }
  destruct (Hdone Hq) as [Hlast Hans].
  assert (Hall : forall i,
            i < length (mcqData (run es (loadQuiz stored initialState))) ->
            answered (run es (loadQuiz stored initialState)) i).
  { intros i Hi.
    destruct (decide (i = currentQuestion (run es (loadQuiz stored initialState))))
      as [->|Hne]; [exact Hans|].
    apply Hbefore. lia. }
  split; [exact Hall|].
  apply keys_all_size. intros i. split; [apply Hkeys|].
  intros Hi. destruct (Hall i Hi) as (a & Ha & _). eauto.
Qed.

Lemma result_screen_all_answered_witness :
  forallb isClick Examples.fortyClicks = true
  /\ render (run Examples.fortyClicks
                 (loadQuiz (Some Examples.fortyQuestions) initialState))
     = ResultScreen
  /\ answeredCount (run Examples.fortyClicks
                        (loadQuiz (Some Examples.fortyQuestions) initialState))
     = length (mcqData (run Examples.fortyClicks
                 (loadQuiz (Some Examples.fortyQuestions) initialState))).
Proof.
  assert (H1 : forallb isClick Examples.fortyClicks = true)
    by (vm_compute; reflexivity).
  assert (H2 : render (run Examples.fortyClicks
                 (loadQuiz (Some Examples.fortyQuestions) initialState))
               = ResultScreen) by (vm_compute; reflexivity).
  split; [exact H1|]. split; [exact H2|].
  exact (proj2 (result_screen_all_answered _ _ H1 H2)).
Defined.

(** *** Answering every question *)

Lemma recordAll_lookup_lt (answers : list (list N)) :
  forall k recorded i, i < k ->
    recordAll k answers recorded !! i = recorded !! i.
Proof.
  induction answers as [|a answers IH]; intros k recorded i Hi; [done|].
  simpl. rewrite IH by lia. apply lookup_insert_ne. lia.
Qed.

Lemma scoreLoop_recordAll (questions : list MCQQuestion) :
  forall answers k recorded correct,
    length answers = length questions ->
    scoreLoop (recordAll k answers recorded) questions k correct
    = correct + countCorrect answers questions.
Proof.
  induction questions as [|q questions IH];
    intros [|a answers] k recorded correct Hlen; try discriminate.
  - simpl. lia.
  - cbn [scoreLoop recordAll countCorrect].
    rewrite IH by (simpl in Hlen; lia).
    rewrite recordAll_lookup_lt, lookup_insert_eq by lia.
    destruct (decide (Some a = Some (correctAnswer q))) as [[= ->]|Hne].
    + rewrite decide_True by done. lia.
    + rewrite decide_False by congruence. lia.
Qed.

Lemma run_app (es1 es2 : list Event) (st : State) :
  run (es1 ++ es2) st = run es2 (run es1 st).
Proof. unfold run. apply fold_left_app. Qed.

(** One answer and one Next per question, from question [k] on, lead to
    the completed quiz with these answers recorded. *)
Lemma run_answerAll (questions : list MCQQuestion) :
  forall answers k recorded shown,
    answers <> [] ->
    k + length answers = length questions ->
    Forall (fun a => a <> []) answers ->
    (forall j, k <= j -> shown !! j = None) ->
    exists shown',
      run (answerAll answers)
          (MkState questions k recorded shown false false [])
      = MkState questions (length questions - 1)
                (recordAll k answers recorded) shown' true false [].
Proof.
  induction answers as [|a answers IH];
    intros k recorded shown Hne Hlen Hall Hshown; [done|].
  apply Forall_cons in Hall as [Ha Hall].
  change (answerAll (a :: answers))
    with ([ClickOption a; ClickNext] ++ answerAll answers).
  rewrite run_app.
  assert (Hclick :
    dispatch (ClickOption a) (MkState questions k recorded shown false false [])
    = MkState questions k (<[k := a]> recorded) (<[k := true]> shown)
              false false []).
  { unfold dispatch, render, clickOption, showCurrentExplanation. simpl.
    by rewrite Hshown. }
  assert (Hsel :
    noSelectedAnswer (MkState questions k (<[k := a]> recorded)
                              (<[k := true]> shown) false false []) = false).
  { unfold noSelectedAnswer. simpl. rewrite lookup_insert_eq.
    by destruct a. }
  unfold run at 2. cbn [fold_left]. rewrite Hclick.
  unfold dispatch at 1. cbn [render loading error quizCompleted length].
  cbn [Nat.eqb negb]. rewrite Hsel. unfold nextQuestion.
  cbn [currentQuestion mcqData selectedAnswers showExplanation
       quizCompleted loading error].
  destruct answers as [|a' answers].
  - simpl in Hlen.
    destruct (Z.ltb_spec (Z.of_nat k) (Z.of_nat (length questions) - 1));
      [lia|].
    exists (<[k := true]> shown). unfold answerAll, run. simpl.
    f_equal. lia.
  - simpl in Hlen.
    destruct (Z.ltb_spec (Z.of_nat k) (Z.of_nat (length questions) - 1));
      [|lia].
    destruct (IH (k + 1) (<[k := a]> recorded) (<[k := true]> shown))
      as [shown' Hrun]; [done|simpl; lia|exact Hall| |].
    { intros j Hj. rewrite lookup_insert_ne by lia. apply Hshown. lia. }
    exists shown'. rewrite Hrun. simpl. by rewrite Nat.add_1_r.
Qed.

Lemma loadQuiz_loaded (stored : option jsstring) :
  mcqData (loadQuiz stored initialState) <> [] ->
  loadQuiz stored initialState
  = MkState (mcqData (loadQuiz stored initialState)) 0 ∅ ∅ false false [].
Proof.
  unfold loadQuiz. destruct stored as [[|c raw]|]; try done.
  by destruct (parseMCQOutput (c :: raw)).
Qed.

Lemma answering_every_question_aux (stored : option jsstring)
    (answers : list (list N)) :
  mcqData (loadQuiz stored initialState) <> [] ->
  length answers = length (mcqData (loadQuiz stored initialState)) ->
  Forall (fun a => a <> []) answers ->
  render (run (answerAll answers) (loadQuiz stored initialState))
  = ResultScreen
  /\ calculateScore (run (answerAll answers) (loadQuiz stored initialState))
     = countCorrect answers (mcqData (loadQuiz stored initialState))
  /\ mcqData (run (answerAll answers) (loadQuiz stored initialState))
     = mcqData (loadQuiz stored initialState).
Proof.
  intros Hdata Hlen Hall.
  set (questions := mcqData (loadQuiz stored initialState)) in *.
  rewrite (loadQuiz_loaded stored Hdata). fold questions.
  destruct (run_answerAll questions answers 0 ∅ ∅) as [shown' Hrun];
    auto.
  { intros ->. destruct questions; [done | discriminate]. }
  rewrite Hrun. split; [reflexivity|]. split; [|reflexivity].
  unfold calculateScore. cbn [selectedAnswers mcqData].
  by rewrite scoreLoop_recordAll.
Qed.

(** X10.  A user who gives one non-empty answer to each loaded question,
    pressing Next after each, ends on the result screen, and the score
    is the number of answers that are the correct answer of their
    question. *)
Theorem answering_every_question (stored : option jsstring)
    (answers : list (list N)) :
  mcqData (loadQuiz stored initialState) <> [] ->
  length answers = length (mcqData (loadQuiz stored initialState)) ->
  Forall (fun a => a <> []) answers ->
  render (run (answerAll answers) (loadQuiz stored initialState))
  = ResultScreen
  /\ calculateScore (run (answerAll answers) (loadQuiz stored initialState))
     = countCorrect answers (mcqData (loadQuiz stored initialState)).
Proof.
  intros Hdata Hlen Hall.
  destruct (answering_every_question_aux stored answers Hdata Hlen Hall)
    as (Hr & Hs & _).
  by split.
Qed.

Lemma answering_every_question_witness :
  mcqData (loadQuiz (Some Examples.threeQuestions) initialState) <> []
  /\ length [codes "A"; codes "B"; codes "A"]
     = length (mcqData (loadQuiz (Some Examples.threeQuestions) initialState))
  /\ Forall (fun a : list N => a <> []) [codes "A"; codes "B"; codes "A"]
  /\ calculateScore
       (run (answerAll [codes "A"; codes "B"; codes "A"])
            (loadQuiz (Some Examples.threeQuestions) initialState))
     = countCorrect [codes "A"; codes "B"; codes "A"]
         (mcqData (loadQuiz (Some Examples.threeQuestions) initialState)).
Proof.
  assert (H1 : mcqData (loadQuiz (Some Examples.threeQuestions) initialState)
               <> []) by (vm_compute; discriminate).
  assert (H2 : length [codes "A"; codes "B"; codes "A"]
     = length (mcqData (loadQuiz (Some Examples.threeQuestions) initialState)))
    by (vm_compute; reflexivity).
  assert (H3 : Forall (fun a : list N => a <> [])
                      [codes "A"; codes "B"; codes "A"])
    by (repeat constructor; discriminate).
  split; [exact H1|]. split; [exact H2|]. split; [exact H3|].
  exact (proj2 (answering_every_question _ _ H1 H2 H3)).
Defined.

Lemma countCorrect_all (questions : list MCQQuestion) :
  countCorrect (map correctAnswer questions) questions = length questions.
Proof.
  induction questions as [|q questions IH]; [done|].
  simpl. rewrite decide_True by done. by rewrite IH.
Qed.

Lemma exactPercentage_full (n : nat) : 0 < n -> exactPercentage n n = 100.
Proof.
  intros Hn. unfold exactPercentage.
  rewrite <- (N.div_unique (200 * N.of_nat n + N.of_nat n) (2 * N.of_nat n)
                100 (N.of_nat n)); [done| lia | lia].
Qed.

(** X11.  A user who gives the correct answer to every question of a
    parsed quiz ends on the result screen with a score equal to the
    number of questions and, for a quiz of at most a hundred questions,
    a percentage of 100. *)
Theorem all_correct_run (rawOutput : jsstring) :
  parseMCQOutput rawOutput <> [] ->
  render (run (answerAll (map correctAnswer (parseMCQOutput rawOutput)))
              (loadQuiz (Some rawOutput) initialState))
  = ResultScreen
  /\ calculateScore
       (run (answerAll (map correctAnswer (parseMCQOutput rawOutput)))
            (loadQuiz (Some rawOutput) initialState))
     = length (parseMCQOutput rawOutput)
  /\ (length (parseMCQOutput rawOutput) <= 100 ->
      (percentage
         (run (answerAll (map correctAnswer (parseMCQOutput rawOutput)))
              (loadQuiz (Some rawOutput) initialState))
       =? 100)%float = true).
Proof.
  intros Hne.
  assert (Hraw : rawOutput <> []).
  { intros ->. by apply Hne. }
  assert (Hdata : mcqData (loadQuiz (Some rawOutput) initialState)
                  = parseMCQOutput rawOutput).
  { unfold loadQuiz. destruct rawOutput as [|c raw]; [done|].
    by destruct (parseMCQOutput (c :: raw)). }
  assert (Hall : Forall (fun a : list N => a <> [])
                        (map correctAnswer (parseMCQOutput rawOutput))).
  { apply Forall_forall. intros a Ha.
    apply list_elem_of_fmap in Ha as (q & -> & Hq).
    apply parseMCQOutput_elem in Hq as (block & index & _ & Hp).
    destruct (parseBlock_cases block)
      as [[_ Hn]|(_ & _ & qu & o & c & e & Hs & _ & _ & Hc)].
    - rewrite Hn in Hp. discriminate.
    - rewrite Hs in Hp. injection Hp as <-. simpl.
      apply elem_of_letters in Hc as [->|[->|[->| ->]]]; discriminate. }
  destruct (answering_every_question_aux (Some rawOutput)
              (map correctAnswer (parseMCQOutput rawOutput)))
    as (Hr & Hs & Hm); [by rewrite Hdata | by rewrite Hdata, length_map
                        | exact Hall |].
  rewrite Hdata, countCorrect_all in Hs. rewrite Hdata in Hm.
  split; [exact Hr|]. split; [exact Hs|].
  intros Hle. unfold percentage. rewrite Hs, Hm.
  assert (Hpos : 0 < length (parseMCQOutput rawOutput)).
  { destruct (parseMCQOutput rawOutput); [done | simpl; lia]. }
  pose proof (percentageOf_exact _ _ (conj Hpos Hle) (le_n _)) as Hp.
  rewrite exactPercentage_full in Hp by done.
  apply Hp; intros [= H1 H2]; lia.
Qed.

Lemma all_correct_run_witness :
  parseMCQOutput Examples.threeQuestions <> []
  /\ calculateScore
       (run (answerAll (map correctAnswer
                          (parseMCQOutput Examples.threeQuestions)))
            (loadQuiz (Some Examples.threeQuestions) initialState))
     = length (parseMCQOutput Examples.threeQuestions).
Proof.
  assert (H : parseMCQOutput Examples.threeQuestions <> [])
    by (vm_compute; discriminate).
  split; [exact H|].
  exact (proj1 (proj2 (all_correct_run _ H))).
Defined.

(** *** The look of the option buttons *)

Lemma classes_distinct :
  blueClass <> greenClass /\ blueClass <> redClass /\ blueClass <> grayClass
  /\ blueClass <> whiteClass /\ greenClass <> redClass
  /\ greenClass <> grayClass /\ greenClass <> whiteClass
  /\ redClass <> grayClass /\ redClass <> whiteClass.
Proof.
  assert (H : forall c1 c2 : list N, bool_decide (c1 = c2) = false -> c1 <> c2).
  { intros c1 c2 H. by apply bool_decide_eq_false in H. }
  repeat split; apply H; vm_compute; reflexivity.
Qed.

Lemma class_inj (c1 c2 : jsstring) :
  Some (baseClass ++ c1) = Some (baseClass ++ c2) -> c1 = c2.
Proof. intros H. apply (inj Some) in H. by apply app_inv_head in H. Qed.

(** X12.  In every state the component reaches, the button of an option
    never has the look of a selected option whose result is not shown;
    once the explanation of the current question is shown, the button
    of an option is green exactly for the correct answer, and red
    exactly for the selected option when it is not the correct one. *)
Theorem option_button_look (es : list Event) (letter : jsstring)
    (q : MCQQuestion) :
  currentMCQ (run es initialState) = Some q ->
  buttonClass (run es initialState) letter <> Some (baseClass ++ blueClass)
  /\ (showCurrentExplanation (run es initialState) = true ->
      (buttonClass (run es initialState) letter
       = Some (baseClass ++ greenClass) <-> letter = correctAnswer q)
      /\ (buttonClass (run es initialState) letter
          = Some (baseClass ++ redClass)
          <-> selectedAnswers (run es initialState)
                !! currentQuestion (run es initialState) = Some letter
              /\ letter <> correctAnswer q)).
Proof.
  intros Hq.
  pose proof (run_answered_shown es _ initial_answered_shown
                (currentQuestion (run es initialState))) as Hshown.
  pose proof classes_distinct as (D1 & D2 & D3 & D4 & D5 & D6 & D7 & D8 & D9).
  unfold buttonClass. rewrite Hq. cbv zeta.
  set (st := run es initialState) in *.
  destruct (decide (selectedAnswers st !! currentQuestion st = Some letter))
    as [Hsel|Hsel];
    destruct (decide (letter = correctAnswer q)) as [Hc|Hc];
    rewrite ?(bool_decide_eq_true_2 _ Hsel), ?(bool_decide_eq_false_2 _ Hsel),
      ?(bool_decide_eq_true_2 _ Hc), ?(bool_decide_eq_false_2 _ Hc).
  - assert (Hs : showCurrentExplanation st = true).
    { unfold showCurrentExplanation. rewrite Hshown; [done|].
      rewrite Hsel. eauto. }
    rewrite Hs. simpl. split.
    + intros H%class_inj. by (congruence || tauto).
    + intros _. split; [tauto|]. split; [|tauto].
      intros H%class_inj. by (congruence || tauto).
  - assert (Hs : showCurrentExplanation st = true).
    { unfold showCurrentExplanation. rewrite Hshown; [done|].
      rewrite Hsel. eauto. }
    rewrite Hs. simpl. split.
    + intros H%class_inj. by (congruence || tauto).
    + intros _. split; [|tauto]. split; [|tauto].
      intros H%class_inj. by (congruence || tauto).
  - destruct (showCurrentExplanation st); simpl; split.
    + intros H%class_inj. by (congruence || tauto).
    + intros _. split; [tauto|]. split; [|tauto].
      intros H%class_inj. by (congruence || tauto).
    + intros H%class_inj. by (congruence || tauto).
    + discriminate.
  - destruct (showCurrentExplanation st); simpl; split.
    + intros H%class_inj. by (congruence || tauto).
    + intros _. split; split; try tauto; intros H%class_inj; congruence.
    + intros H%class_inj. by (congruence || tauto).
    + discriminate.
Qed.

Lemma option_button_look_witness :
  currentMCQ (run [Mount (Some Examples.oneQuestion); ClickOption (codes "A")]
                  initialState)
  = Some Examples.oneQuestionRecord
  /\ buttonClass
       (run [Mount (Some Examples.oneQuestion); ClickOption (codes "A")]
            initialState) (codes "A")
     <> Some (baseClass ++ blueClass).
Proof.
  assert (H : currentMCQ
                (run [Mount (Some Examples.oneQuestion);
                      ClickOption (codes "A")] initialState)
              = Some Examples.oneQuestionRecord) by (vm_compute; reflexivity).
  split; [exact H|].
  exact (proj1 (option_button_look _ (codes "A") _ H)).
Defined.
End QuizSessionMore.

(** * More about the study session *)

Section StudySessionMore.
Import FlashcardQuiz.

Lemma step_in_range (o : Op) (st : State) :
  currentCard st < length (flashcardData st) ->
  (forall i, i ∈ reviewedCards st -> i < length (flashcardData st)) ->
  flashcardData (step o st) = flashcardData st
  /\ currentCard (step o st) < length (flashcardData st)
  /\ (forall i, i ∈ reviewedCards (step o st) ->
                i < length (flashcardData st)).
Proof.
  intros Hcur Hrev. destruct o; simpl.
  - split; [done|]. split; [done|]. intros i Hi.
    destruct (negb (isFlipped st)); [|auto].
    apply elem_of_union in Hi as [Hi|Hi]; [auto|].
    apply elem_of_singleton in Hi. by subst.
  - unfold nextCard.
    destruct (Z.ltb_spec (Z.of_nat (currentCard st))
                         (Z.of_nat (length (flashcardData st)) - 1));
      simpl; repeat split; auto; lia.
  - unfold prevCard. destruct (0 <? currentCard st);
      simpl; repeat split; auto; lia.
  - repeat split; auto; [lia|]. intros i Hi.
    by apply elem_of_empty in Hi.
Qed.

Lemma run_in_range (os : list Op) :
  forall st,
    currentCard st < length (flashcardData st) ->
    (forall i, i ∈ reviewedCards st -> i < length (flashcardData st)) ->
    flashcardData (run os st) = flashcardData st
    /\ currentCard (run os st) < length (flashcardData st)
    /\ (forall i, i ∈ reviewedCards (run os st) ->
                  i < length (flashcardData st)).
Proof.
  induction os as [|o os IH]; intros st Hcur Hrev; [done|].
  destruct (step_in_range o st Hcur Hrev) as (Hd & Hc & Hr).
  unfold run. simpl. fold (run os (step o st)).
  destruct (IH (step o st)) as (Hd' & Hc' & Hr');
    rewrite ?Hd; auto.
  rewrite Hd in Hd', Hc', Hr'. auto.
Qed.

(** X13.  Once cards are loaded, whatever the user does, the cards
    stay the loaded ones, the current index is that of a card, and the
    count of reviewed cards is at most the number of cards. *)
Theorem study_stays_in_range (stored : option jsstring) (os : list Op) :
  flashcardData (loadCards stored initialState) <> [] ->
  flashcardData (run os (loadCards stored initialState))
  = flashcardData (loadCards stored initialState)
  /\ currentCard (run os (loadCards stored initialState))
     < length (flashcardData (run os (loadCards stored initialState)))
  /\ reviewedCount (run os (loadCards stored initialState))
     <= length (flashcardData (run os (loadCards stored initialState))).
Proof.
  intros Hdata.
  assert (Hcur : currentCard (loadCards stored initialState) = 0
                 /\ reviewedCards (loadCards stored initialState) = ∅).
  { unfold loadCards. destruct stored as [[|c raw]|]; try done.
    by destruct (length _ =? 0). }
  destruct Hcur as [Hcur Hrev].
  destruct (run_in_range os (loadCards stored initialState))
    as (Hd & Hc & Hr).
  { rewrite Hcur. destruct (flashcardData _); [done | simpl; lia]. }
  { intros i Hi. rewrite Hrev in Hi. by apply elem_of_empty in Hi. }
  rewrite Hd. split; [done|]. split; [exact Hc|].
  unfold reviewedCount.
  rewrite <- (size_set_seq (C := gset nat) 0
                (length (flashcardData (loadCards stored initialState)))).
  apply subseteq_size. intros i Hi. apply elem_of_set_seq.
  specialize (Hr i Hi). lia.
Qed.

Lemma study_stays_in_range_witness :
  flashcardData (loadCards (Some Examples.threeCards) initialState) <> []
  /\ currentCard (run [Next; Flip; Next; Next; Flip; Prev]
                      (loadCards (Some Examples.threeCards) initialState))
     < length (flashcardData
                 (run [Next; Flip; Next; Next; Flip; Prev]
                      (loadCards (Some Examples.threeCards) initialState)))
  /\ reviewedCount (run [Next; Flip; Next; Next; Flip; Prev]
                        (loadCards (Some Examples.threeCards) initialState))
     <= length (flashcardData
                  (run [Next; Flip; Next; Next; Flip; Prev]
                       (loadCards (Some Examples.threeCards) initialState))).
Proof.
  assert (H : flashcardData (loadCards (Some Examples.threeCards) initialState)
              <> []) by (vm_compute; discriminate).
  split; [exact H|].
  exact (proj2 (study_stays_in_range _ [Next; Flip; Next; Next; Flip; Prev] H)).
Defined.
End StudySessionMore.

(** * Starting again *)

Section QuizRestart.
Import MCQQuiz.

(** No click changes the questions, the loading flag or the error. *)
Lemma dispatch_keeps_quiz (e : Event) (st : State) :
  isClick e = true ->
  mcqData (dispatch e st) = mcqData st
  /\ loading (dispatch e st) = loading st
  /\ error (dispatch e st) = error st.
Proof.
  intros He. unfold dispatch.
  destruct e as [stored|letter| | |]; [discriminate|..];
    destruct (render st); try done.
  - unfold clickOption. by destruct (negb _).
  - destruct (noSelectedAnswer st); [done|].
    unfold nextQuestion. by destruct (_ <? _)%Z.
  - destruct (currentQuestion st =? 0); [done|].
    unfold prevQuestion. by destruct (0 <? _).
Qed.

Lemma run_keeps_quiz (es : list Event) :
  forallb isClick es = true ->
  forall st,
    mcqData (run es st) = mcqData st
    /\ loading (run es st) = loading st
    /\ error (run es st) = error st.
Proof.
  induction es as [|e es IH]; intros Hes st; [done|].
  simpl in Hes. apply andb_true_iff in Hes as [He Hes].
  unfold run. simpl. fold (run es (dispatch e st)).
  destruct (IH Hes (dispatch e st)) as (H1 & H2 & H3).
  destruct (dispatch_keeps_quiz e st He) as (H1' & H2' & H3').
  rewrite H1, H2, H3. auto.
Qed.

(** X16.  Retake Quiz brings back exactly the state the loading effect
    left: from the result screen, whatever the clicks that led to it, a
    click on Retake Quiz gives the loaded questions, the first question,
    no answer, no explanation, on the question screen. *)
Theorem retake_restores_loaded_quiz (stored : option jsstring)
    (es : list Event) :
  forallb isClick es = true ->
  render (run es (loadQuiz stored initialState)) = ResultScreen ->
  dispatch ClickRetake (run es (loadQuiz stored initialState))
  = loadQuiz stored initialState
  /\ render (loadQuiz stored initialState) = QuestionScreen.
Proof.
  intros Hes Hr.
  destruct (run_keeps_quiz es Hes (loadQuiz stored initialState))
    as (Hd & Hl & He).
  assert (Hreset : dispatch ClickRetake (run es (loadQuiz stored initialState))
                   = loadQuiz stored initialState).
  { unfold dispatch. rewrite Hr. unfold resetQuiz. rewrite Hd, Hl, He.
    unfold loadQuiz. destruct stored as [[|c raw]|]; try done.
    by destruct (length _ =? 0). }
  split; [exact Hreset|].
  unfold render in Hr |- *. rewrite Hl, He in Hr.
  destruct (loading _); [discriminate|].
  destruct (negb _); [discriminate|].
  unfold loadQuiz. destruct stored as [[|c raw]|]; try done.
  by destruct (length _ =? 0).
Qed.

Lemma retake_restores_loaded_quiz_witness :
  forallb isClick (answerAll [codes "A"; codes "B"; codes "A"]) = true
  /\ render (run (answerAll [codes "A"; codes "B"; codes "A"])
                 (loadQuiz (Some Examples.threeQuestions) initialState))
     = ResultScreen
  /\ dispatch ClickRetake
       (run (answerAll [codes "A"; codes "B"; codes "A"])
            (loadQuiz (Some Examples.threeQuestions) initialState))
     = loadQuiz (Some Examples.threeQuestions) initialState.
Proof.
  assert (H1 : forallb isClick (answerAll [codes "A"; codes "B"; codes "A"])
               = true) by reflexivity.
  assert (H2 : render (run (answerAll [codes "A"; codes "B"; codes "A"])
                 (loadQuiz (Some Examples.threeQuestions) initialState))
               = ResultScreen) by (vm_compute; reflexivity).
  split; [exact H1|]. split; [exact H2|].
  exact (proj1 (retake_restores_loaded_quiz _ _ H1 H2)).
Defined.
End QuizRestart.

Section StudyRestart.
Import FlashcardQuiz.

Lemma step_keeps_cards (o : Op) (st : State) :
  flashcardData (step o st) = flashcardData st
  /\ loading (step o st) = loading st
  /\ error (step o st) = error st.
Proof.
  destruct o; simpl; [done| | |done].
  - unfold nextCard. by destruct (_ <? _)%Z.
  - unfold prevCard. by destruct (0 <? _).
Qed.

Lemma run_keeps_cards (os : list Op) :
  forall st,
    flashcardData (run os st) = flashcardData st
    /\ loading (run os st) = loading st
    /\ error (run os st) = error st.
Proof.
  induction os as [|o os IH]; intros st; [done|].
  unfold run. simpl. fold (run os (step o st)).
  destruct (IH (step o st)) as (H1 & H2 & H3).
  destruct (step_keeps_cards o st) as (H1' & H2' & H3').
  rewrite H1, H2, H3. auto.
Qed.

(** The answer side is shown for reviewed cards only. *)
Lemma step_flipped_reviewed (o : Op) (st : State) :
  (isFlipped st = true -> currentCard st ∈ reviewedCards st) ->
  isFlipped (step o st) = true ->
  currentCard (step o st) ∈ reviewedCards (step o st).
Proof.
  intros Hinv. destruct o; simpl.
  - destruct (isFlipped st); [discriminate|]. intros _. simpl.
    apply elem_of_union. right. by apply elem_of_singleton.
  - unfold nextCard. destruct (_ <? _)%Z; simpl; [discriminate|exact Hinv].
  - unfold prevCard. destruct (0 <? _); simpl; [discriminate|exact Hinv].
  - discriminate.
Qed.

Lemma run_flipped_reviewed (os : list Op) :
  forall st,
    (isFlipped st = true -> currentCard st ∈ reviewedCards st) ->
    isFlipped (run os st) = true ->
    currentCard (run os st) ∈ reviewedCards (run os st).
Proof.
  induction os as [|o os IH]; intros st Hinv; [exact Hinv|].
  unfold run. simpl. fold (run os (step o st)).
  apply IH. by apply step_flipped_reviewed.
Qed.

Lemma loadCards_start (stored : option jsstring) :
  currentCard (loadCards stored initialState) = 0
  /\ isFlipped (loadCards stored initialState) = false
  /\ reviewedCards (loadCards stored initialState) = ∅
  /\ studyCompleted (loadCards stored initialState) = false.
Proof.
  unfold loadCards. destruct stored as [[|c raw]|]; try done.
  by destruct (length _ =? 0).
Qed.

(** X17.  Study Again brings back exactly the state the loading effect
    left: after any run of flips, steps forward and back and restarts,
    [resetStudy] gives the loaded cards, the first card, its front, and
    no card marked reviewed. *)
Theorem study_again_restores_loaded_cards (stored : option jsstring)
    (os : list Op) :
  resetStudy (run os (loadCards stored initialState))
  = loadCards stored initialState.
Proof.
  destruct (run_keeps_cards os (loadCards stored initialState))
    as (Hd & Hl & He).
  destruct (loadCards_start stored) as (Hc & Hf & Hr & Hs).
  unfold resetStudy. rewrite Hd, Hl, He.
  destruct (loadCards stored initialState). simpl in *. by subst.
Qed.

(** X18.  Whenever the answer side of a card is showing, the card is
    marked reviewed: in every state reached from the loading effect by
    the handlers, [isFlipped] implies that the current index is in
    [reviewedCards], so the count of reviewed cards is then at least
    one. *)
Theorem shown_answer_is_reviewed (stored : option jsstring) (os : list Op) :
  isFlipped (run os (loadCards stored initialState)) = true ->
  currentCard (run os (loadCards stored initialState))
  ∈ reviewedCards (run os (loadCards stored initialState))
  /\ 1 <= reviewedCount (run os (loadCards stored initialState)).
Proof.
  intros Hf.
  assert (Hin : currentCard (run os (loadCards stored initialState))
                ∈ reviewedCards (run os (loadCards stored initialState))).
  { apply run_flipped_reviewed; [|exact Hf].
    destruct (loadCards_start stored) as (_ & Hf0 & _). rewrite Hf0.
    discriminate. }
  split; [exact Hin|]. unfold reviewedCount.
  rewrite <- (size_singleton (C := gset nat)
                (currentCard (run os (loadCards stored initialState)))).
  apply subseteq_size. by apply singleton_subseteq_l.
Qed.

Lemma shown_answer_is_reviewed_witness :
  isFlipped (run [Next; Flip; Prev; Next; Next; Flip]
                 (loadCards (Some Examples.threeCards) initialState)) = true
  /\ 1 <= reviewedCount
            (run [Next; Flip; Prev; Next; Next; Flip]
                 (loadCards (Some Examples.threeCards) initialState)).
Proof.
  assert (H : isFlipped (run [Next; Flip; Prev; Next; Next; Flip]
                 (loadCards (Some Examples.threeCards) initialState)) = true)
    by (vm_compute; reflexivity).
  split; [exact H|].
  exact (proj2 (shown_answer_is_reviewed _ _ H)).
Defined.
End StudyRestart.

(** * The home page *)

Section HomePageFacts.
Import HomePage.
Variable url : jsstring.

Local Abbreviation matches := (sem url false).

Lemma schemePart_text (x y : mstate) :
  matches schemePart x y ->
  exists scheme, scheme ∈ schemes /\
    drop (endIndex x) url = scheme ++ drop (endIndex y) url.
Proof.
  unfold schemePart, Opt, Cat. cbn [foldr sem].
  intros [(y' & (a & Ha & b & Hb & c & Hc & ->) & ->) | ->].
  - apply sem_Lit in Ha as [Ha _]. apply sem_Lit in Hc as [Hc _].
    destruct Hb as [Hb | ->].
    + apply (sem_Char url false) in Hb as (s & Hs & Hb & _).
      unfold isChar in Hs. apply N.eqb_eq in Hs. subst s.
      exists (codes "https://"). split; [set_solver|].
      rewrite Ha, Hb, Hc. reflexivity.
    + exists (codes "http://"). split; [set_solver|].
      rewrite Ha, Hc. reflexivity.
  - exists []. split; [set_solver | done].
Qed.

Lemma wwwPart_text (x y : mstate) :
  matches wwwPart x y ->
  exists www, www ∈ wwws /\
    drop (endIndex x) url = www ++ drop (endIndex y) url.
Proof.
  unfold wwwPart, Opt. cbn [sem].
  intros [(y' & Ha & ->) | ->].
  - apply sem_Lit in Ha as [Ha _]. exists (codes "www.").
    split; [set_solver | exact Ha].
  - exists []. split; [set_solver | done].
Qed.

Lemma hostPart_text (x y : mstate) :
  matches hostPart x y ->
  exists host, host ∈ hosts /\
    drop (endIndex x) url = host ++ drop (endIndex y) url.
Proof.
  unfold hostPart. cbn [sem].
  intros (y' & [Ha|Ha] & ->); apply sem_Lit in Ha as [Ha _];
    eexists; (split; [|exact Ha]); set_solver.
Qed.

Lemma idPart_text (x y : mstate) :
  matches idPart x y ->
  exists c rest, isWordOrHyphen c = true /\
    drop (endIndex x) url = c :: rest.
Proof.
  unfold idPart, Plus. cbn [sem].
  intros (y' & (a & Ha & _) & ->).
  apply (sem_Char url false) in Ha as (c & Hc & Ha & _). eauto.
Qed.

Lemma schemePart_intro (x : mstate) (scheme tl : jsstring) :
  scheme ∈ schemes -> drop (endIndex x) url = scheme ++ tl ->
  exists y, matches schemePart x y /\ drop (endIndex y) url = tl.
Proof.
  unfold schemePart, Opt, Cat, schemes. cbn [foldr sem].
  intros Hs Hd. repeat (apply elem_of_cons in Hs as [->|Hs]);
    [| | |by apply elem_of_nil in Hs].
  - exists x. split; [by right | done].
  - pose proof (sem_Lit_intro url false "http" x _ Hd) as H1.
    apply (drop_step _ (codes "http") (codes "://" ++ tl)) in Hd as Hd1.
    set (a := MState _ _) in H1.
    pose proof (sem_Lit_intro url false "://" a _ Hd1) as H2.
    apply (drop_step _ (codes "://")) in Hd1 as Hd2.
    eexists. split; [left; eexists; split; [|reflexivity]|].
    + exists a. split; [exact H1|]. exists a. split; [by right|].
      eexists. split; [exact H2 | reflexivity].
    + exact Hd2.
  - pose proof (sem_Lit_intro url false "http" x _ Hd) as H1.
    apply (drop_step _ (codes "http") (115%N :: codes "://" ++ tl))
      in Hd as Hd1.
    set (a := MState _ _) in H1.
    change (drop (endIndex a) url = 115%N :: codes "://" ++ tl) in Hd1.
    assert (Hc : url !! endIndex a = Some 115%N).
    { rewrite <- (Nat.add_0_r (endIndex a)), <- lookup_drop.
      by rewrite Hd1. }
    assert (Hd2 : drop (S (endIndex a)) url = codes "://" ++ tl).
    { rewrite (drop_S _ _ _ Hc) in Hd1. by injection Hd1. }
    pose proof (sem_Lit_intro url false "://"
                  (MState (S (endIndex a)) (captures a)) _ Hd2) as H2.
    apply (drop_step _ (codes "://")) in Hd2 as Hd3.
    eexists. split; [left; eexists; split; [|reflexivity]|].
    + exists a. split; [exact H1|]. eexists. split.
      * left. exists 115%N. split; [exact Hc|]. split; reflexivity.
      * eexists. split; [exact H2 | reflexivity].
    + exact Hd3.
Qed.

Lemma wwwPart_intro (x : mstate) (www tl : jsstring) :
  www ∈ wwws -> drop (endIndex x) url = www ++ tl ->
  exists y, matches wwwPart x y /\ drop (endIndex y) url = tl.
Proof.
  unfold wwwPart, Opt, wwws. cbn [sem].
  intros Hs Hd. repeat (apply elem_of_cons in Hs as [->|Hs]);
    [| |by apply elem_of_nil in Hs].
  - exists x. split; [by right | done].
  - pose proof (sem_Lit_intro url false "www." x _ Hd) as H1.
    apply drop_step in Hd as Hd1.
    eexists. split; [left; eexists; split; [exact H1|reflexivity]|].
    exact Hd1.
Qed.

Lemma hostPart_intro (x : mstate) (host tl : jsstring) :
  host ∈ hosts -> drop (endIndex x) url = host ++ tl ->
  exists y, matches hostPart x y /\ drop (endIndex y) url = tl.
Proof.
  unfold hostPart, hosts. cbn [sem].
  intros Hs Hd. repeat (apply elem_of_cons in Hs as [->|Hs]);
    [| |by apply elem_of_nil in Hs].
  - pose proof (sem_Lit_intro url false "youtube.com/watch?v=" x _ Hd) as H1.
    apply drop_step in Hd as Hd1.
    eexists. split; [eexists; split; [left; exact H1|reflexivity]|].
    exact Hd1.
  - pose proof (sem_Lit_intro url false "youtu.be/" x _ Hd) as H1.
    apply drop_step in Hd as Hd1.
    eexists. split; [eexists; split; [right; exact H1|reflexivity]|].
    exact Hd1.
Qed.

Lemma idPart_intro (x : mstate) (c : N) (rest : jsstring) :
  isWordOrHyphen c = true -> drop (endIndex x) url = c :: rest ->
  exists y, matches idPart x y.
Proof.
  unfold idPart, Plus. cbn [sem]. intros Hc Hd.
  assert (Hl : url !! endIndex x = Some c).
  { rewrite <- (Nat.add_0_r (endIndex x)), <- lookup_drop. by rewrite Hd. }
  eexists. eexists. split; [|reflexivity].
  eexists. split; [exists c; split; [exact Hl|split; [exact Hc|reflexivity]]|].
  apply rtc_refl.
Qed.

Lemma youtubeRegex_parts :
  pattern youtubeRegex
  = Seq Bol (Seq schemePart (Seq wwwPart (Seq hostPart (Seq idPart Empty)))).
Proof. reflexivity. Qed.

Lemma valid_shape_aux : isValidYouTubeUrl url = true <-> validShape url.
Proof.
  unfold isValidYouTubeUrl. split.
  - destruct (exec youtubeRegex url 0) as [m|] eqn:E; [intros _|discriminate].
    apply exec_Some in E as (_ & _ & _ & H).
    rewrite youtubeRegex_parts in H.
    apply sem_Bol_start in H as [_ H]; [|reflexivity].
    destruct H as (a & Ha & b & Hb & c & Hc & d & Hd & _).
    apply schemePart_text in Ha as (scheme & Hs & Ha).
    apply wwwPart_text in Hb as (www & Hw & Hb).
    apply hostPart_text in Hc as (host & Hh & Hc).
    apply idPart_text in Hd as (ch & rest & Hch & Hd).
    exists scheme, www, host, ch, rest. repeat (split; [assumption|]).
    simpl in Ha. rewrite drop_0 in Ha. by rewrite Ha, Hb, Hc, Hd.
  - intros (scheme & www & host & c & rest & Hs & Hw & Hh & Hc & Hurl).
    destruct (schemePart_intro (MState 0 ∅) scheme (www ++ host ++ c :: rest)
                Hs) as (a & Ha & Hda); [by rewrite drop_0|].
    destruct (wwwPart_intro a www _ Hw Hda) as (b & Hb & Hdb).
    destruct (hostPart_intro b host _ Hh Hdb) as (d & Hd & Hdd).
    destruct (idPart_intro d c rest Hc Hdd) as (y & Hy).
    assert (Hsem : matches (pattern youtubeRegex) (MState 0 ∅) y).
    { rewrite youtubeRegex_parts. exists (MState 0 ∅). split; [done|].
      exists a. split; [exact Ha|]. exists b. split; [exact Hb|].
      exists d. split; [exact Hd|]. exists y. split; [exact Hy|done]. }
    unfold exec. simpl (length url <? 0).
    assert (Hm : is_Some (search url (flag_m youtubeRegex)
                            (pattern youtubeRegex) (length url - 0) 0)).
    { apply search_first. unfold matchAt.
      apply (rmatch_complete url false (pattern youtubeRegex)
               (eq_refl : plainPattern (pattern youtubeRegex) = true)
               Some (MState 0 ∅) y); [simpl; lia | exact Hsem | eauto]. }
    destruct Hm as [[i y'] ->]. reflexivity.
Qed.
End HomePageFacts.

Lemma validShape_not_blank (url : jsstring) :
  HomePage.validShape url -> HomePage.blank url = false.
Proof.
  intros (scheme & www & host & c & rest & _ & _ & _ & Hc & ->).
  unfold HomePage.blank.
  destruct (trim _) as [|a l] eqn:E; [|done].
  pose proof (word_not_space c Hc) as Hn.
  rewrite (trim_nil _ E c) in Hn; [discriminate|].
  rewrite !elem_of_app. right. right. right. apply list_elem_of_here.
Qed.

(** X14. [isValidYouTubeUrl] accepts exactly the addresses that start
    with an optional [http://] or [https://], an optional [www.], then
    [youtube.com/watch?v=] or [youtu.be/] and at least one code unit of
    a video id (a letter, a digit, the underscore or the hyphen); what
    follows is not looked at. *)
Theorem valid_url_shape (url : jsstring) :
  HomePage.isValidYouTubeUrl url = true <-> HomePage.validShape url.
Proof. apply valid_shape_aux. Qed.

Lemma valid_url_shape_witness :
  HomePage.validShape (codes "https://www.youtube.com/watch?v=a-1_Z&t=10s")
  /\ HomePage.validShape (codes "youtu.be/a and more")
  /\ ~ HomePage.validShape (codes " https://youtu.be/a")
  /\ ~ HomePage.validShape (codes "https://m.youtube.com/watch?v=a").
Proof.
  split; [apply (proj1 (valid_url_shape _)); vm_compute; reflexivity|].
  split; [apply (proj1 (valid_url_shape _)); vm_compute; reflexivity|].
  split; intros H; apply (proj2 (valid_url_shape _)) in H;
    vm_compute in H; discriminate.
Defined.

Lemma trimStart_spaces (s : jsstring) :
  (forall c, c ∈ s -> isSpace c = true) -> trimStart s = [].
Proof.
  induction s as [|a s IH]; intros H; [done|]. simpl.
  rewrite (H a) by apply list_elem_of_here.
  apply IH. intros c Hc. apply H. by apply list_elem_of_further.
Qed.

(** [!url.trim()] holds exactly for a text of white space only. *)
Lemma blank_spaces (url : jsstring) :
  HomePage.blank url = true <-> (forall c, c ∈ url -> isSpace c = true).
Proof.
  unfold HomePage.blank. split.
  - destruct (trim url) eqn:E; [|discriminate]. intros _. by apply trim_nil.
  - intros H. unfold trim. by rewrite (trimStart_spaces _ H).
Qed.

(** X15. [handleSubmit] sends a request exactly for the addresses of the
    valid shape: the request goes to the endpoint of the chosen quiz type
    with the address as typed, the error is cleared and the processing
    flag set.  For any other address nothing is sent and the processing
    flag keeps its value; the error is the message for an empty address
    exactly when the address holds white space only, the message for an
    invalid address otherwise. *)
Theorem submit_sends_valid_addresses (st : HomePage.State) :
  (HomePage.validShape (HomePage.url st) ->
   HomePage.handleSubmit st
   = (HomePage.MkState (HomePage.url st) (HomePage.quizType st) true [],
      Some (HomePage.MkRequest
              (codes "http://localhost:8000"
               ++ HomePage.endpoint (HomePage.quizType st))
              (HomePage.url st)))) /\
  (~ HomePage.validShape (HomePage.url st) ->
   (HomePage.handleSubmit st).2 = None /\
   HomePage.url (HomePage.handleSubmit st).1 = HomePage.url st /\
   HomePage.quizType (HomePage.handleSubmit st).1 = HomePage.quizType st /\
   HomePage.isProcessing (HomePage.handleSubmit st).1
   = HomePage.isProcessing st /\
   ((forall c, c ∈ HomePage.url st -> isSpace c = true) ->
    HomePage.error (HomePage.handleSubmit st).1 = HomePage.emptyUrlMessage) /\
   (~ (forall c, c ∈ HomePage.url st -> isSpace c = true) ->
    HomePage.error (HomePage.handleSubmit st).1
    = HomePage.invalidUrlMessage)).
Proof.
  unfold HomePage.handleSubmit. split.
  - intros H. rewrite (validShape_not_blank _ H).
    apply valid_shape_aux in H. by rewrite H.
  - intros H.
    assert (Hv : HomePage.isValidYouTubeUrl (HomePage.url st) = false).
    { destruct (HomePage.isValidYouTubeUrl _) eqn:E; [|done].
      by apply valid_shape_aux in E. }
    rewrite Hv.
    destruct (HomePage.blank (HomePage.url st)) eqn:Eb; simpl.
    + do 4 (split; [reflexivity|]). split; [done|].
      intros Hn. exfalso. apply Hn. by apply blank_spaces.
    + do 4 (split; [reflexivity|]). split; [|done].
      intros Hs. apply blank_spaces in Hs. congruence.
Qed.

Lemma submit_sends_valid_addresses_witness :
  HomePage.handleSubmit
    (HomePage.MkState (codes "https://youtu.be/a1") HomePage.flashcard false
       (codes "Please enter a YouTube URL"))
  = (HomePage.MkState (codes "https://youtu.be/a1") HomePage.flashcard true [],
     Some (HomePage.MkRequest
             (codes "http://localhost:8000/process-video-flashcards")
             (codes "https://youtu.be/a1"))).
Proof.
  apply (proj1 (submit_sends_valid_addresses
                  (HomePage.MkState (codes "https://youtu.be/a1")
                     HomePage.flashcard false
                     (codes "Please enter a YouTube URL")))).
  apply valid_shape_aux. vm_compute. reflexivity.
Defined.
